(** * mctiers-website: the editor (players.js) and the read-only viewer
      (players-view.js) over the browser's local storage.

    The development embeds the storage helpers, the normalizer, the CSV
    reader, the import and export paths, the mapping actions, the row
    actions of the table and the form handler as Rocq functions, and
    proves the properties the specification states about them.

    Conventions of the embedding.
    - JavaScript values are the inductive type [value]; an object is the
      list of its own properties in insertion order, an array the list
      of its elements.
    - Numbers are [NaN] and the integers, computed exactly (the data model
      types rank and points as integers).  Fractions, exponent forms,
      radix prefixes, the infinities and the rounding of doubles are
      outside the model: [StringToNumber] and [JSON.parse] read optionally
      signed decimal integers only.  A statement that follows a text into
      a number is made for the texts both read alike ([exact_number_text],
      [reads_exactly], [exact_json]), or holds whichever way the text is
      read.
    - Strings are sequences of 8-bit code units.
    - Code that can throw returns [res]; handlers that change the page
      state are functions from state to state (with a result where one is
      thrown or returned). *)

From Stdlib Require Import ZArith Ascii String List Decimal DecimalString DecimalZ Lia.
From Stdlib Require DecimalPos DecimalFacts.
From stdpp Require Import base option list gmap strings sorting.

Set Warnings "-register-all".
Open Scope string_scope.
Arguments String.append !s1 s2 : simpl nomatch.

(** ** Characters and strings of the host *)

Definition DQ : ascii := "034"%char.   (* the double quote *)
Definition LF : ascii := "010"%char.
Definition CR : ascii := "013"%char.
Definition NUL : ascii := "000"%char.

Definition str (c : ascii) : string := String c EmptyString.

(** WhiteSpace and LineTerminator code units below 256, as removed by
    [String.prototype.trim]. *)
Definition is_ws (c : ascii) : bool :=
  let n := nat_of_ascii c in
  ((9 <=? n) && (n <=? 13) || (n =? 32) || (n =? 160))%nat.

Fixpoint trimStart (s : string) : string :=
  match s with
  | EmptyString => EmptyString
  | String c r => if is_ws c then trimStart r else s
  end.

Fixpoint trimEnd (s : string) : string :=
  match s with
  | EmptyString => EmptyString
  | String c r =>
      match trimEnd r with
      | EmptyString => if is_ws c then EmptyString else str c
      | r' => String c r'
      end
  end.

Definition trim (s : string) : string := trimEnd (trimStart s).

Definition lower_char (c : ascii) : ascii :=
  let n := nat_of_ascii c in
  if ((65 <=? n) && (n <=? 90) || (192 <=? n) && (n <=? 222) && negb (n =? 215))%nat
  then ascii_of_nat (n + 32) else c.

Fixpoint toLowerCase (s : string) : string :=
  match s with
  | EmptyString => EmptyString
  | String c r => String (lower_char c) (toLowerCase r)
  end.

Fixpoint startsWith (s p : string) {struct p} : bool :=
  match p with
  | EmptyString => true
  | String c p' =>
      match s with
      | String d s' => Ascii.eqb c d && startsWith s' p'
      | EmptyString => false
      end
  end.

Fixpoint endsWith (s p : string) : bool :=
  String.eqb s p ||
  match s with
  | EmptyString => false
  | String _ r => endsWith r p
  end.

Definition is_empty (s : string) : bool :=
  match s with EmptyString => true | _ => false end.

(** ** Numbers *)

Inductive number := NaN | Fin (z : Z).

Definition number_eq_dec (a b : number) : {a = b} + {a <> b}.
Proof. decide equality. apply Z.eq_dec. Defined.

Definition isNaN (n : number) : bool :=
  match n with NaN => true | Fin _ => false end.

(** [Number::toString] in radix 10. *)
Definition NumberToString (n : number) : string :=
  match n with
  | NaN => "NaN"
  | Fin z => NilZero.string_of_int (Z.to_int z)
  end.

Definition digits (s : string) : option Z :=
  option_map Z.of_uint (NilZero.uint_of_string s).

(** [StringToNumber]: the text is trimmed; the empty text is 0; an
    optionally signed run of decimal digits is its value; other text
    is NaN. *)
Definition StringToNumber (s : string) : number :=
  match trim s with
  | EmptyString => Fin 0
  | String c r as t =>
      if Ascii.eqb c "-" then
        match digits r with Some z => Fin (- z) | None => NaN end
      else if Ascii.eqb c "+" then
        match digits r with Some z => Fin z | None => NaN end
      else
        match digits t with Some z => Fin z | None => NaN end
  end.

(** ** Values *)

Inductive exn :=
| TypeError (msg : string)
| SyntaxError (msg : string)
| Error (msg : string).

Inductive res (A : Type) :=
| Ok (a : A)
| Throw (e : exn).
Arguments Ok {A} a.
Arguments Throw {A} e.

#[global] Instance res_ret : MRet res := fun A a => Ok a.
#[global] Instance res_bind : MBind res :=
  fun A B f m => match m with Ok a => f a | Throw e => Throw e end.

Inductive value :=
| VUndefined
| VNull
| VBool (b : bool)
| VNum (n : number)
| VStr (s : string)
| VArr (elems : list value)
| VObj (props : list (string * value))
| VBuiltin (name : string).   (* a member inherited from Object.prototype *)

Definition obj := list (string * value).

Fixpoint obj_get (o : obj) (k : string) : option value :=
  match o with
  | [] => None
  | (k', v) :: rest => if String.eqb k' k then Some v else obj_get rest k
  end.

(** Defining a property: an existing key keeps its place. *)
Fixpoint obj_set (o : obj) (k : string) (v : value) : obj :=
  match o with
  | [] => [(k, v)]
  | (k', v') :: rest =>
      if String.eqb k' k then (k, v) :: rest else (k', v') :: obj_set rest k v
  end.

Definition obj_has (o : obj) (k : string) : bool :=
  match obj_get o k with Some _ => true | None => false end.

(** The property names of [Object.prototype]. *)
Definition object_prototype_names : list string :=
  ["constructor"; "__defineGetter__"; "__defineSetter__"; "hasOwnProperty";
   "__lookupGetter__"; "__lookupSetter__"; "isPrototypeOf";
   "propertyIsEnumerable"; "toString"; "valueOf"; "__proto__";
   "toLocaleString"].

Definition inherited (k : string) : bool :=
  existsb (String.eqb k) object_prototype_names.

(** [o[k]] on a plain object: the own property, else the inherited member,
    else undefined. *)
Definition Get (o : obj) (k : string) : value :=
  match obj_get o k with
  | Some v => v
  | None => if inherited k then VBuiltin k else VUndefined
  end.

(** [v.k] for the property names the source reads from records ([tier],
    [points], [rank], [name] and their variants): none of them is defined
    by arrays, strings or a built-in prototype, so only a plain object can
    carry them; reading from undefined or null throws. *)
Definition field (v : value) (k : string) : res value :=
  match v with
  | VUndefined | VNull => Throw (TypeError "Cannot read properties of undefined or null")
  | VObj o => Ok (Get o k)
  | _ => Ok VUndefined
  end.

Definition truthy (v : value) : bool :=
  match v with
  | VUndefined | VNull => false
  | VBool b => b
  | VNum NaN => false
  | VNum (Fin z) => negb (z =? 0)%Z
  | VStr s => negb (is_empty s)
  | VArr _ | VObj _ | VBuiltin _ => true
  end.

Definition nullish (v : value) : bool :=
  match v with VUndefined | VNull => true | _ => false end.

(** [a ?? b] *)
Definition coalesce (a b : value) : value := if nullish a then b else a.

(** [a || b] with [b] already a value *)
Definition or_val (a b : value) : value := if truthy a then a else b.

(** [a || e] where evaluating [e] may throw *)
Definition or_else (a : value) (e : res value) : res value :=
  if truthy a then Ok a else e.

Section Join.
Variable elem : value -> res string.

(** [Array.prototype.join] with the separator [","]: undefined and null
    elements give the empty string. *)
Fixpoint join_elems (l : list value) : res string :=
  match l with
  | [] => Ok ""
  | x :: rest =>
      s ← match x with VUndefined | VNull => Ok "" | _ => elem x end;
      match rest with
      | [] => Ok s
      | _ => t ← join_elems rest; Ok (s ++ "," ++ t)
      end
  end.
End Join.

(** [ToString].  A plain object goes through [Object.prototype.toString]
    unless it has an own [toString] property, which (coming from data) is
    not callable. *)
Fixpoint ToString (v : value) : res string :=
  match v with
  | VUndefined => Ok "undefined"
  | VNull => Ok "null"
  | VBool true => Ok "true"
  | VBool false => Ok "false"
  | VNum n => Ok (NumberToString n)
  | VStr s => Ok s
  | VArr l => join_elems ToString l
  | VObj o =>
      if obj_has o "toString"
      then Throw (TypeError "Cannot convert object to primitive value")
      else Ok "[object Object]"
  | VBuiltin k => Ok ("function " ++ k ++ "() { [native code] }")
  end.

(** [ToNumber] *)
Definition ToNumber (v : value) : res number :=
  match v with
  | VUndefined => Ok NaN
  | VNull => Ok (Fin 0)
  | VBool true => Ok (Fin 1)
  | VBool false => Ok (Fin 0)
  | VNum n => Ok n
  | VStr s => Ok (StringToNumber s)
  | VArr _ => s ← ToString v; Ok (StringToNumber s)
  | VObj o =>
      if obj_has o "toString"
      then Throw (TypeError "Cannot convert object to primitive value")
      else Ok NaN
  | VBuiltin _ => Ok NaN
  end.

(** [x === ""] *)
Definition is_empty_string (v : value) : bool :=
  match v with VStr s => is_empty s | _ => false end.

(** [v === n] for a number [n]; [v === s] for a string [s]. *)
Definition strict_eq_num (v : value) (n : number) : bool :=
  match v, n with
  | VNum (Fin a), Fin b => (a =? b)%Z
  | _, _ => false
  end.

Definition strict_eq_str (v : value) (s : string) : bool :=
  match v with VStr t => String.eqb t s | _ => false end.

(** ** The editor: constants *)

Definition STORAGE_KEY : string := "mctiers_players_v1".
Definition MAPPING_KEY : string := "mctiers_tier_mapping_v1".
Definition CHANNEL_NAME : string := "mctiers_channel".

Definition TIER_ORDER : list string :=
  ["LT5"; "HT5"; "LT4"; "HT4"; "LT3"; "HT3"; "LT2"; "HT2"; "LT1"; "HT1"].

Definition num (z : Z) : value := VNum (Fin z).

Definition mappingDefault : obj :=
  [("LT5", num 10); ("HT5", num 20); ("LT4", num 30); ("HT4", num 40);
   ("LT3", num 50); ("HT3", num 60); ("LT2", num 70); ("HT2", num 80);
   ("LT1", num 90); ("HT1", num 100)].

Definition player (rank : value) (name : value) (tier : value) (points : value) : value :=
  VObj [("rank", rank); ("name", name); ("tier", tier); ("points", points)].

Definition initialData : list value :=
  [ player (num 1) (VStr "XxPvPProxX") (VStr "HT1") (Get mappingDefault "HT1");
    player (num 2) (VStr "SharpBlade") (VStr "LT2") (Get mappingDefault "LT2");
    player (num 3) (VStr "NoobSlayer") (VStr "LT5") (Get mappingDefault "LT5") ].

(** ** The normalizer *)

Definition normalizePlayer (tierMapping : obj) (item : value) : res value :=
  t1 ← field item "tier";
  t2 ← or_else t1 (field item "Tier");
  t3 ← or_else t2 (field item "TIER");
  ts ← ToString (or_val t3 (VStr ""));
  let tierVal := trim ts in
  p ← field item "points";
  pointsProvided ←
    (if negb (nullish p) && negb (is_empty_string p)
     then n ← ToNumber p; Ok (Some n)
     else Ok None);
  let points :=
    match pointsProvided with
    | None | Some NaN => coalesce (Get tierMapping tierVal) (num 0)
    | Some n => VNum n
    end in
  r ← field item "rank";
  rn ← ToNumber r;
  n1 ← field item "name";
  n2 ← or_else n1 (field item "player");
  n3 ← or_else n2 (field item "username");
  nm ← ToString (or_val n3 (VStr "Unknown"));
  pn ← ToNumber points;
  Ok (player (or_val (VNum rn) (num 0))
             (VStr nm)
             (or_val (VStr tierVal) (VStr ""))
             (or_val (VNum pn) (num 0))).

(** ** CSV reading *)

Fixpoint splitCSVLine_from (line cur : string) (inQuotes : bool)
    (res : list string) : list string :=
  match line with
  | EmptyString => res ++ [cur]
  | String ch rest =>
      if Ascii.eqb ch DQ then
        match rest with
        | String ch2 rest2 =>
            if inQuotes && Ascii.eqb ch2 DQ
            then splitCSVLine_from rest2 (cur ++ str DQ) inQuotes res
            else splitCSVLine_from rest cur (negb inQuotes) res
        | EmptyString => splitCSVLine_from rest cur (negb inQuotes) res
        end
      else if Ascii.eqb ch "," && negb inQuotes then
        splitCSVLine_from rest "" inQuotes (res ++ [cur])
      else splitCSVLine_from rest (cur ++ str ch) inQuotes res
  end.

Definition splitCSVLine (line : string) : list string :=
  splitCSVLine_from line "" false [].

(** [text.split(/\r?\n/)] *)
Fixpoint split_lines_from (s cur : string) : list string :=
  match s with
  | EmptyString => [cur]
  | String c r =>
      if Ascii.eqb c LF then cur :: split_lines_from r ""
      else if Ascii.eqb c CR then
        match r with
        | String c2 r2 =>
            if Ascii.eqb c2 LF then cur :: split_lines_from r2 ""
            else split_lines_from r (cur ++ str c)
        | EmptyString => split_lines_from r (cur ++ str c)
        end
      else split_lines_from r (cur ++ str c)
  end.

Definition split_lines (s : string) : list string := split_lines_from s "".

(** [obj[h] = v] for a string [v]: assigning to [__proto__] goes to the
    inherited setter, which ignores a string and defines nothing. *)
Definition assign (o : obj) (h : string) (v : value) : obj :=
  if String.eqb h "__proto__" then o else obj_set o h v.

(** [headers.forEach((h, i) => obj[h] = vals[i] ?? "")] *)
Fixpoint fill_row (headers vals : list string) (o : obj) : obj :=
  match headers with
  | [] => o
  | h :: hs =>
      match vals with
      | [] => fill_row hs [] (assign o h (VStr ""))
      | v :: vs => fill_row hs vs (assign o h (VStr v))
      end
  end.

Definition parseCSV (text : string) : list obj :=
  let lines := filter (fun l => negb (is_empty (trim l))) (split_lines text) in
  match lines with
  | [] => []
  | first :: others =>
      let headers := map (fun h => toLowerCase (trim h)) (splitCSVLine first) in
      map (fun line => fill_row headers (splitCSVLine line) []) others
  end.

(** ** JSON, the host's parser and serializer on the modelled values *)

Module JSON.

Definition is_json_ws (c : ascii) : bool :=
  let n := nat_of_ascii c in ((n =? 32) || (n =? 9) || (n =? 10) || (n =? 13))%nat.

Fixpoint skip_ws (s : string) : string :=
  match s with
  | String c r => if is_json_ws c then skip_ws r else s
  | EmptyString => EmptyString
  end.

Definition is_digit (c : ascii) : bool :=
  let n := nat_of_ascii c in ((48 <=? n) && (n <=? 57))%nat.

Definition hex_val (c : ascii) : option nat :=
  let n := nat_of_ascii c in
  if ((48 <=? n) && (n <=? 57))%nat then Some (n - 48)
  else if ((97 <=? n) && (n <=? 102))%nat then Some (n - 87)
  else if ((65 <=? n) && (n <=? 70))%nat then Some (n - 55)
  else None.

Definition hex_digit (n : nat) : ascii :=
  if (n <? 10)%nat then ascii_of_nat (48 + n) else ascii_of_nat (87 + n).

(** The body of a string literal, after the opening quote.  An escape
    [\uXXXX] above 00FF has no 8-bit code unit and is refused. *)
Fixpoint parse_string_body (s acc : string) : option (string * string) :=
  match s with
  | EmptyString => None
  | String c r =>
      if Ascii.eqb c DQ then Some (acc, r)
      else if Ascii.eqb c "\" then
        match r with
        | EmptyString => None
        | String e r1 =>
            if Ascii.eqb e DQ then parse_string_body r1 (acc ++ str DQ)
            else if Ascii.eqb e "\" then parse_string_body r1 (acc ++ "\")
            else if Ascii.eqb e "/" then parse_string_body r1 (acc ++ "/")
            else if Ascii.eqb e "b" then parse_string_body r1 (acc ++ str "008")
            else if Ascii.eqb e "f" then parse_string_body r1 (acc ++ str "012")
            else if Ascii.eqb e "n" then parse_string_body r1 (acc ++ str "010")
            else if Ascii.eqb e "r" then parse_string_body r1 (acc ++ str "013")
            else if Ascii.eqb e "t" then parse_string_body r1 (acc ++ str "009")
            else if Ascii.eqb e "u" then
              match r1 with
              | String h1 (String h2 (String h3 (String h4 r2))) =>
                  match hex_val h1, hex_val h2, hex_val h3, hex_val h4 with
                  | Some 0, Some 0, Some a, Some b =>
                      parse_string_body r2 (acc ++ str (ascii_of_nat (16 * a + b)))
                  | _, _, _, _ => None
                  end
              | _ => None
              end
            else None
        end
      else if (nat_of_ascii c <? 32)%nat then None
      else parse_string_body r (acc ++ str c)
  end.

Fixpoint span_digits (s : string) : string * string :=
  match s with
  | String c r =>
      if is_digit c then let (d, rest) := span_digits r in (String c d, rest)
      else (EmptyString, s)
  | EmptyString => (EmptyString, EmptyString)
  end.

(** A number literal of the modelled fragment: an optional minus and a
    decimal integer without a leading zero; a fraction or an exponent
    after it is refused. *)
Definition parse_number (s : string) : option (value * string) :=
  let (neg, s1) :=
    match s with
    | String c r => if Ascii.eqb c "-" then (true, r) else (false, s)
    | EmptyString => (false, s)
    end in
  let (d, rest) := span_digits s1 in
  match d with
  | EmptyString => None
  | String c d' =>
      if Ascii.eqb c "0" && negb (is_empty d') then None
      else if match rest with
              | String x _ => Ascii.eqb x "." || Ascii.eqb x "e" || Ascii.eqb x "E"
              | EmptyString => false
              end then None
      else match digits d with
           | Some z => Some (VNum (Fin (if neg then - z else z)), rest)
           | None => None
           end
  end.

Fixpoint strip_prefix (p s : string) : option string :=
  match p, s with
  | EmptyString, _ => Some s
  | String c p', String d s' => if Ascii.eqb c d then strip_prefix p' s' else None
  | String _ _, EmptyString => None
  end.

Fixpoint parse_value (fuel : nat) (s : string) : option (value * string) :=
  match fuel with
  | O => None
  | S fuel' =>
      match skip_ws s with
      | EmptyString => None
      | String c r as t =>
          if Ascii.eqb c "{" then
            match skip_ws r with
            | String c' r' =>
                if Ascii.eqb c' "}" then Some (VObj [], r')
                else parse_members fuel' r []
            | EmptyString => None
            end
          else if Ascii.eqb c "[" then
            match skip_ws r with
            | String c' r' =>
                if Ascii.eqb c' "]" then Some (VArr [], r')
                else parse_elements fuel' r []
            | EmptyString => None
            end
          else if Ascii.eqb c DQ then
            match parse_string_body r "" with
            | Some (x, rest) => Some (VStr x, rest)
            | None => None
            end
          else if Ascii.eqb c "t" then
            option_map (fun rest => (VBool true, rest)) (strip_prefix "true" t)
          else if Ascii.eqb c "f" then
            option_map (fun rest => (VBool false, rest)) (strip_prefix "false" t)
          else if Ascii.eqb c "n" then
            option_map (fun rest => (VNull, rest)) (strip_prefix "null" t)
          else parse_number t
      end
  end
with parse_elements (fuel : nat) (s : string) (acc : list value)
    : option (value * string) :=
  match fuel with
  | O => None
  | S fuel' =>
      match parse_value fuel' s with
      | Some (v, r) =>
          match skip_ws r with
          | String c r' =>
              if Ascii.eqb c "," then parse_elements fuel' r' (acc ++ [v])
              else if Ascii.eqb c "]" then Some (VArr (acc ++ [v]), r')
              else None
          | EmptyString => None
          end
      | None => None
      end
  end
with parse_members (fuel : nat) (s : string) (acc : obj)
    : option (value * string) :=
  match fuel with
  | O => None
  | S fuel' =>
      match skip_ws s with
      | String c r =>
          if Ascii.eqb c DQ then
            match parse_string_body r "" with
            | Some (k, r1) =>
                match skip_ws r1 with
                | String c1 r2 =>
                    if Ascii.eqb c1 ":" then
                      match parse_value fuel' r2 with
                      | Some (v, r3) =>
                          match skip_ws r3 with
                          | String c3 r4 =>
                              if Ascii.eqb c3 "," then
                                parse_members fuel' r4 (obj_set acc k v)
                              else if Ascii.eqb c3 "}" then
                                Some (VObj (obj_set acc k v), r4)
                              else None
                          | EmptyString => None
                          end
                      | None => None
                      end
                    else None
                | EmptyString => None
                end
            | None => None
            end
          else None
      | EmptyString => None
      end
  end.

(** [JSON.parse(text)] *)
Definition parse (text : string) : res value :=
  match parse_value (2 * String.length text + 2) text with
  | Some (v, rest) =>
      if is_empty (skip_ws rest) then Ok v
      else Throw (SyntaxError "Unexpected non-whitespace character after JSON")
  | None => Throw (SyntaxError "Unexpected token in JSON")
  end.

(** [QuoteJSONString] *)
Definition quote_char (c : ascii) : string :=
  let n := nat_of_ascii c in
  if Ascii.eqb c DQ then String "\" (str DQ)
  else if Ascii.eqb c "\" then "\\"
  else if (n =? 8)%nat then "\b"
  else if (n =? 9)%nat then "\t"
  else if (n =? 10)%nat then "\n"
  else if (n =? 12)%nat then "\f"
  else if (n =? 13)%nat then "\r"
  else if (n <? 32)%nat then
    "\u00" ++ str (hex_digit (n / 16)) ++ str (hex_digit (n mod 16))
  else str c.

Fixpoint quote_body (s : string) : string :=
  match s with
  | EmptyString => EmptyString
  | String c r => quote_char c ++ quote_body r
  end.

Definition quote (s : string) : string :=
  String DQ (quote_body s ++ str DQ).

Fixpoint join_with (sep : string) (parts : list string) : string :=
  match parts with
  | [] => EmptyString
  | [p] => p
  | p :: rest => p ++ sep ++ join_with sep rest
  end.

(** The bracketed body of an array or object with its members already
    serialized. *)
Definition wrap (open close gap indent : string) (parts : list string) : string :=
  match parts with
  | [] => open ++ close
  | _ =>
      if is_empty gap then open ++ join_with "," parts ++ close
      else
        let inner := indent ++ gap in
        open ++ str LF ++ inner
             ++ join_with ("," ++ str LF ++ inner) parts
             ++ str LF ++ indent ++ close
  end.

(** [SerializeJSONProperty]: [None] stands for undefined. *)
Fixpoint serialize (gap indent : string) (v : value) : option string :=
  match v with
  | VUndefined | VBuiltin _ => None
  | VNull => Some "null"
  | VBool true => Some "true"
  | VBool false => Some "false"
  | VNum NaN => Some "null"
  | VNum (Fin z) => Some (NumberToString (Fin z))
  | VStr s => Some (quote s)
  | VArr l =>
      Some (wrap "[" "]" gap indent
              (map (fun x => match serialize gap (indent ++ gap) x with
                             | Some t => t
                             | None => "null"
                             end) l))
  | VObj o =>
      Some (wrap "{" "}" gap indent
              (omap (fun kv : string * value =>
                       let (k, x) := kv in
                       match serialize gap (indent ++ gap) x with
                       | Some t =>
                           Some (quote k ++ ":" ++ (if is_empty gap then "" else " ") ++ t)
                       | None => None
                       end) o))
  end.

(** [JSON.stringify(v, null, space)], converted to text the way
    [localStorage.setItem] and [Blob] convert it. *)
Definition stringify (v : value) (space : nat) : string :=
  match serialize (string_of_list_ascii (repeat " "%char space)) "" v with
  | Some t => t
  | None => "undefined"
  end.

End JSON.

(** ** Stateful code: a state and exception monad *)

Definition M (S A : Type) : Type := S -> res A * S.

#[global] Instance M_ret S : MRet (M S) := fun A a s => (Ok a, s).
#[global] Instance M_bind S : MBind (M S) :=
  fun A B f m s =>
    match m s with
    | (Ok a, s') => f a s'
    | (Throw e, s') => (Throw e, s')
    end.

Section Monad.
Context {S : Type}.

Definition lift {A} (r : res A) : M S A := fun s => (r, s).
Definition throw {A} (e : exn) : M S A := fun s => (Throw e, s).
Definition gets {A} (f : S -> A) : M S A := fun s => (Ok (f s), s).
Definition modify (f : S -> S) : M S unit := fun s => (Ok tt, f s).

(** [try { body } catch (e) { handler }] *)
Definition try_catch {A} (body : M S A) (handler : exn -> M S A) : M S A :=
  fun s =>
    match body s with
    | (Ok a, s') => (Ok a, s')
    | (Throw e, s') => handler e s'
    end.
End Monad.

Inductive signal :=
| PostMessage (type : string)      (* on the broadcast channel *)
| DispatchEvent (name : string).   (* on the window *)

Record File := { file_name : string; file_text : string }.

(** [arr[i] = x]: beyond the end the array grows, the gap reading as
    undefined. *)
Definition array_set (l : list value) (i : nat) (x : value) : list value :=
  if (i <? length l)%nat then <[i := x]> l
  else l ++ replicate (i - length l) VUndefined ++ [x].

(** [arr.splice(i, 1)] *)
Definition splice1 (l : list value) (i : nat) : list value :=
  take i l ++ drop (S i) l.

(** [arr.findIndex(pred)]; [None] stands for -1. *)
Fixpoint findIndex (pred : value -> res bool) (l : list value) : res (option nat) :=
  match l with
  | [] => Ok None
  | x :: rest =>
      b ← pred x;
      if (b : bool) then Ok (Some 0%nat)
      else i ← findIndex pred rest; Ok (option_map S i)
  end.

(** [arr.sort(comparefn)].  Undefined elements go last without the
    comparator being called; the others are sorted stably, a NaN from the
    comparator counting as 0.  The reference algorithm is insertion from
    the right end; every stable algorithm gives the same list when the
    comparator is consistent. *)
Section Sort.
Variable comparefn : value -> value -> res number.

Fixpoint sort_insert (x : value) (sorted : list value) : res (list value) :=
  match sorted with
  | [] => Ok [x]
  | y :: rest =>
      v ← comparefn x y;
      match v with
      | Fin z =>
          if (0 <? z)%Z then r ← sort_insert x rest; Ok (y :: r)
          else Ok (x :: sorted)
      | NaN => Ok (x :: sorted)
      end
  end.

Fixpoint sort_defined (l : list value) : res (list value) :=
  match l with
  | [] => Ok []
  | x :: rest => r ← sort_defined rest; sort_insert x r
  end.

Definition is_undefined (v : value) : bool :=
  match v with VUndefined => true | _ => false end.

Definition array_sort (l : list value) : res (list value) :=
  d ← sort_defined (filter (fun v => negb (is_undefined v)) l);
  Ok (app d (filter (fun v => is_undefined v) l)).
End Sort.

(** [a - b] *)
Definition subtract (a b : value) : res number :=
  x ← ToNumber a;
  y ← ToNumber b;
  match x, y with
  | Fin p, Fin q => Ok (Fin (p - q))
  | _, _ => Ok NaN
  end.

(** Spreading a value into an object literal: its own enumerable
    properties. *)
Fixpoint indexed_from (i : nat) (l : list value) : obj :=
  match l with
  | [] => []
  | x :: rest => (NumberToString (Fin (Z.of_nat i)), x) :: indexed_from (S i) rest
  end.

Fixpoint chars (s : string) : list value :=
  match s with
  | EmptyString => []
  | String c r => VStr (str c) :: chars r
  end.

Definition own_properties (v : value) : obj :=
  match v with
  | VObj o => o
  | VArr l => indexed_from 0 l
  | VStr s => indexed_from 0 (chars s)
  | _ => []
  end.

(** [{ ...a, ...b }] onto the properties [a] *)
Definition spread_onto (a : obj) (b : value) : obj :=
  fold_left (fun o kv => obj_set o (fst kv) (snd kv)) (own_properties b) a.

(** ** The HTML of a table cell *)

Fixpoint replace_char (c : ascii) (rep : string) (s : string) : string :=
  match s with
  | EmptyString => EmptyString
  | String d r => (if Ascii.eqb d c then rep else str d) ++ replace_char c rep r
  end.

(** The four replacements of [escapeHtml], in its order. *)
Definition escape_text (s : string) : string :=
  replace_char DQ "&quot;"
    (replace_char ">" "&gt;"
       (replace_char "<" "&lt;"
          (replace_char "&" "&amp;" s))).

Definition escapeHtml (v : value) : res string :=
  match v with
  | VUndefined | VNull => Ok ""
  | _ => s ← ToString v; Ok (escape_text s)
  end.

(** [textContent] of a cell whose markup is the text [s]: the parser
    turns CR LF and CR into LF, drops NUL and decodes character
    references.  Only the four references [escapeHtml] writes are decoded;
    every [&] of an escaped text begins one of them. *)
Fixpoint html_text_from (skip : nat) (s : string) : string :=
  match s with
  | EmptyString => EmptyString
  | String c r =>
      match skip with
      | S k => html_text_from k r
      | O =>
          if Ascii.eqb c "&" then
            if startsWith r "amp;" then String "&" (html_text_from 4 r)
            else if startsWith r "lt;" then String "<" (html_text_from 3 r)
            else if startsWith r "gt;" then String ">" (html_text_from 3 r)
            else if startsWith r "quot;" then String DQ (html_text_from 5 r)
            else String c (html_text_from 0 r)
          else if Ascii.eqb c CR then
            if startsWith r (str LF) then html_text_from 0 r
            else String LF (html_text_from 0 r)
          else if Ascii.eqb c NUL then html_text_from 0 r
          else String c (html_text_from 0 r)
      end
  end.

Definition html_text (s : string) : string := html_text_from 0 s.

(** [a < b], the abstract relational comparison. *)
Definition ToPrimitive (v : value) : res value :=
  match v with
  | VArr _ | VObj _ | VBuiltin _ => s ← ToString v; Ok (VStr s)
  | _ => Ok v
  end.

Definition less_than (a b : value) : res bool :=
  pa ← ToPrimitive a;
  pb ← ToPrimitive b;
  match pa, pb with
  | VStr x, VStr y => Ok (String.ltb x y)
  | _, _ =>
      x ← ToNumber pa;
      y ← ToNumber pb;
      match x, y with
      | Fin p, Fin q => Ok (p <? q)%Z
      | _, _ => Ok false
      end
  end.

(** [s.includes(q)] *)
Fixpoint includes (s q : string) : bool :=
  startsWith s q ||
  match s with
  | EmptyString => false
  | String _ r => includes r q
  end.

(** A rendered row: the text of its four cells. *)
Definition row : Type := string * string * string * string.

Inductive action := Edit | Delete.

Record form_fields := {
  pRank : string;
  pName : string;
  pTier : string;
  pPoints : string
}.

(** ** The editor (players.js)

    The page is taken to contain the elements the script looks up.  The
    text of the search box, the selected tier filter and the drawn table
    are part of the state; the inputs of the player form are handed to the
    submit handler, and the answer to each confirmation dialog to the
    action that asks. *)

Module Editor.

Record state := {
  localStorage : gmap string string;
  bc : bool;
  players : list value;
  tierMapping : obj;
  editingId : option nat;
  searchInput : string;
  tierFilter : string;
  sortState : string * bool;
  table : list row;
  console : list string;
  alerts : list string;
  signals : list signal;
  downloads : list File
}.

Definition set_localStorage (x : gmap string string) (s : state) : state :=
  {| localStorage := x; bc := bc s; players := players s; tierMapping := tierMapping s; editingId := editingId s; searchInput := searchInput s; tierFilter := tierFilter s; sortState := sortState s; table := table s; console := console s; alerts := alerts s; signals := signals s; downloads := downloads s |}.
Definition set_bc (x : bool) (s : state) : state :=
  {| localStorage := localStorage s; bc := x; players := players s; tierMapping := tierMapping s; editingId := editingId s; searchInput := searchInput s; tierFilter := tierFilter s; sortState := sortState s; table := table s; console := console s; alerts := alerts s; signals := signals s; downloads := downloads s |}.
Definition set_players (x : list value) (s : state) : state :=
  {| localStorage := localStorage s; bc := bc s; players := x; tierMapping := tierMapping s; editingId := editingId s; searchInput := searchInput s; tierFilter := tierFilter s; sortState := sortState s; table := table s; console := console s; alerts := alerts s; signals := signals s; downloads := downloads s |}.
Definition set_tierMapping (x : obj) (s : state) : state :=
  {| localStorage := localStorage s; bc := bc s; players := players s; tierMapping := x; editingId := editingId s; searchInput := searchInput s; tierFilter := tierFilter s; sortState := sortState s; table := table s; console := console s; alerts := alerts s; signals := signals s; downloads := downloads s |}.
Definition set_editingId (x : option nat) (s : state) : state :=
  {| localStorage := localStorage s; bc := bc s; players := players s; tierMapping := tierMapping s; editingId := x; searchInput := searchInput s; tierFilter := tierFilter s; sortState := sortState s; table := table s; console := console s; alerts := alerts s; signals := signals s; downloads := downloads s |}.
Definition set_searchInput (x : string) (s : state) : state :=
  {| localStorage := localStorage s; bc := bc s; players := players s; tierMapping := tierMapping s; editingId := editingId s; searchInput := x; tierFilter := tierFilter s; sortState := sortState s; table := table s; console := console s; alerts := alerts s; signals := signals s; downloads := downloads s |}.
Definition set_tierFilter (x : string) (s : state) : state :=
  {| localStorage := localStorage s; bc := bc s; players := players s; tierMapping := tierMapping s; editingId := editingId s; searchInput := searchInput s; tierFilter := x; sortState := sortState s; table := table s; console := console s; alerts := alerts s; signals := signals s; downloads := downloads s |}.
Definition set_sortState (x : string * bool) (s : state) : state :=
  {| localStorage := localStorage s; bc := bc s; players := players s; tierMapping := tierMapping s; editingId := editingId s; searchInput := searchInput s; tierFilter := tierFilter s; sortState := x; table := table s; console := console s; alerts := alerts s; signals := signals s; downloads := downloads s |}.
Definition set_table (x : list row) (s : state) : state :=
  {| localStorage := localStorage s; bc := bc s; players := players s; tierMapping := tierMapping s; editingId := editingId s; searchInput := searchInput s; tierFilter := tierFilter s; sortState := sortState s; table := x; console := console s; alerts := alerts s; signals := signals s; downloads := downloads s |}.
Definition set_console (x : list string) (s : state) : state :=
  {| localStorage := localStorage s; bc := bc s; players := players s; tierMapping := tierMapping s; editingId := editingId s; searchInput := searchInput s; tierFilter := tierFilter s; sortState := sortState s; table := table s; console := x; alerts := alerts s; signals := signals s; downloads := downloads s |}.
Definition set_alerts (x : list string) (s : state) : state :=
  {| localStorage := localStorage s; bc := bc s; players := players s; tierMapping := tierMapping s; editingId := editingId s; searchInput := searchInput s; tierFilter := tierFilter s; sortState := sortState s; table := table s; console := console s; alerts := x; signals := signals s; downloads := downloads s |}.
Definition set_signals (x : list signal) (s : state) : state :=
  {| localStorage := localStorage s; bc := bc s; players := players s; tierMapping := tierMapping s; editingId := editingId s; searchInput := searchInput s; tierFilter := tierFilter s; sortState := sortState s; table := table s; console := console s; alerts := alerts s; signals := x; downloads := downloads s |}.
Definition set_downloads (x : list File) (s : state) : state :=
  {| localStorage := localStorage s; bc := bc s; players := players s; tierMapping := tierMapping s; editingId := editingId s; searchInput := searchInput s; tierFilter := tierFilter s; sortState := sortState s; table := table s; console := console s; alerts := alerts s; signals := signals s; downloads := x |}.

Abbreviation M := (M state).

(** *** Storage helpers *)

Definition getItem (k : string) : M (option string) :=
  gets (fun s => localStorage s !! k).
Definition setItem (k v : string) : M unit :=
  modify (fun s => set_localStorage (<[k := v]> (localStorage s)) s).
Definition removeItem (k : string) : M unit :=
  modify (fun s => set_localStorage (delete k (localStorage s)) s).
Definition console_error (msg : string) : M unit :=
  modify (fun s => set_console (console s ++ [msg]) s).
Definition alert (msg : string) : M unit :=
  modify (fun s => set_alerts (alerts s ++ [msg]) s).
Definition emit (sg : signal) : M unit :=
  modify (fun s => set_signals (signals s ++ [sg]) s).

Definition loadPlayers : M (list value) :=
  try_catch
    (raw ← getItem STORAGE_KEY;
     match raw with
     | None | Some EmptyString =>
         setItem STORAGE_KEY (JSON.stringify (VArr initialData) 0);;
         mret initialData
     | Some raw =>
         parsed ← lift (JSON.parse raw);
         match parsed with
         | VArr l => mret l
         | _ => throw (Error "Invalid data")
         end
     end)
    (fun e =>
       console_error "Failed to load players:";;
       removeItem STORAGE_KEY;;
       setItem STORAGE_KEY (JSON.stringify (VArr initialData) 0);;
       mret initialData).

Definition savePlayers : M unit :=
  ps ← gets players;
  setItem STORAGE_KEY (JSON.stringify (VArr ps) 0);;
  has_bc ← gets bc;
  (if (has_bc : bool) then emit (PostMessage "players-updated") else mret tt);;
  emit (DispatchEvent "mctiers_players_updated").

Definition loadMapping : M obj :=
  try_catch
    (raw ← getItem MAPPING_KEY;
     match raw with
     | None | Some EmptyString =>
         setItem MAPPING_KEY (JSON.stringify (VObj mappingDefault) 0);;
         mret mappingDefault
     | Some raw =>
         parsed ← lift (JSON.parse raw);
         mret (spread_onto mappingDefault parsed)
     end)
    (fun e =>
       console_error "Failed to load mapping:";;
       removeItem MAPPING_KEY;;
       setItem MAPPING_KEY (JSON.stringify (VObj mappingDefault) 0);;
       mret mappingDefault).

Definition saveMapping : M unit :=
  tm ← gets tierMapping;
  setItem MAPPING_KEY (JSON.stringify (VObj tm) 0);;
  has_bc ← gets bc;
  (if (has_bc : bool) then emit (PostMessage "mapping-updated") else mret tt);;
  emit (DispatchEvent "mctiers_mapping_updated").

(** *** Rendering *)

(** [(p.tier || "").trim()]: only a string has [trim]. *)
Definition tier_label (p : value) : res string :=
  t ← field p "tier";
  match or_val t (VStr "") with
  | VStr s => Ok (trim s)
  | _ => Throw (TypeError "trim is not a function")
  end.

(** [populateTierFilter]: the options are replaced by the one option All
    tiers, which is then selected, before the tiers of the players are
    read and appended. *)
Definition populateTierFilter : M unit :=
  modify (set_tierFilter "");;
  ps ← gets players;
  _ ← lift (mapM tier_label ps);
  mret tt.

Definition cell (v : value) : res string :=
  s ← escapeHtml v; Ok (html_text s).

Definition render_row (p : value) : res row :=
  r ← field p "rank";   c0 ← cell r;
  n ← field p "name";   c1 ← cell n;
  t ← field p "tier";   c2 ← cell t;
  q ← field p "points"; c3 ← cell q;
  Ok (c0, c1, c2, c3).

(** [renderTable(list)]: the rows are appended one by one, so a row
    that throws leaves the rows before it drawn. *)
Fixpoint render_rows (l : list value) : M unit :=
  match l with
  | [] => mret tt
  | p :: rest =>
      r ← lift (render_row p);
      modify (fun s => set_table (table s ++ [r]) s);;
      render_rows rest
  end.

Definition renderTable (l : list value) : M unit :=
  modify (set_table []);;
  render_rows l.

Definition matches_search (q : string) (p : value) : res bool :=
  n ← field p "name"; sn ← ToString n;
  if includes (toLowerCase sn) q then Ok true else
  t ← field p "tier"; st ← ToString t;
  if includes (toLowerCase st) q then Ok true else
  x ← field p "points"; sx ← ToString x;
  if includes sx q then Ok true else
  r ← field p "rank"; sr ← ToString r;
  Ok (includes sr q).

Fixpoint filterM (pred : value -> res bool) (l : list value) : res (list value) :=
  match l with
  | [] => Ok []
  | x :: rest =>
      b ← pred x;
      r ← filterM pred rest;
      Ok (if (b : bool) then x :: r else r)
  end.

Definition view_compare (st : string * bool) (a b : value) : res number :=
  let (f, asc) := st in
  let dir := if asc then 1%Z else (-1)%Z in
  af ← field a f; bf ← field b f;
  lt ← less_than af bf;
  if (lt : bool) then Ok (Fin (-1 * dir)) else
  af' ← field a f; bf' ← field b f;
  gt ← less_than bf' af';
  if (gt : bool) then Ok (Fin (1 * dir)) else Ok (Fin 0).

Definition applyFiltersAndRender : M unit :=
  q ← gets (fun s => toLowerCase (trim (searchInput s)));
  tier ← gets tierFilter;
  ps ← gets players;
  l1 ← (if is_empty q then mret ps else lift (filterM (matches_search q) ps));
  l2 ← (if is_empty tier then mret l1
        else lift (filterM (fun p => t ← field p "tier";
                                     Ok (strict_eq_str (or_val t (VStr "")) tier)) l1));
  ss ← gets sortState;
  l3 ← lift (array_sort (view_compare ss) l2);
  renderTable l3.

(** *** Edit, add, delete *)

(** [index] is what [findIndex] returned: [None] is -1.  The form
    inputs that [startEdit] fills belong to the page. *)
Definition startEdit (index : option nat) : M unit :=
  match index with
  | None => mret tt
  | Some i => modify (set_editingId (Some i))
  end.

Definition doDelete (index : option nat) (confirmed : bool) : M unit :=
  match index with
  | None => mret tt
  | Some i =>
      if negb confirmed then mret tt else
      modify (fun s => set_players (splice1 (players s) i) s);;
      savePlayers;;
      populateTierFilter;;
      applyFiltersAndRender
  end.

Definition resetForm : M unit := modify (set_editingId None).

(** The predicate of [players.findIndex] in the click handler. *)
Definition same_content (rank : number) (name tier : string) (points : number)
    (p : value) : res bool :=
  r ← field p "rank";
  if negb (strict_eq_num r rank) then Ok false else
  n ← field p "name";
  if negb (strict_eq_str n name) then Ok false else
  t ← field p "tier";
  if negb (strict_eq_str t tier) then Ok false else
  q ← field p "points";
  Ok (strict_eq_num q points).

(** The click handler of the button [data-action], [data-idx] of a
    drawn row. *)
Definition click_row (act : action) (idx : nat) (confirmed : bool) : M unit :=
  rows ← gets table;
  match rows !! idx with
  | None => throw (TypeError "Cannot read properties of undefined")
  | Some (c0, c1, c2, c3) =>
      let rank := StringToNumber c0 in
      let name := c1 in
      let tier := c2 in
      let points := StringToNumber c3 in
      ps ← gets players;
      realIndex ← lift (findIndex (same_content rank name tier points) ps);
      match act with
      | Edit => startEdit realIndex
      | Delete => doDelete realIndex confirmed
      end
  end.

(** *** Import and export *)

Definition csv_record (r : obj) : value :=
  player (coalesce (coalesce (Get r "rank") (Get r "Rank")) (Get r "RANK"))
         (coalesce (coalesce (coalesce (Get r "name") (Get r "Name")) (Get r "NAME"))
                   (Get r "player"))
         (coalesce (coalesce (Get r "tier") (Get r "Tier")) (Get r "TIER"))
         (coalesce (coalesce (coalesce (Get r "points") (Get r "Points")) (Get r "POINTS"))
                   (Get r "score")).

(** The [onload] handler of the reader, with the text read. *)
Definition importDataFromFile (file : option File) : M unit :=
  match file with
  | None => mret tt
  | Some f =>
      try_catch
        (let txt := file_text f in
         tm ← gets tierMapping;
         (if endsWith (toLowerCase (file_name f)) ".json" then
            data ← lift (JSON.parse txt);
            match data with
            | VArr l =>
                ps ← lift (mapM (normalizePlayer tm) l);
                modify (set_players ps)
            | _ => throw (Error "JSON must be an array")
            end
          else
            let rows := parseCSV txt in
            normalized ← lift (mapM (fun r => normalizePlayer tm (csv_record r)) rows);
            modify (set_players normalized));;
         savePlayers;;
         populateTierFilter;;
         applyFiltersAndRender;;
         alert "Import successful. The list was replaced with the imported data.")
        (fun err =>
           console_error "Import error:";;
           alert "Failed to import file. See console for details.")
  end.

Definition downloadJSON (filename : string) : M unit :=
  ps ← gets players;
  let data := JSON.stringify (VArr ps) 2 in
  modify (fun s => set_downloads (downloads s ++ [{| file_name := filename; file_text := data |}]) s).

(** *** Mapping actions *)

(** [{ ...p, points: Number(tierMapping[p.tier] ?? 0) }] *)
Definition with_mapped_points (tm : obj) (p : value) : res value :=
  let copy := spread_onto [] p in
  t ← field p "tier";
  k ← ToString t;
  n ← ToNumber (coalesce (Get tm k) (num 0));
  Ok (VObj (obj_set copy "points" (VNum n))).

Definition applyMappingToAllPlayers (confirmed : bool) : M unit :=
  if negb confirmed then mret tt else
  tm ← gets tierMapping;
  ps ← gets players;
  ps' ← lift (mapM (with_mapped_points tm) ps);
  modify (set_players ps');;
  savePlayers;;
  applyFiltersAndRender;;
  alert "Applied mapping to all players.".

Definition applyMappingToEmptyPlayers : M unit :=
  tm ← gets tierMapping;
  ps ← gets players;
  ps' ← lift (mapM (fun p => q ← field p "points";
                             if truthy q then Ok p else with_mapped_points tm p) ps);
  modify (set_players ps');;
  savePlayers;;
  applyFiltersAndRender;;
  alert "Applied mapping to players with empty/zero points.".

Definition resetMappingToDefault (confirmed : bool) : M unit :=
  if negb confirmed then mret tt else
  modify (set_tierMapping mappingDefault);;
  saveMapping;;
  alert "Mapping reset to defaults.".

(** *** The handlers wired at load *)

Definition clear_all (confirmed : bool) : M unit :=
  if negb confirmed then mret tt else
  modify (set_players []);;
  savePlayers;;
  populateTierFilter;;
  applyFiltersAndRender.

(** [(a, b) => (a.rank || 0) - (b.rank || 0)] *)
Definition by_rank (a b : value) : res number :=
  ra ← field a "rank";
  rb ← field b "rank";
  subtract (or_val ra (num 0)) (or_val rb (num 0)).

(** The submit handler of the player form. *)
Definition submit (f : form_fields) : M unit :=
  tm ← gets tierMapping;
  let tierInput := trim (pTier f) in
  let pointsInputRaw := pPoints f in
  let pointsInput :=
    if is_empty pointsInputRaw then None else Some (StringToNumber pointsInputRaw) in
  let raw :=
    player (or_val (VNum (StringToNumber (pRank f))) (num 0))
           (VStr (trim (pName f)))
           (VStr tierInput)
           (match pointsInput with
            | None => coalesce (Get tm tierInput) (num 0)
            | Some n => VNum n
            end) in
  if is_empty (trim (pName f)) then alert "Player name is required." else
  eid ← gets editingId;
  match eid with
  | None =>
      p ← lift (normalizePlayer tm raw);
      modify (fun s => set_players (players s ++ [p]) s)
  | Some i =>
      p ← lift (normalizePlayer tm raw);
      modify (fun s => set_players (array_set (players s) i p) s);;
      modify (set_editingId None)
  end;;
  ps ← gets players;
  sorted ← lift (array_sort by_rank ps);
  modify (set_players sorted);;
  savePlayers;;
  populateTierFilter;;
  applyFiltersAndRender.

(** The page load: both entities are read and the table is drawn. *)
Definition init : M unit :=
  ps ← loadPlayers;
  modify (set_players ps);;
  tm ← loadMapping;
  modify (set_tierMapping tm);;
  populateTierFilter;;
  applyFiltersAndRender.

End Editor.

(** ** The read-only viewer (players-view.js) *)

Module Viewer.

Record state := {
  localStorage : gmap string string;
  players : list value;
  tierMapping : value;
  console : list string
}.

Definition set_console (x : list string) (s : state) : state :=
  {| localStorage := localStorage s; players := players s;
     tierMapping := tierMapping s; console := x |}.
Definition set_players (x : list value) (s : state) : state :=
  {| localStorage := localStorage s; players := x;
     tierMapping := tierMapping s; console := console s |}.
Definition set_tierMapping (x : value) (s : state) : state :=
  {| localStorage := localStorage s; players := players s;
     tierMapping := x; console := console s |}.

Abbreviation M := (M state).

Definition getItem (k : string) : M (option string) :=
  gets (fun s => localStorage s !! k).
Definition console_error (msg : string) : M unit :=
  modify (fun s => set_console (console s ++ [msg]) s).

Definition loadPlayers : M (list value) :=
  try_catch
    (raw ← getItem STORAGE_KEY;
     match raw with
     | None | Some EmptyString => mret []
     | Some raw =>
         parsed ← lift (JSON.parse raw);
         match parsed with
         | VArr l => mret l
         | _ => mret []
         end
     end)
    (fun e => console_error "players-view: failed reading players:";; mret []).

(** [parsed && typeof parsed === 'object' ? parsed : {}] *)
Definition loadMapping : M value :=
  try_catch
    (raw ← getItem MAPPING_KEY;
     match raw with
     | None | Some EmptyString => mret (VObj [])
     | Some raw =>
         parsed ← lift (JSON.parse raw);
         match parsed with
         | VObj _ | VArr _ => mret parsed
         | _ => mret (VObj [])
         end
     end)
    (fun e => console_error "players-view: failed reading mapping:";; mret (VObj [])).

Definition reloadFromStorage : M unit :=
  ps ← loadPlayers;
  modify (set_players ps);;
  tm ← loadMapping;
  modify (set_tierMapping tm).

End Viewer.

(** ** Texts the embedding reads as the host does *)

(** The embedding holds integers only, so a statement that follows a text
    into a number is made for the texts below, where [StringToNumber] and
    [JSON.parse] give what the host's [Number] and [JSON.parse] give. *)

Fixpoint all_chars (p : ascii -> bool) (s : string) : bool :=
  match s with
  | EmptyString => true
  | String c r => p c && all_chars p r
  end.

Definition between (lo hi : nat) (c : ascii) : bool :=
  ((lo <=? nat_of_ascii c) && (nat_of_ascii c <=? hi))%nat.

Definition is_hex (c : ascii) : bool :=
  between 48 57 c || between 97 102 c || between 65 70 c.

(** The text after an optional sign. *)
Definition unsigned_text (s : string) : string :=
  match s with
  | String c r => if Ascii.eqb c "-" || Ascii.eqb c "+" then r else s
  | EmptyString => s
  end.

(** An optionally signed run of one to fifteen decimal digits: an integer
    that every double holds exactly. *)
Definition integer_text (t : string) : bool :=
  let d := unsigned_text t in
  negb (is_empty d) && all_chars JSON.is_digit d && (String.length d <=? 15)%nat.

(** [ExponentPart], or nothing. *)
Definition exponent_text (r : string) : bool :=
  match r with
  | EmptyString => true
  | String c r1 =>
      (Ascii.eqb c "e" || Ascii.eqb c "E") &&
      negb (is_empty (unsigned_text r1)) && all_chars JSON.is_digit (unsigned_text r1)
  end.

(** [StrUnsignedDecimalLiteral] other than [Infinity]: digits, then
    optionally a point and digits, or a point and digits alone, then
    optionally an exponent. *)
Definition decimal_text (u : string) : bool :=
  let (d1, r1) := JSON.span_digits u in
  match r1 with
  | String c r2 =>
      if Ascii.eqb c "." then
        let (d2, r3) := JSON.span_digits r2 in
        (negb (is_empty d1) || negb (is_empty d2)) && exponent_text r3
      else negb (is_empty d1) && exponent_text r1
  | EmptyString => negb (is_empty d1)
  end.

(** [NonDecimalIntegerLiteral]: 0x, 0o or 0b and digits of that radix. *)
Definition radix_text (t : string) : bool :=
  match t with
  | String z (String x r) =>
      Ascii.eqb z "0" && negb (is_empty r) &&
      (if Ascii.eqb x "x" || Ascii.eqb x "X" then all_chars is_hex r
       else if Ascii.eqb x "o" || Ascii.eqb x "O" then all_chars (between 48 55) r
       else if Ascii.eqb x "b" || Ascii.eqb x "B" then all_chars (between 48 49) r
       else false)
  | _ => false
  end.

(** [StringNumericLiteral] without the white space around it: the texts
    the host's [Number] reads as a number, all others being NaN. *)
Definition numeric_text (t : string) : bool :=
  is_empty t || radix_text t ||
  String.eqb (unsigned_text t) "Infinity" || decimal_text (unsigned_text t).

(** A text [Number] reads as [StringToNumber] does: once trimmed it is
    empty (0), or an integer of at most fifteen digits, or no numeric
    literal of the host at all (NaN).  Fractions, exponents, radix
    prefixes, the infinities and longer integers are left out. *)
Definition exact_number_text (s : string) : bool :=
  is_empty (trim s) || integer_text (trim s) || negb (numeric_text (trim s)).


(** A JSON text in the part the embedding parses as the host does:
    outside the string literals no digit is followed by a point or an
    exponent and no run of digits is longer than fifteen; inside them no
    [\u] escape is above 00FF.  [run] counts the digits just read. *)
Fixpoint exact_json_from (in_string : bool) (run : nat) (s : string) : bool :=
  match s with
  | EmptyString => true
  | String c r =>
      if in_string then
        if Ascii.eqb c "\" then
          match r with
          | String e r1 =>
              if Ascii.eqb e "u" then
                match r1 with
                | String h1 (String h2 r2) =>
                    Ascii.eqb h1 "0" && Ascii.eqb h2 "0" && exact_json_from true 0 r2
                | _ => true
                end
              else exact_json_from true 0 r1
          | EmptyString => true
          end
        else if Ascii.eqb c DQ then exact_json_from false 0 r
        else exact_json_from true 0 r
      else if Ascii.eqb c DQ then exact_json_from true 0 r
      else if JSON.is_digit c then (run <? 15)%nat && exact_json_from false (S run) r
      else if (0 <? run)%nat
              && (Ascii.eqb c "." || Ascii.eqb c "e" || Ascii.eqb c "E") then false
      else exact_json_from false 0 r
  end.

Definition exact_json (text : string) : bool := exact_json_from false 0 text.

(** ** Vocabulary of the statements *)




Definition name_of (y : value) : option string :=
  match y with
  | VObj o => match obj_get o "name" with Some (VStr t) => Some t | _ => None end
  | _ => None
  end.





(** A record as the normalizer produces it. *)
Definition is_record (v : value) : Prop :=
  exists r n t p, v = player (num r) (VStr n) (VStr t) (num p).

(** A CSV field written between quotes, its quotes doubled. *)
Definition csv_quote (s : string) : string :=
  String DQ (replace_char DQ (String DQ (str DQ)) s ++ str DQ).

(** A text the HTML parser hands back unchanged once escaped: it has
    neither CR nor NUL. *)
Fixpoint html_safe (s : string) : bool :=
  match s with
  | EmptyString => true
  | String c r => negb (Ascii.eqb c CR) && negb (Ascii.eqb c NUL) && html_safe r
  end.

(** The row a record is drawn as. *)
Definition row_of (r : Z) (n t : string) (p : Z) : row :=
  (NumberToString (Fin r), n, t, NumberToString (Fin p)).

(** The text does not begin with a quote. *)
Definition not_quote_first (s : string) : Prop :=
  match s with
  | String c _ => Ascii.eqb c DQ = false
  | EmptyString => True
  end.


(** What [escapeHtml] writes for one character. *)
Definition escape_char (c : ascii) : string :=
  if Ascii.eqb c "&" then "&amp;"
  else if Ascii.eqb c "<" then "&lt;"
  else if Ascii.eqb c ">" then "&gt;"
  else if Ascii.eqb c DQ then "&quot;"
  else str c.

(** A value that is neither an object nor an array. *)
Definition plain (v : value) : Prop :=
  match v with
  | VObj _ | VArr _ => False
  | _ => True
  end.

(** The state after [savePlayers]. *)
Definition players_saved (s : Editor.state) : Editor.state :=
  Editor.set_signals
    (Editor.signals s
       ++ (if Editor.bc s then [PostMessage "players-updated"] else [])
       ++ [DispatchEvent "mctiers_players_updated"])
    (Editor.set_localStorage
       (<[STORAGE_KEY := JSON.stringify (VArr (Editor.players s)) 0]> (Editor.localStorage s)) s).

(** [s'] differs from [s] in what is drawn only: the table and the
    selected tier filter. *)
Definition view_only (s s' : Editor.state) : Prop :=
  exists tf tb, s' = Editor.set_tierFilter tf (Editor.set_table tb s).

Definition import_success_alert : string :=
  "Import successful. The list was replaced with the imported data.".

(** The file is read as JSON: its name ends in [.json], in any case. *)
Definition is_json_name (f : File) : bool :=
  endsWith (toLowerCase (file_name f)) ".json".


(** The text opens, after white space, with the bracket every JSON array
    opens with. *)
Definition starts_array (text : string) : bool :=
  match JSON.skip_ws text with
  | String c _ => Ascii.eqb c "["
  | EmptyString => false
  end.

(** The text opens, after white space, with the brace every JSON object
    opens with. *)
Definition starts_object (text : string) : bool :=
  match JSON.skip_ws text with
  | String c _ => Ascii.eqb c "{"
  | EmptyString => false
  end.


(** A page just opened on an empty store. *)
Definition blank : Editor.state :=
  {| Editor.localStorage := ∅; Editor.bc := true; Editor.players := [];
     Editor.tierMapping := mappingDefault; Editor.editingId := None;
     Editor.searchInput := ""; Editor.tierFilter := "";
     Editor.sortState := ("rank", true); Editor.table := [];
     Editor.console := []; Editor.alerts := []; Editor.signals := [];
     Editor.downloads := [] |}.

(** The CSV file of the scenario: the header, then a row whose name
    field is written between quotes, with a comma and doubled quotes
    inside. *)
Definition quoted (s : string) : string := String DQ (s ++ str DQ).

Definition csv_example : File :=
  {| file_name := "players.csv";
     file_text := "rank,name,tier,points" ++ str LF
                  ++ "1," ++ quoted ("Smith, " ++ quoted (quoted "The Rock"))
                  ++ ",HT1,100" |}.

(** Smith, "The Rock" *)
Definition csv_example_name : string := "Smith, " ++ quoted "The Rock".

(** The stored text gives no list: nothing is stored, or the empty text,
    or a text that does not open as an array, or an exact text that does
    not parse to an array. *)
Definition no_list (raw : option string) : Prop :=
  match raw with
  | None => True
  | Some r =>
      r = "" \/ starts_array r = false \/
      (exact_json r = true /\ forall l, JSON.parse r <> Ok (VArr l))
  end.



(** The text {"LT5":10} *)
Definition LT5_only : string := "{" ++ quoted "LT5" ++ ":10}".

Definition editor_with (store : gmap string string) : Editor.state :=
  Editor.set_localStorage store blank.

Definition viewer_with (store : gmap string string) : Viewer.state :=
  {| Viewer.localStorage := store; Viewer.players := [];
     Viewer.tierMapping := VObj []; Viewer.console := [] |}.

(** A record with a tier: an object whose [tier] is a string. *)
Definition tiered (p : value) : Prop :=
  exists o t, p = VObj o /\ NoDup (map fst o) /\ obj_get o "tier" = Some (VStr t).

(** Every value of the mapping is a number. *)
Definition mapping_numeric (tm : obj) : Prop :=
  forall k v, obj_get tm k = Some v -> exists n, v = VNum n.

(** [q] is the record [p] with its points set from the mapping: every
    other property of [q] reads as in [p], and its points are the number
    the mapping holds for the tier of [p]; when the mapping holds nothing
    for the tier they are 0, unless the tier is the name of a member every
    object inherits, which is then what is read and converts to NaN. *)
Definition mapped (tm : obj) (p q : value) : Prop :=
  exists o t o' n,
    p = VObj o /\ obj_get o "tier" = Some (VStr t) /\
    q = VObj o' /\
    (forall k, k <> "points" -> obj_get o' k = obj_get o k) /\
    obj_get o' "points" = Some (VNum n) /\
    (forall v, obj_get tm t = Some v -> v = VNum n) /\
    (obj_get tm t = None -> n = if inherited t then NaN else Fin 0).

(** A list with a record whose tier is the text constructor, and one
    without points whose tier is the text toString. *)
Definition inherited_tiers : Editor.state :=
  Editor.set_players
    [player (num 1) (VStr "Ann") (VStr "constructor") (num 5);
     player (num 2) (VStr "Bob") (VStr "toString") (num 0)] blank.

(** The points of the record are neither zero nor empty. *)
Definition has_points (p : value) : bool :=
  match p with
  | VObj o => truthy (Get o "points")
  | _ => false
  end.








(** A list with two equal records around a third, and its table drawn. *)
Definition twins : Editor.state :=
  snd (Editor.applyFiltersAndRender
         (Editor.set_players
            [player (num 1) (VStr "Ann") (VStr "HT1") (num 100);
             player (num 2) (VStr "Bob") (VStr "LT2") (num 70);
             player (num 1) (VStr "Ann") (VStr "HT1") (num 100)] blank)).




(** The values a JSON text can hold: no undefined, no NaN, objects with
    distinct keys. *)
Inductive json_clean : value -> Prop :=
| clean_null : json_clean VNull
| clean_bool (b : bool) : json_clean (VBool b)
| clean_num (z : Z) : json_clean (VNum (Fin z))
| clean_str (s : string) : json_clean (VStr s)
| clean_arr (l : list value) : Forall json_clean l -> json_clean (VArr l)
| clean_obj (o : obj) :
    NoDup (map fst o) -> Forall (fun kv => json_clean (snd kv)) o ->
    json_clean (VObj o).

Fixpoint vsize (v : value) : nat :=
  match v with
  | VArr l => S (list_sum (map vsize l))
  | VObj o => S (list_sum (map (fun kv => vsize (snd kv)) o))
  | _ => 1
  end.

(** The text a value is serialized to. *)
Definition text (gap indent : string) (v : value) : string :=
  match JSON.serialize gap indent v with
  | Some t => t
  | None => "null"
  end.

Fixpoint all_spaces (s : string) : bool :=
  match s with
  | EmptyString => true
  | String c r => Ascii.eqb c " " && all_spaces r
  end.

Fixpoint all_ws (s : string) : bool :=
  match s with
  | EmptyString => true
  | String c r => JSON.is_json_ws c && all_ws r
  end.

(** What may follow a value in a text: not a character a number literal
    would go on with. *)
Definition ends_value (rest : string) : Prop :=
  match rest with
  | EmptyString => True
  | String c _ =>
      JSON.is_digit c = false /\
      Ascii.eqb c "." = false /\ Ascii.eqb c "e" = false /\ Ascii.eqb c "E" = false
  end.

(** The white space written before each member and before the closing
    bracket, at a given indentation. *)
Definition before_member (gap indent : string) : string :=
  if is_empty gap then "" else str LF ++ indent ++ gap.

Definition before_close (gap indent : string) : string :=
  if is_empty gap then "" else str LF ++ indent.

(** A character a value begins with. *)
Definition token_start (c : ascii) : Prop :=
  JSON.is_json_ws c = false /\ Ascii.eqb c "]" = false /\ Ascii.eqb c "}" = false.

(** Parsing gives back every clean value of size at most [n] from its
    text, whatever follows it. *)
Definition roundtrip_at (gap : string) (n : nat) : Prop :=
  forall v : value, (vsize v <= n)%nat -> json_clean v ->
  forall (indent rest : string) (fuel : nat),
    all_spaces indent = true -> ends_value rest ->
    (2 * String.length (text gap indent v ++ rest) + 2 <= fuel)%nat ->
    JSON.parse_value fuel (text gap indent v ++ rest) = Some (v, rest).

(** The text of one member of an object: its key, a colon and its value. *)
Definition member_text (gap indent : string) (kv : string * value) : string :=
  JSON.quote (fst kv) ++ ":" ++ (if is_empty gap then "" else " ")
    ++ text gap (indent ++ gap) (snd kv).






(** * Vocabulary of the further properties *)

(** The state after [saveMapping]. *)
Definition mapping_saved (s : Editor.state) : Editor.state :=
  Editor.set_signals
    (Editor.signals s
       ++ (if Editor.bc s then [PostMessage "mapping-updated"] else [])
       ++ [DispatchEvent "mctiers_mapping_updated"])
    (Editor.set_localStorage
       (<[MAPPING_KEY := JSON.stringify (VObj (Editor.tierMapping s)) 0]>
          (Editor.localStorage s)) s).

(** The text has none of the characters that open or close markup or end
    an attribute value. *)
Fixpoint markup_free (s : string) : bool :=
  match s with
  | EmptyString => true
  | String c r =>
      negb (Ascii.eqb c "<") && negb (Ascii.eqb c ">") && negb (Ascii.eqb c DQ)
      && markup_free r
  end.

(** The points the mapping gives a tier: its number, and 0 when it holds
    none for it. *)
Definition mapping_points (tm : obj) (t : string) : Z :=
  match obj_get tm t with
  | Some (VNum (Fin z)) => z
  | _ => 0%Z
  end.

(** The lines of a text that [parseCSV] keeps: those with something other
    than white space. *)
Definition nonblank_lines (text : string) : list string :=
  filter (fun l => negb (is_empty (trim l))) (split_lines text).

(** The text with every line feed written as carriage return, line feed. *)
Definition crlf (s : string) : string := replace_char LF (String CR (str LF)) s.

Fixpoint no_cr (s : string) : bool :=
  match s with
  | EmptyString => true
  | String c r => negb (Ascii.eqb c CR) && no_cr r
  end.

(** A CSV text with headers in capitals and with spaces. *)
Definition csv_capitals : string :=
  "RANK, Name ,Score" ++ str LF ++ "1,Bob,5".

(** What the search text [q] finds, and what the tier filter [tier]
    keeps; a record is drawn when both let it through, an empty search
    and an empty filter letting everything through. *)
Definition search_hit (q : string) (p : value) : bool :=
  match p with
  | VObj o =>
      match Get o "name", Get o "tier", Get o "points", Get o "rank" with
      | VStr n, VStr t, VNum pts, VNum r =>
          includes (toLowerCase n) q || includes (toLowerCase t) q
          || includes (NumberToString pts) q || includes (NumberToString r) q
      | _, _, _, _ => false
      end
  | _ => false
  end.

Definition tier_hit (tier : string) (p : value) : bool :=
  match p with
  | VObj o => match Get o "tier" with VStr t => String.eqb t tier | _ => false end
  | _ => false
  end.

Definition visible (q tier : string) (p : value) : bool :=
  (is_empty q || search_hit q p) && (is_empty tier || tier_hit tier p).

(** [a] is not after [b] in the column [f]: numbers by value, texts by
    code units; values that do not compare are in no order. *)
Definition column_le (f : string) (a b : value) : Prop :=
  match field a f, field b f with
  | Ok (VNum (Fin x)), Ok (VNum (Fin y)) => (x <= y)%Z
  | Ok (VStr x), Ok (VStr y) => String.leb x y = true
  | _, _ => True
  end.

(** The order a sort state asks for: the column, up or down. *)
Definition sorted_as (ss : string * bool) (a b : value) : Prop :=
  if snd ss then column_le (fst ss) a b else column_le (fst ss) b a.

(** ** More of the editor's page (players.js) *)

Module Page.

(** The click handler of a column header [th[data-sort]], [field] being
    the value of its [data-sort] attribute.  In the sort state [true]
    stands for ['asc']. *)
Definition click_sort_header (field : string) : Editor.M unit :=
  ss ← gets Editor.sortState;
  (if String.eqb (fst ss) field
   then modify (Editor.set_sortState (fst ss, negb (snd ss)))
   else modify (Editor.set_sortState (field, true)));;
  Editor.applyFiltersAndRender.

End Page.


(** ** The tiers offered by the filter (both scripts) *)

(** [new Set(list)] as [Array.from] lists it: the first occurrence of
    each text, in order. *)
Fixpoint dedup_from (seen l : list string) : list string :=
  match l with
  | [] => []
  | x :: rest =>
      if existsb (String.eqb x) seen then dedup_from seen rest
      else x :: dedup_from (x :: seen) rest
  end.

(** [list.indexOf(t)]; [None] stands for -1. *)
Fixpoint indexOf (l : list string) (t : string) : option nat :=
  match l with
  | [] => None
  | x :: rest => if String.eqb x t then Some 0%nat else option_map S (indexOf rest t)
  end.

Section Collation.
(** [a.localeCompare(b)] is the host's: a number below, at or above 0. *)
Variable localeCompare : string -> string -> Z.

(** The comparator of [getUniqueTiers].  The list sorted holds texts
    only; on another value [indexOf] finds nothing and the call of
    [localeCompare] on it throws. *)
Definition tier_compare (a b : value) : res number :=
  let ia := match a with VStr x => indexOf TIER_ORDER x | _ => None end in
  let ib := match b with VStr y => indexOf TIER_ORDER y | _ => None end in
  match ia, ib with
  | Some i, Some j => Ok (Fin (Z.of_nat i - Z.of_nat j))
  | Some _, None => Ok (Fin (-1))
  | None, Some _ => Ok (Fin 1)
  | None, None =>
      match a with
      | VStr x => y ← ToString b; Ok (Fin (localeCompare x y))
      | _ => Throw (TypeError "a.localeCompare is not a function")
      end
  end.

Definition getUniqueTiers (players : list value) : res (list value) :=
  labels ← mapM Editor.tier_label players;
  let s := dedup_from [] (filter (fun t => negb (is_empty t)) labels ++ TIER_ORDER) in
  array_sort tier_compare (map VStr (filter (fun t => negb (is_empty t)) s)).
End Collation.

(** The order the comparator puts tier labels in: the canonical ones
    first, by their place in [TIER_ORDER]. *)
Definition tier_before (a b : value) : Prop :=
  match a, b with
  | VStr x, VStr y =>
      match indexOf TIER_ORDER x, indexOf TIER_ORDER y with
      | Some i, Some j => (i <= j)%nat
      | Some _, None => True
      | None, Some _ => False
      | None, None => True
      end
  | _, _ => True
  end.

Definition canonical_le (x y : string) : Prop :=
  match indexOf TIER_ORDER x, indexOf TIER_ORDER y with
  | Some i, Some j => (i <= j)%nat
  | _, _ => x = y
  end.

Definition is_canonical (t : string) : bool :=
  match indexOf TIER_ORDER t with Some _ => true | None => false end.

(** Players of whom one has a tier of his own, written with spaces. *)
Definition custom_tier : list value :=
  [player (num 1) (VStr "Ann") (VStr "HT1") (num 100);
   player (num 2) (VStr "Bob") (VStr " Elite ") (num 5);
   player (num 3) (VStr "Cid") (VStr "") (num 0)].

(** ** The mapping grid of the editor (players.js) *)

(** The exponent part of a valid floating-point number, or nothing. *)
Definition exponent_ok (r : string) : bool :=
  match r with
  | EmptyString => true
  | String c r1 =>
      if Ascii.eqb c "e" || Ascii.eqb c "E" then
        let r2 := match r1 with
                  | String s r' => if Ascii.eqb s "-" || Ascii.eqb s "+" then r' else r1
                  | EmptyString => r1
                  end in
        let (d, rest) := JSON.span_digits r2 in
        negb (is_empty d) && is_empty rest
      else false
  end.

(** A valid floating-point number of HTML: an optional minus, then digits
    or a point and digits or both, then an optional exponent. *)
Definition valid_float (s : string) : bool :=
  let u := match s with
           | String c r => if Ascii.eqb c "-" then r else s
           | EmptyString => s
           end in
  let (d1, r1) := JSON.span_digits u in
  match r1 with
  | String c r2 =>
      if Ascii.eqb c "." then
        let (d2, r3) := JSON.span_digits r2 in
        negb (is_empty d2) && exponent_ok r3
      else negb (is_empty d1) && exponent_ok r1
  | EmptyString => negb (is_empty d1)
  end.

(** [input.value = v] on an [input type=number]: null is the empty text,
    any other value its text; a text that is not a valid floating-point
    number is replaced by the empty text. *)
Definition number_input_value (v : value) : res string :=
  s ← match v with VNull => Ok "" | _ => ToString v end;
  Ok (if valid_float s then s else "").

(** [Number(inp.value) || 0] *)
Definition grid_number (v : string) : value :=
  or_val (VNum (StringToNumber v)) (num 0).

Module MappingUI.

(** The page with its mapping grid: the [data-tier] and the value of each
    input, in document order. *)
Record ui_state := {
  page : Editor.state;
  mappingGrid : list (string * string)
}.

Definition set_page (x : Editor.state) (s : ui_state) : ui_state :=
  {| page := x; mappingGrid := mappingGrid s |}.
Definition set_mappingGrid (x : list (string * string)) (s : ui_state) : ui_state :=
  {| page := page s; mappingGrid := x |}.

Abbreviation UI := (M ui_state).

(** A handler of the page, run on the page with its grid. *)
Definition on_page {A} (m : Editor.M A) : UI A :=
  fun s => let (r, p) := m (page s) in (r, set_page p s).

(** The inputs are appended one by one, so a value that throws leaves
    the inputs before it in the grid. *)
Fixpoint fill_grid (tm : obj) (tiers : list string) : UI unit :=
  match tiers with
  | [] => mret tt
  | t :: rest =>
      let x := Get tm t in
      let v := if is_undefined x then or_val (Get mappingDefault t) (num 0) else x in
      text ← lift (number_input_value v);
      modify (fun s => set_mappingGrid (mappingGrid s ++ [(t, text)]) s);;
      fill_grid tm rest
  end.

Definition populateMappingUI : UI unit :=
  modify (set_mappingGrid []);;
  tm ← gets (fun s => Editor.tierMapping (page s));
  fill_grid tm TIER_ORDER.

(** [tierMapping[t] = Number(inp.value) || 0] for each input. *)
Definition read_grid (g : list (string * string)) (tm : obj) : obj :=
  fold_left (fun o tv => assign o (fst tv) (grid_number (snd tv))) g tm.

Definition readMappingFromUI : UI unit :=
  g ← gets mappingGrid;
  on_page (modify (fun p => Editor.set_tierMapping (read_grid g (Editor.tierMapping p)) p));;
  on_page Editor.saveMapping.

Definition resetMappingToDefault (confirmed : bool) : UI unit :=
  if negb confirmed then mret tt else
  on_page (modify (Editor.set_tierMapping mappingDefault));;
  on_page Editor.saveMapping;;
  populateMappingUI;;
  on_page (Editor.alert "Mapping reset to defaults.").

(** The click handlers of the four mapping buttons. *)
Definition click_applyMappingBtn (confirmed : bool) : UI unit :=
  readMappingFromUI;;
  on_page (Editor.applyMappingToAllPlayers confirmed).

Definition click_applyMappingIfEmptyBtn : UI unit :=
  readMappingFromUI;;
  on_page Editor.applyMappingToEmptyPlayers.

Definition click_resetMappingBtn (confirmed : bool) : UI unit :=
  resetMappingToDefault confirmed.

Definition click_saveMappingBtn : UI unit :=
  readMappingFromUI;;
  on_page (Editor.alert "Mapping saved.").

End MappingUI.

(** Every input of the grid holds a text read exactly. *)
Definition exact_grid (g : list (string * string)) : Prop :=
  Forall (fun tv => exact_number_text (snd tv) = true) g.

(** The number an input of the grid is read as. *)
Definition grid_value (v : string) : Z :=
  match StringToNumber v with Fin z => z | NaN => 0%Z end.

(** The grid [populateMappingUI] draws for a mapping of integers. *)
Definition grid_of (tm : obj) : list (string * string) :=
  map (fun t => (t, NumberToString (Fin (mapping_points tm t)))) TIER_ORDER.

(** Every canonical tier has an integer in the mapping. *)
Definition canonical_integers (tm : obj) : Prop :=
  Forall (fun t => exists z, obj_get tm t = Some (num z)) TIER_ORDER.


(** A page where 55 was typed for LT3 and nothing valid for HT3. *)
Definition grid_typed : MappingUI.ui_state :=
  {| MappingUI.page := Editor.set_players initialData blank;
     MappingUI.mappingGrid := [("LT3", "55"); ("HT3", "abc"); ("LT5", "7")] |}.

(** ** The server status card (app.js) *)

(** The em dash.  It is one code unit above 255; it is written here as
    the three bytes of its UTF-8 form, and the card only ever shows it. *)
Definition DASH : string := String "226" (String "128" (str "148")).

(** [v.length].  A built-in function has its number of parameters;
    [__proto__] names the prototype object, which has no length. *)
Definition builtin_length (k : string) : value :=
  if String.eqb k "__proto__" then VUndefined
  else if existsb (String.eqb k) ["toString"; "valueOf"; "toLocaleString"] then num 0
  else if existsb (String.eqb k) ["__defineGetter__"; "__defineSetter__"] then num 2
  else num 1.

Definition get_length (v : value) : res value :=
  match v with
  | VUndefined | VNull => Throw (TypeError "Cannot read properties of undefined or null")
  | VStr s => Ok (num (Z.of_nat (String.length s)))
  | VArr l => Ok (num (Z.of_nat (length l)))
  | VObj o => Ok (Get o "length")
  | VBuiltin k => Ok (builtin_length k)
  | VBool _ | VNum _ => Ok VUndefined
  end.

(** [arr.join(sep)]: undefined and null elements give the empty text. *)
Fixpoint join_by (sep : string) (l : list value) : res string :=
  match l with
  | [] => Ok ""
  | x :: rest =>
      s ← match x with VUndefined | VNull => Ok "" | _ => ToString x end;
      match rest with
      | [] => Ok s
      | _ => t ← join_by sep rest; Ok (s ++ sep ++ t)
      end
  end.

(** [v.join(sep)]: only an array has [join]; on null and undefined the
    read throws, on anything else the call does. *)
Definition call_join (v : value) (sep : string) : res string :=
  match v with
  | VArr l => join_by sep l
  | VUndefined | VNull => Throw (TypeError "Cannot read properties of undefined or null")
  | _ => Throw (TypeError "join is not a function")
  end.

(** What [fetch] and [res.json()] come to: the request fails, or a
    response arrives, [ok] or not, whose body parses to a value or makes
    the parser throw. *)
Inductive fetched :=
| NetworkError (e : exn)
| Response (ok : bool) (json : res value).

Module App.

Definition serverToCheck : string := "lightvanilla.qzz.io".

(** The page: the text of each element it has, by id, the [href] of the
    connect link, and the console. *)
Record state := {
  dom : gmap string string;
  href : string;
  console : list string
}.

Definition set_dom (x : gmap string string) (s : state) : state :=
  {| dom := x; href := href s; console := console s |}.
Definition set_href (x : string) (s : state) : state :=
  {| dom := dom s; href := x; console := console s |}.
Definition set_console (x : list string) (s : state) : state :=
  {| dom := dom s; href := href s; console := x |}.

Abbreviation M := (M state).

(** [el.textContent = txt]: null and undefined give the empty text. *)
Definition text_content (txt : value) : res string :=
  match txt with
  | VUndefined | VNull => Ok ""
  | _ => ToString txt
  end.

Definition setText (id : string) (txt : value) : M unit :=
  d ← gets dom;
  match d !! id with
  | None => mret tt
  | Some _ =>
      s ← lift (text_content txt);
      modify (set_dom (<[id := s]> d))
  end.

Definition fetchServerStatus (reply : fetched) : M value :=
  try_catch
    (match reply with
     | NetworkError e => throw e
     | Response ok json =>
         if negb ok then throw (Error "Network response not ok")
         else lift json
     end)
    (fun err =>
       modify (fun s => set_console (console s ++ ["Server status fetch error:"]) s);;
       mret VNull).

Definition hostDisplayName (host : value) : value := host.

(** [data.motd && data.motd.X && data.motd.X.length] made a condition. *)
Definition has_lines (motd : value) (x : string) : res bool :=
  if negb (truthy motd) then Ok false else
  lines ← field motd x;
  if negb (truthy lines) then Ok false else
  n ← get_length lines;
  Ok (truthy n).

Definition motd_text (data : value) : res string :=
  motd ← field data "motd";
  clean ← has_lines motd "clean";
  if (clean : bool) then
    l ← field motd "clean"; s ← call_join l " "; Ok (trim s)
  else
    raw ← has_lines motd "raw";
    if (raw : bool) then
      l ← field motd "raw"; s ← call_join l " "; Ok (trim s)
    else Ok "".

Definition players_text (data : value) : res string :=
  p ← field data "players";
  if negb (truthy p) then Ok DASH else
  o ← field p "online";
  match o with
  | VNum n =>
      m ← field p "max";
      s ← ToString (or_val m (VStr "?"));
      Ok (NumberToString n ++ "/" ++ s)
  | _ => Ok DASH
  end.

(** [updateServerCard], given the year of the clock, what the request
    comes to, and what evaluating the identifier [host] comes to: no
    script of the page declares it, so its value is that of a global of
    that name if the page has one, and the read throws if it has none. *)
Definition updateServerCard (year : Z) (reply : fetched) (host : res value) : M unit :=
  setText "year" (num year);;
  data ← fetchServerStatus reply;
  connectLink ← gets (fun s => dom s !! "srv-connect");
  if negb (truthy data) then
    setText "srv-name" (VStr "Unable to fetch status");;
    setText "srv-motd" (VStr "");;
    setText "srv-online" (VStr "Unknown");;
    setText "srv-players" (VStr DASH);;
    match connectLink with
    | Some _ =>
        modify (fun s => set_dom (<["srv-connect" := "Connect: " ++ serverToCheck]> (dom s)) s);;
        modify (set_href ("minecraft:///" ++ serverToCheck))
    | None => mret tt
    end
  else
    o ← lift (field data "online");
    let online := match o with VBool true => true | _ => false end in
    setText "srv-online" (VStr (if online then "Online" else "Offline"));;
    players ← lift (players_text data);
    setText "srv-players" (VStr players);;
    motd ← lift (motd_text data);
    setText "srv-motd" (VStr (if is_empty motd then DASH else motd));;
    hostname ← lift (field data "hostname");
    name ← (if truthy hostname then mret hostname
            else h ← lift host; mret (hostDisplayName h));
    setText "srv-name" name;;
    match connectLink with
    | Some _ =>
        h ← lift host;
        t ← lift (ToString h);
        modify (fun s => set_dom (<["srv-connect" := "Connect: " ++ t]> (dom s)) s);;
        t' ← lift (ToString h);
        modify (set_href ("minecraft:///" ++ t'))
    | None => mret tt
    end.

End App.

(** [setText] on the texts of a page: the element [id] shows [text] if
    the page has it. *)
Definition shown (id text : string) (d : gmap string string) : gmap string string :=
  match d !! id with
  | Some _ => <[id := text]> d
  | None => d
  end.

(** The request gave no data: it failed, or the response was not [ok],
    or its body did not parse, or parsed to a value that is falsy. *)
Definition no_data (reply : fetched) : Prop :=
  match reply with
  | NetworkError _ => True
  | Response ok json =>
      ok = false \/ (exists e, json = Throw e) \/ (exists v, json = Ok v /\ truthy v = false)
  end.

(** The request threw on the way, which the console reports. *)
Definition fetch_threw (reply : fetched) : bool :=
  match reply with
  | NetworkError _ => true
  | Response ok json => negb ok || match json with Throw _ => true | Ok _ => false end
  end.

(** The card when no data came. *)
Definition fallback_card (year : Z) (d : gmap string string) : gmap string string :=
  shown "srv-connect" ("Connect: " ++ App.serverToCheck)
    (shown "srv-players" DASH
       (shown "srv-online" "Unknown"
          (shown "srv-motd" ""
             (shown "srv-name" "Unable to fetch status"
                (shown "year" (NumberToString (Fin year)) d))))).

(** A page with every element of the card, and one with the status line
    only. *)
Definition card_page : App.state :=
  {| App.dom := {[ "year" := ""; "srv-name" := ""; "srv-motd" := ""; "srv-online" := "";
                   "srv-players" := ""; "srv-connect" := "" ]};
     App.href := "#"; App.console := [] |}.

Definition status_reply : value :=
  VObj [("online", VBool true);
        ("players", VObj [("online", num 3); ("max", num 20)]);
        ("motd", VObj [("clean", VArr [VStr " Welcome"; VStr "to MCTIERS "])]);
        ("hostname", VStr "play.example.com")].

(** ** What a computation leaves related *)

(** A computation over any state, thrown or not. *)
Abbreviation computation := M.

(** [R s s'] holds for the state [s] the computation starts in and the
    state [s'] it ends in, whether it returns or throws. *)
Definition frame {S A} (R : S -> S -> Prop) (m : computation S A) : Prop :=
  forall s, R s (snd (m s)).

(** ** The viewer's page (players-view.js) *)

Module ViewerPage.

(** What the viewer loads, with what the page shows: the search text, the
    selected tier filter, the sort state ([true] for ['asc']), the table,
    the cards of the mapping preview (label and points line) and the
    files handed to the browser. *)
Record state := {
  base : Viewer.state;
  searchInput : string;
  tierFilter : string;
  sortState : string * bool;
  table : list row;
  preview : list (string * string);
  downloads : list File;
  yearView : string
}.

Definition set_base (x : Viewer.state) (s : state) : state :=
  {| base := x; searchInput := searchInput s; tierFilter := tierFilter s;
     sortState := sortState s; table := table s; preview := preview s;
     downloads := downloads s; yearView := yearView s |}.
Definition set_tierFilter (x : string) (s : state) : state :=
  {| base := base s; searchInput := searchInput s; tierFilter := x;
     sortState := sortState s; table := table s; preview := preview s;
     downloads := downloads s; yearView := yearView s |}.
Definition set_sortState (x : string * bool) (s : state) : state :=
  {| base := base s; searchInput := searchInput s; tierFilter := tierFilter s;
     sortState := x; table := table s; preview := preview s;
     downloads := downloads s; yearView := yearView s |}.
Definition set_table (x : list row) (s : state) : state :=
  {| base := base s; searchInput := searchInput s; tierFilter := tierFilter s;
     sortState := sortState s; table := x; preview := preview s;
     downloads := downloads s; yearView := yearView s |}.
Definition set_preview (x : list (string * string)) (s : state) : state :=
  {| base := base s; searchInput := searchInput s; tierFilter := tierFilter s;
     sortState := sortState s; table := table s; preview := x;
     downloads := downloads s; yearView := yearView s |}.
Definition set_downloads (x : list File) (s : state) : state :=
  {| base := base s; searchInput := searchInput s; tierFilter := tierFilter s;
     sortState := sortState s; table := table s; preview := preview s;
     downloads := x; yearView := yearView s |}.

Definition set_searchInput (x : string) (s : state) : state :=
  {| base := base s; searchInput := x; tierFilter := tierFilter s;
     sortState := sortState s; table := table s; preview := preview s;
     downloads := downloads s; yearView := yearView s |}.
Definition set_yearView (x : string) (s : state) : state :=
  {| base := base s; searchInput := searchInput s; tierFilter := tierFilter s;
     sortState := sortState s; table := table s; preview := preview s;
     downloads := downloads s; yearView := x |}.

Abbreviation VM := (M state).

(** [setYear], with the year of the clock. *)
Definition setYear (y : Z) : VM unit :=
  modify (set_yearView (NumberToString (Fin y))).

(** A loader of the viewer, run on the page. *)
Definition on_base {A} (m : Viewer.M A) : VM A :=
  fun s => let (r, b) := m (base s) in (r, set_base b s).

(** [console.info] writes to the console the errors go to. *)
Definition console_info (msg : string) : VM unit :=
  on_base (modify (fun b => Viewer.set_console (Viewer.console b ++ [msg]) b)).

(** [populateTierFilter]: the options are replaced by the one option All
    tiers, which is then the selected one, before the tiers of the players
    are read and added after it. *)
Definition populateTierFilter : VM unit :=
  modify (set_tierFilter "");;
  ps ← gets (fun s => Viewer.players (base s));
  _ ← lift (mapM Editor.tier_label ps);
  mret tt.

(** The cards are appended one by one.  The text of a card's second
    line is what the parser reads from the escaped points and [ pts]. *)
Fixpoint preview_cards (tm : value) (tiers : list string) : VM unit :=
  match tiers with
  | [] => mret tt
  | t :: rest =>
      x ← lift (field tm t);
      s ← lift (ToString (coalesce x (VStr DASH)));
      modify (fun st =>
        set_preview (preview st ++ [(html_text (escape_text t),
                                     html_text (escape_text s ++ " pts"))]) st);;
      preview_cards tm rest
  end.

Definition renderMappingPreview : VM unit :=
  modify (set_preview []);;
  tm ← gets (fun s => Viewer.tierMapping (base s));
  preview_cards tm TIER_ORDER.

Fixpoint render_rows (l : list value) : VM unit :=
  match l with
  | [] => mret tt
  | p :: rest =>
      r ← lift (Editor.render_row p);
      modify (fun s => set_table (table s ++ [r]) s);;
      render_rows rest
  end.

Definition renderTable (l : list value) : VM unit :=
  modify (set_table []);;
  render_rows l.

Definition applyFiltersAndRender : VM unit :=
  q ← gets (fun s => toLowerCase (trim (searchInput s)));
  tier ← gets tierFilter;
  ps ← gets (fun s => Viewer.players (base s));
  l1 ← (if is_empty q then mret ps
        else lift (Editor.filterM (Editor.matches_search q) ps));
  l2 ← (if is_empty tier then mret l1
        else lift (Editor.filterM
                     (fun p => t ← field p "tier";
                               Ok (strict_eq_str (or_val t (VStr "")) tier)) l1));
  ss ← gets sortState;
  l3 ← lift (array_sort (Editor.view_compare ss) l2);
  renderTable l3.

Definition downloadJSON (filename : string) : VM unit :=
  ps ← gets (fun s => Viewer.players (base s));
  let data := JSON.stringify (VArr ps) 2 in
  modify (fun s => set_downloads
            (downloads s ++ [{| file_name := filename; file_text := data |}]) s).

Definition reloadFromStorage : VM unit :=
  ps ← on_base Viewer.loadPlayers;
  on_base (modify (Viewer.set_players ps));;
  tm ← on_base Viewer.loadMapping;
  on_base (modify (Viewer.set_tierMapping tm));;
  populateTierFilter;;
  renderMappingPreview;;
  applyFiltersAndRender;;
  console_info "players-view: reloaded data from storage".

(** [bc.onmessage], with the data of the message. *)
Definition on_message (data : value) : VM unit :=
  if negb (truthy data) then mret tt else
  t ← lift (field data "type");
  if strict_eq_str t "players-updated" || strict_eq_str t "mapping-updated" then
    t' ← lift (field data "type");
    shown ← lift (ToString t');
    console_info ("players-view: received bc message: " ++ shown);;
    reloadFromStorage
  else mret tt.

(** The listener of [storage] events, with the key of the event, which
    is null when the whole store was cleared. *)
Definition on_storage (key : option string) : VM unit :=
  match key with
  | Some k =>
      if String.eqb k STORAGE_KEY || String.eqb k MAPPING_KEY then
        console_info ("players-view: storage event for key: " ++ k);;
        reloadFromStorage
      else mret tt
  | None => mret tt
  end.

(** The listeners of the two events the editor dispatches on the
    window. *)
Definition on_players_updated : VM unit :=
  console_info "players-view: received mctiers_players_updated event";;
  reloadFromStorage.

Definition on_mapping_updated : VM unit :=
  console_info "players-view: received mctiers_mapping_updated event";;
  reloadFromStorage.

Definition click_sort_header (field : string) : VM unit :=
  ss ← gets sortState;
  (if String.eqb (fst ss) field
   then modify (set_sortState (fst ss, negb (snd ss)))
   else modify (set_sortState (field, true)));;
  applyFiltersAndRender.

(** The handler of [DOMContentLoaded], with the year of the clock. *)
Definition on_loaded (y : Z) : VM unit :=
  setYear y;;
  ps ← on_base Viewer.loadPlayers;
  on_base (modify (Viewer.set_players ps));;
  tm ← on_base Viewer.loadMapping;
  on_base (modify (Viewer.set_tierMapping tm));;
  populateTierFilter;;
  renderMappingPreview;;
  applyFiltersAndRender.

(** What happens on the page: the listeners the script installs, with
    what the browser hands them.  Typing in the search box and choosing a
    tier change the value of the control before the listener runs. *)
Inductive event :=
| Loaded (year : Z)
| Message (data : value)
| Storage (key : option string)
| PlayersUpdated
| MappingUpdated
| SearchInput (text : string)
| TierChange (tier : string)
| SortClick (field : string)
| ExportClick.

Definition handle (ev : event) : VM unit :=
  match ev with
  | Loaded y => on_loaded y
  | Message data => on_message data
  | Storage key => on_storage key
  | PlayersUpdated => on_players_updated
  | MappingUpdated => on_mapping_updated
  | SearchInput text => modify (set_searchInput text);; applyFiltersAndRender
  | TierChange tier => modify (set_tierFilter tier);; applyFiltersAndRender
  | SortClick field => click_sort_header field
  | ExportClick => downloadJSON "players.json"
  end.

(** The page after a run of events; an exception ends the handler it is
    thrown in, not the page. *)
Definition after_events (evs : list event) (s : state) : state :=
  fold_left (fun s ev => snd (handle ev s)) evs s.


End ViewerPage.

(** The viewer's page on a store, nothing loaded or drawn yet. *)
Definition viewer_page (store : gmap string string) : ViewerPage.state :=
  {| ViewerPage.base := viewer_with store;
     ViewerPage.searchInput := ""; ViewerPage.tierFilter := "";
     ViewerPage.sortState := ("rank", true); ViewerPage.table := [];
     ViewerPage.preview := []; ViewerPage.downloads := [];
     ViewerPage.yearView := "" |}.

(** The store of [s'] is the store of [s]. *)
Definition same_store (s s' : ViewerPage.state) : Prop :=
  Viewer.localStorage (ViewerPage.base s') = Viewer.localStorage (ViewerPage.base s).


(** The card of a tier without points. *)
Definition dash_card (t : string) : string * string := (t, DASH ++ " pts").



(** The stored text gives no plain object: nothing is stored, or a text
    that does not open as an object, or an exact text that does not parse
    to one. *)
Definition no_plain_object (raw : option string) : Prop :=
  match raw with
  | None => True
  | Some r =>
      starts_object r = false \/
      (exact_json r = true /\ forall o, JSON.parse r <> Ok (VObj o))
  end.

(** The page after a reload that drew everything. *)
Definition reloaded (s : ViewerPage.state) (ps : list value) (tmv : value)
    (log : list string) (cards : list (string * string)) (tbl : list row)
    : ViewerPage.state :=
  {| ViewerPage.base :=
       {| Viewer.localStorage := Viewer.localStorage (ViewerPage.base s);
          Viewer.players := ps; Viewer.tierMapping := tmv;
          Viewer.console := Viewer.console (ViewerPage.base s) ++ log |};
     ViewerPage.searchInput := ViewerPage.searchInput s;
     ViewerPage.tierFilter := "";
     ViewerPage.sortState := ViewerPage.sortState s;
     ViewerPage.table := tbl;
     ViewerPage.preview := cards;
     ViewerPage.downloads := ViewerPage.downloads s;
     ViewerPage.yearView := ViewerPage.yearView s |}.

(** The store is left alone. *)
Definition store_kept (b b' : Viewer.state) : Prop :=
  Viewer.localStorage b' = Viewer.localStorage b.

(** ** The editor's listeners (players.js) *)

Module Listeners.

(** What the listener of the channel and the listener of [storage]
    events both do: everything is read again and drawn again. *)
Definition reload_all : MappingUI.UI unit :=
  ps ← MappingUI.on_page Editor.loadPlayers;
  MappingUI.on_page (modify (Editor.set_players ps));;
  tm ← MappingUI.on_page Editor.loadMapping;
  MappingUI.on_page (modify (Editor.set_tierMapping tm));;
  MappingUI.populateMappingUI;;
  MappingUI.on_page Editor.populateTierFilter;;
  MappingUI.on_page Editor.applyFiltersAndRender.

(** [listener.onmessage], with the data of the message. *)
Definition on_message (data : value) : MappingUI.UI unit :=
  if negb (truthy data) then mret tt else
  t ← lift (field data "type");
  if strict_eq_str t "players-updated" || strict_eq_str t "mapping-updated"
  then reload_all
  else mret tt.

(** The listener of [storage] events, with the key of the event. *)
Definition on_storage (key : option string) : MappingUI.UI unit :=
  match key with
  | Some k =>
      if String.eqb k STORAGE_KEY || String.eqb k MAPPING_KEY then reload_all
      else mret tt
  | None => mret tt
  end.

Inductive event :=
| Message (data : value)
| Storage (key : option string).

Definition handle (ev : event) : MappingUI.UI unit :=
  match ev with
  | Message data => on_message data
  | Storage key => on_storage key
  end.

End Listeners.

(** From [s] to [s'] the page has sent no signal, shown no dialog,
    handed over no file, and kept the row being edited, the search text
    and the sort state. *)
Definition quiet (s s' : Editor.state) : Prop :=
  Editor.signals s' = Editor.signals s /\
  Editor.alerts s' = Editor.alerts s /\
  Editor.downloads s' = Editor.downloads s /\
  Editor.editingId s' = Editor.editingId s /\
  Editor.searchInput s' = Editor.searchInput s /\
  Editor.sortState s' = Editor.sortState s.


(** The relation of [quiet] on the page with its grid. *)
Definition quiet_page (s s' : MappingUI.ui_state) : Prop :=
  quiet (MappingUI.page s) (MappingUI.page s').
(** * Properties *)

(** ** Strings *)

Lemma append_nil_r (s : string) : s ++ "" = s.
Proof. induction s; simpl; congruence. Qed.

Lemma append_assoc (a b c : string) : (a ++ b) ++ c = a ++ (b ++ c).
Proof. induction a; simpl; congruence. Qed.

Lemma trimEnd_idem (s : string) : trimEnd (trimEnd s) = trimEnd s.
Proof.
  induction s as [|c r IH]; simpl; [reflexivity|].
  destruct (trimEnd r) as [|d r'] eqn:E.
  - destruct (is_ws c) eqn:W; simpl; [reflexivity|]. now rewrite W.
  - simpl in *. now rewrite IH.
Qed.

Lemma trimEnd_head (c : ascii) (r : string) :
  is_ws c = false -> exists r', trimEnd (String c r) = String c r'.
Proof.
  intros W. simpl. destruct (trimEnd r); rewrite ?W; eauto.
Qed.

Lemma trimStart_head (c : ascii) (r : string) :
  is_ws c = false -> trimStart (String c r) = String c r.
Proof. intros W. simpl. now rewrite W. Qed.

Lemma trimStart_cases (s : string) :
  trimStart s = "" \/ exists c r, trimStart s = String c r /\ is_ws c = false.
Proof.
  induction s as [|c r IH]; simpl; [now left|].
  destruct (is_ws c) eqn:W; [exact IH|]. right; eauto.
Qed.

Lemma trim_idempotent (s : string) : trim (trim s) = trim s.
Proof.
  unfold trim. destruct (trimStart_cases s) as [E|(c & r & E & W)]; rewrite E.
  - reflexivity.
  - destruct (trimEnd_head c r W) as [r' E']. rewrite E'.
    rewrite (trimStart_head c r' W), <- E'. apply trimEnd_idem.
Qed.

Lemma trim_empty : trim "" = "".
Proof. reflexivity. Qed.



(** ** Numbers: printing and reading back *)




Lemma digits_uint (d : uint) :
  digits (NilZero.string_of_uint d) = Some (Z.of_uint d).
Proof.
  unfold digits. destruct d; simpl; try reflexivity;
    rewrite NilEmpty.usu; reflexivity.
Qed.



(** ** The normalizer *)

Ltac bind_inv H :=
  repeat match type of H with
  | context [mbind _ ?m] =>
      let E := fresh "E" in destruct m eqn:E; simpl in H; [|discriminate H]
  end.

Lemma or_val_num (n : number) : exists z, or_val (VNum n) (num 0) = num z.
Proof.
  destruct n as [|z]; [now exists 0%Z|].
  unfold or_val; simpl. destruct (z =? 0)%Z; simpl; eauto.
Qed.

Lemma or_val_num_fin (z : Z) : or_val (VNum (Fin z)) (num 0) = num z.
Proof.
  unfold or_val; simpl. destruct (Z.eqb_spec z 0); simpl; [subst|]; reflexivity.
Qed.

Lemma or_val_str (s : string) : or_val (VStr s) (VStr "") = VStr s.
Proof. now destruct s. Qed.

(** The output is always a record of two numbers and two strings, the
    tier trimmed. *)
Lemma normalizePlayer_shape (tm : obj) (x y : value) :
  normalizePlayer tm x = Ok y ->
  exists r n t p, y = player (num r) (VStr n) (VStr (trim t)) (num p).
Proof.
  unfold normalizePlayer. intros H. bind_inv H.
  injection H as <-.
  destruct (or_val_num a6) as [r ->], (or_val_num a11) as [p ->].
  rewrite or_val_str. eauto.
Qed.

(** Normalizing a record of that shape: only an empty name changes. *)
Lemma normalizePlayer_record (tm : obj) (r p : Z) (n t : string) :
  normalizePlayer tm (player (num r) (VStr n) (VStr t) (num p)) =
  Ok (player (num r) (VStr (if is_empty n then "Unknown" else n))
             (VStr (trim t)) (num p)).
Proof.
  unfold normalizePlayer, player. simpl.
  assert (Ht : or_else (VStr t) (Ok VUndefined) ≫= (λ t2, or_else t2 (Ok VUndefined)
            ≫= λ t3, ToString (or_val t3 (VStr ""))) = Ok t).
  { destruct t; reflexivity. }
  assert (Hts : forall (k : string -> res value),
      (or_else (VStr t) (Ok VUndefined) ≫= λ t2, or_else t2 (Ok VUndefined)
         ≫= λ t3, ToString (or_val t3 (VStr "")) ≫= k) = k t).
  { intros k. destruct t; reflexivity. }
  rewrite Hts. simpl.
  assert (Hn : forall (k : string -> res value),
      (or_else (VStr n) (Ok VUndefined) ≫= λ n2, or_else n2 (Ok VUndefined)
         ≫= λ n3, ToString (or_val n3 (VStr "Unknown")) ≫= k)
      = k (if is_empty n then "Unknown" else n)).
  { intros k. destruct n; reflexivity. }
  rewrite Hn. simpl.
  rewrite !or_val_num_fin, or_val_str. reflexivity.
Qed.

(** Applying the normalizer to its own output changes nothing but an
    empty name, which becomes "Unknown". *)
Lemma normalizePlayer_twice (tm : obj) (x y : value) :
  normalizePlayer tm x = Ok y ->
  exists r n t p,
    y = player (num r) (VStr n) (VStr t) (num p) /\
    normalizePlayer tm y =
      Ok (player (num r) (VStr (if is_empty n then "Unknown" else n)) (VStr t) (num p)).
Proof.
  intros H. destruct (normalizePlayer_shape tm x y H) as (r & n & t & p & ->).
  exists r, n, (trim t), p. split; [reflexivity|].
  now rewrite normalizePlayer_record, trim_idempotent.
Qed.

(** Whenever the first pass yields a name that is not empty, the second
    pass is the identity. *)
Lemma normalizePlayer_idempotent_named (tm : obj) (x y : value) (n : string) :
  normalizePlayer tm x = Ok y ->
  name_of y = Some n -> n <> "" ->
  normalizePlayer tm y = Ok y.
Proof.
  intros H Hn Hne.
  destruct (normalizePlayer_twice tm x y H) as (r & n' & t & p & -> & ->).
  simpl in Hn. injection Hn as ->. destruct n; [contradiction|reflexivity].
Qed.

(** C3.  The normalizer is not idempotent on every input object: for the
    record whose name is the empty array the first pass yields the empty
    name, and the second pass turns it into "Unknown". *)
Theorem normalizePlayer_array_name :
  let x := VObj [("name", VArr [])] in
  let y1 := player (num 0) (VStr "") (VStr "") (num 0) in
  let y2 := player (num 0) (VStr "Unknown") (VStr "") (num 0) in
  normalizePlayer mappingDefault x = Ok y1 /\
  normalizePlayer mappingDefault y1 = Ok y2 /\
  y1 <> y2.
Proof. repeat split; try reflexivity. discriminate. Qed.



Lemma or_val_fin (n : number) (z : Z) :
  or_val (VNum n) (num 0) = num z ->
  (n = NaN /\ z = 0%Z) \/ n = Fin z.
Proof.
  destruct n as [|a]; unfold or_val, num; simpl.
  - intros [= <-]. now left.
  - destruct (Z.eqb_spec a 0); simpl; intros [= <-]; right; congruence.
Qed.






(** ** The state monad *)

Section MonadLaws.
Context {S A B : Type}.
Implicit Types (s : S) (k : A -> M S B).

Lemma run_bind (m : M S A) k s :
  (m ≫= k) s =
  match m s with
  | (Ok a, s') => k a s'
  | (Throw e, s') => (Throw e, s')
  end.
Proof. reflexivity. Qed.

Lemma run_ret (a : A) k s : (mret a ≫= k) s = k a s.
Proof. reflexivity. Qed.

Lemma run_lift_Ok (a : A) k s : (lift (Ok a) ≫= k) s = k a s.
Proof. reflexivity. Qed.

Lemma run_lift_Throw (e : exn) k s : (lift (Throw e) ≫= k) s = (Throw e, s).
Proof. reflexivity. Qed.

Lemma run_throw (e : exn) k s : (throw e ≫= k) s = (Throw e, s).
Proof. reflexivity. Qed.

Lemma run_gets (f : S -> A) k s : (gets f ≫= k) s = k (f s) s.
Proof. reflexivity. Qed.

Lemma run_bind_assoc {C} (m : M S C) (f : C -> M S A) k s :
  ((m ≫= f) ≫= k) s = (m ≫= λ x, f x ≫= k) s.
Proof.
  unfold mbind, M_bind. destruct (m s) as [[c|e] s']; reflexivity.
Qed.
End MonadLaws.

Lemma run_modify {S B} (f : S -> S) (k : unit -> M S B) (s : S) :
  (modify f ≫= k) s = k tt (f s).
Proof. reflexivity. Qed.

Lemma end_modify {S} (f : S -> S) (s : S) : modify f s = (Ok tt, f s).
Proof. reflexivity. Qed.

Lemma end_ret {S A} (a : A) (s : S) : (mret a : M S A) s = (Ok a, s).
Proof. reflexivity. Qed.

Lemma end_lift {S A} (r : res A) (s : S) : (lift r : M S A) s = (r, s).
Proof. reflexivity. Qed.

Lemma end_throw {S A} (e : exn) (s : S) : (throw e : M S A) s = (Throw e, s).
Proof. reflexivity. Qed.

Lemma run_try_catch {S A} (body : M S A) (handler : exn -> M S A) (s : S) :
  try_catch body handler s =
  match body s with
  | (Ok a, s') => (Ok a, s')
  | (Throw e, s') => handler e s'
  end.
Proof. reflexivity. Qed.

Create Rewrite HintDb run.
#[export] Hint Rewrite @run_ret @run_lift_Ok @run_lift_Throw @run_throw
  @run_gets @run_modify @run_bind_assoc @end_modify @end_ret @end_lift
  @end_throw : run.

Ltac mrun := repeat (progress (autorewrite with run; cbv beta iota)).

Lemma mapM_Ok {A B} (f : A -> res B) (l : list A) :
  Forall (fun x => exists y, f x = Ok y) l -> exists l', mapM f l = Ok l'.
Proof.
  induction 1 as [|x l [y Hy] _ [l' IH]]; simpl; [eauto|].
  rewrite Hy, IH. simpl. eauto.
Qed.



(** ** CSV fields between quotes *)

Lemma append_str_cons (cur : string) (c : ascii) (r : string) :
  (cur ++ str c) ++ r = cur ++ String c r.
Proof. now rewrite append_assoc. Qed.

(** Inside quotes: the doubled quotes of the field are read as quotes, its
    commas as text, up to the closing quote. *)
Lemma split_quoted_body (s rest cur : string) (res : list string) :
  not_quote_first rest ->
  splitCSVLine_from (replace_char DQ (String DQ (str DQ)) s ++ String DQ rest) cur true res =
  splitCSVLine_from rest (cur ++ s) false res.
Proof.
  intros Hrest. revert cur. induction s as [|c r IH]; intros cur; simpl.
  - rewrite append_nil_r. destruct rest as [|d rest']; [reflexivity|].
    simpl in Hrest. now rewrite Hrest.
  - destruct (Ascii.eqb c DQ) eqn:Ec.
    + apply Ascii.eqb_eq in Ec as ->. simpl. rewrite IH.
      now rewrite append_str_cons.
    + simpl. rewrite Ec. simpl. rewrite andb_false_r, IH.
      now rewrite append_str_cons.
Qed.

Lemma csv_quote_app (s rest : string) :
  csv_quote s ++ rest =
  String DQ (replace_char DQ (String DQ (str DQ)) s ++ String DQ rest).
Proof. unfold csv_quote. simpl. now rewrite append_assoc. Qed.

Lemma split_quoted (s rest : string) (res : list string) :
  not_quote_first rest ->
  splitCSVLine_from (csv_quote s ++ rest) "" false res =
  splitCSVLine_from rest s false res.
Proof.
  intros Hrest. rewrite csv_quote_app.
  assert (E : forall t, splitCSVLine_from
            (String DQ t) "" false res = splitCSVLine_from t "" true res).
  { intros [|d t]; reflexivity. }
  rewrite E, split_quoted_body by exact Hrest. reflexivity.
Qed.

Lemma join_with_cons (sep a b : string) (l : list string) :
  JSON.join_with sep (a :: b :: l) = a ++ sep ++ JSON.join_with sep (b :: l).
Proof. reflexivity. Qed.

Lemma split_comma (t f : string) (res : list string) :
  splitCSVLine_from ("," ++ t) f false res =
  splitCSVLine_from t "" false (res ++ [f]).
Proof. reflexivity. Qed.

Lemma split_quoted_fields (f : string) (fs : list string) (res : list string) :
  splitCSVLine_from (JSON.join_with "," (map csv_quote (f :: fs))) "" false res =
  (res ++ f :: fs)%list.
Proof.
  revert f res. induction fs as [|g fs IH]; intros f res.
  - change (JSON.join_with "," (map csv_quote [f])) with (csv_quote f).
    rewrite <- (append_nil_r (csv_quote f)).
    rewrite split_quoted by exact I. reflexivity.
  - change (map csv_quote (f :: g :: fs))
      with (csv_quote f :: csv_quote g :: map csv_quote fs).
    rewrite join_with_cons, split_quoted by reflexivity.
    rewrite split_comma.
    change (csv_quote g :: map csv_quote fs) with (map csv_quote (g :: fs)).
    rewrite IH. now rewrite <- app_assoc.
Qed.

(** ** Escaping and reading back the text of a cell *)

Lemma replace_char_app (c : ascii) (rep a b : string) :
  replace_char c rep (a ++ b) = replace_char c rep a ++ replace_char c rep b.
Proof.
  induction a as [|d a IH]; simpl; [reflexivity|].
  now rewrite IH, append_assoc.
Qed.

Lemma escape_text_cons (c : ascii) (r : string) :
  escape_text (String c r) = escape_char c ++ escape_text r.
Proof.
  unfold escape_text, escape_char.
  change (replace_char "&" "&amp;" (String c r))
    with ((if Ascii.eqb c "&" then "&amp;" else str c) ++ replace_char "&" "&amp;" r).
  rewrite !replace_char_app. f_equal.
  destruct (Ascii.eqb c "&") eqn:E1; [reflexivity|].
  simpl. rewrite ?append_nil_r.
  destruct (Ascii.eqb c "<") eqn:E2; [reflexivity|].
  simpl. rewrite ?append_nil_r.
  destruct (Ascii.eqb c ">") eqn:E3; [reflexivity|].
  simpl. rewrite ?append_nil_r.
  destruct (Ascii.eqb c DQ) eqn:E4; reflexivity.
Qed.

Lemma html_text_escape_char (c : ascii) (rest : string) :
  Ascii.eqb c CR = false -> Ascii.eqb c NUL = false ->
  html_text_from 0 (escape_char c ++ rest) = String c (html_text_from 0 rest).
Proof.
  intros Hcr Hnul. unfold escape_char.
  destruct (Ascii.eqb c "&") eqn:E1.
  { apply Ascii.eqb_eq in E1 as ->. reflexivity. }
  destruct (Ascii.eqb c "<") eqn:E2.
  { apply Ascii.eqb_eq in E2 as ->. reflexivity. }
  destruct (Ascii.eqb c ">") eqn:E3.
  { apply Ascii.eqb_eq in E3 as ->. reflexivity. }
  destruct (Ascii.eqb c DQ) eqn:E4.
  { apply Ascii.eqb_eq in E4 as ->. reflexivity. }
  simpl. now rewrite E1, Hcr, Hnul.
Qed.

Lemma html_text_escape (s : string) :
  html_safe s = true -> html_text (escape_text s) = s.
Proof.
  unfold html_text. induction s as [|c r IH]; simpl; [reflexivity|].
  intros [[Hcr Hnul]%andb_prop Hr]%andb_prop.
  apply negb_true_iff in Hcr, Hnul.
  rewrite escape_text_cons, html_text_escape_char, IH by assumption.
  reflexivity.
Qed.

Lemma html_safe_uint (d : uint) : html_safe (NilEmpty.string_of_uint d) = true.
Proof. induction d; simpl; auto. Qed.

Lemma html_safe_number (z : Z) : html_safe (NumberToString (Fin z)) = true.
Proof.
  unfold NumberToString. destruct (Z.to_int z) as [d|d]; simpl;
    destruct d; simpl; auto using html_safe_uint.
Qed.

Lemma cell_number (z : Z) : Editor.cell (num z) = Ok (NumberToString (Fin z)).
Proof.
  unfold Editor.cell, escapeHtml, num. simpl ToString. simpl mbind.
  now rewrite html_text_escape by apply html_safe_number.
Qed.

Lemma cell_string (s : string) :
  html_safe s = true -> Editor.cell (VStr s) = Ok s.
Proof.
  intros H. unfold Editor.cell, escapeHtml. simpl. now rewrite html_text_escape.
Qed.

(** ** Sorting *)

Section SortTotal.
Variable cmp : value -> value -> res number.

Lemma sort_insert_total (x : value) (l : list value) :
  Forall (fun y => exists n, cmp x y = Ok n) l ->
  exists l', sort_insert cmp x l = Ok l' /\ Permutation l' (x :: l).
Proof.
  induction 1 as [|y l [n Hn] _ (l' & IH & HP)]; simpl; [eauto|].
  rewrite Hn. simpl. destruct n as [|z]; [eauto|].
  destruct (0 <? z)%Z; [|eauto].
  rewrite IH. simpl. eexists; split; [reflexivity|].
  rewrite HP. apply perm_swap.
Qed.

Lemma sort_defined_total (l : list value) :
  (forall x y, x ∈ l -> y ∈ l -> exists n, cmp x y = Ok n) ->
  exists l', sort_defined cmp l = Ok l' /\ Permutation l' l.
Proof.
  induction l as [|x l IH]; simpl; intros H; [eauto|].
  destruct IH as (l' & -> & HP).
  { intros a b Ha Hb. apply H; now right. }
  simpl. destruct (sort_insert_total x l') as (l'' & -> & HP').
  { apply Forall_forall. intros y Hy. apply H; [now left|].
    right. now rewrite <- HP. }
  eexists; split; [reflexivity|]. now rewrite HP', HP.
Qed.

Lemma filter_partition_perm (f : value -> bool) (l : list value) :
  Permutation (filter (fun v => negb (f v)) l ++ filter (fun v => f v) l) l.
Proof.
  induction l as [|x l IH]; [reflexivity|].
  rewrite !filter_cons. destruct (f x) eqn:E; simpl.
  - rewrite <- Permutation_middle. now constructor.
  - now constructor.
Qed.

Lemma array_sort_total (l : list value) :
  (forall x y, x ∈ l -> y ∈ l -> exists n, cmp x y = Ok n) ->
  exists l', array_sort cmp l = Ok l' /\ Permutation l' l.
Proof.
  intros H. unfold array_sort.
  destruct (sort_defined_total (filter (fun v => negb (is_undefined v)) l))
    as (d & -> & HP).
  { intros x y [_ Hx]%list_elem_of_filter [_ Hy]%list_elem_of_filter. now apply H. }
  simpl. eexists; split; [reflexivity|].
  rewrite HP. apply filter_partition_perm.
Qed.
End SortTotal.

(** ** Drawing the table *)

Import Editor.

Lemma field_player (r n t p : value) :
  field (player r n t p) "rank" = Ok r /\
  field (player r n t p) "name" = Ok n /\
  field (player r n t p) "tier" = Ok t /\
  field (player r n t p) "points" = Ok p.
Proof. repeat split. Qed.

Lemma Get_plain (o : obj) (f : string) :
  Forall (fun kv => plain (snd kv)) o -> plain (Get o f).
Proof.
  unfold Get. induction 1 as [|[k v] o Hv _ IH]; simpl.
  - now destruct (inherited f).
  - destruct (String.eqb k f); [exact Hv|exact IH].
Qed.

Lemma field_record_plain (v : value) (f : string) :
  is_record v -> exists w, field v f = Ok w /\ plain w.
Proof.
  intros (r & n & t & p & ->). unfold field, player.
  eexists; split; [reflexivity|]. apply Get_plain. repeat constructor.
Qed.

Lemma ToString_plain (v : value) : plain v -> exists s, ToString v = Ok s.
Proof. destruct v as [| |[|]|n|s|l|o|k]; simpl; intros H; try contradiction; eauto. Qed.

Lemma ToNumber_plain (v : value) : plain v -> exists n, ToNumber v = Ok n.
Proof. destruct v as [| |[|]|n|s|l|o|k]; simpl; intros H; try contradiction; eauto. Qed.

Lemma ToPrimitive_plain (v : value) :
  plain v -> exists w, ToPrimitive v = Ok w /\ plain w.
Proof.
  destruct v as [| |[|]|n|s|l|o|k]; simpl; intros H; try contradiction;
    eexists; split; try reflexivity; exact I.
Qed.

Lemma less_than_plain (a b : value) :
  plain a -> plain b -> exists r, less_than a b = Ok r.
Proof.
  intros Ha Hb. unfold less_than.
  destruct (ToPrimitive_plain a Ha) as (pa & -> & Hpa).
  destruct (ToPrimitive_plain b Hb) as (pb & -> & Hpb). simpl.
  destruct (ToNumber_plain pa Hpa) as [x Hx], (ToNumber_plain pb Hpb) as [y Hy].
  destruct pa; try contradiction; destruct pb; try contradiction;
    rewrite ?Hx, ?Hy; simpl; try (destruct x, y; eauto); eauto.
Qed.

Lemma view_compare_records (ss : string * bool) (a b : value) :
  is_record a -> is_record b -> exists n, view_compare ss a b = Ok n.
Proof.
  intros Ha Hb. destruct ss as [f asc]. unfold view_compare.
  destruct (field_record_plain a f Ha) as (x & -> & Hx).
  destruct (field_record_plain b f Hb) as (y & -> & Hy). simpl.
  destruct (less_than_plain x y Hx Hy) as [lt ->]. simpl.
  destruct lt; [eauto|].
  destruct (less_than_plain y x Hy Hx) as [gt ->]. simpl.
  destruct gt; eauto.
Qed.

Lemma matches_search_record (q : string) (v : value) :
  is_record v -> exists b, matches_search q v = Ok b.
Proof.
  intros (r & n & t & p & ->). unfold matches_search.
  destruct (field_player (num r) (VStr n) (VStr t) (num p)) as (-> & -> & -> & ->).
  simpl. repeat (match goal with |- context [if ?c then _ else _] => destruct c end; eauto).
Qed.

Lemma tier_filter_record (tier : string) (v : value) :
  is_record v ->
  exists b, (t ← field v "tier"; Ok (strict_eq_str (or_val t (VStr "")) tier)) = Ok b.
Proof.
  intros (r & n & t & p & ->).
  destruct (field_player (num r) (VStr n) (VStr t) (num p)) as (_ & _ & -> & _).
  simpl. eauto.
Qed.

Lemma filterM_total (pred : value -> res bool) (l : list value) :
  Forall (fun x => exists b, pred x = Ok b) l ->
  exists l', filterM pred l = Ok l' /\ forall P : value -> Prop, Forall P l -> Forall P l'.
Proof.
  induction 1 as [|x l [b Hb] _ (l' & IH & HF)]; simpl.
  - eexists; split; [reflexivity|auto].
  - rewrite Hb, IH. simpl. eexists; split; [reflexivity|].
    intros P HP. inversion HP; subst. destruct b; [constructor|]; auto.
Qed.

Lemma tier_label_record (v : value) :
  is_record v -> exists l, tier_label v = Ok l.
Proof.
  intros (r & n & t & p & ->). unfold tier_label.
  destruct (field_player (num r) (VStr n) (VStr t) (num p)) as (_ & _ & -> & _).
  simpl. rewrite or_val_str. eauto.
Qed.

Lemma populateTierFilter_records (s : state) :
  Forall is_record (players s) ->
  populateTierFilter s = (Ok tt, set_tierFilter "" s).
Proof.
  intros H. unfold populateTierFilter. autorewrite with run.
  change (players (set_tierFilter "" s)) with (players s).
  destruct (mapM_Ok tier_label (players s)) as [l ->].
  { eapply Forall_impl; [exact H|]. apply tier_label_record. }
  now autorewrite with run.
Qed.

Lemma res_bind_Ok {A B} (a : A) (k : A -> res B) : (Ok a ≫= k) = k a.
Proof. reflexivity. Qed.

Lemma cell_text (s : string) : cell (VStr s) = Ok (html_text (escape_text s)).
Proof. reflexivity. Qed.

Lemma render_row_record (r p : Z) (n t : string) :
  render_row (player (num r) (VStr n) (VStr t) (num p)) =
  Ok (NumberToString (Fin r), html_text (escape_text n),
      html_text (escape_text t), NumberToString (Fin p)).
Proof.
  unfold render_row.
  destruct (field_player (num r) (VStr n) (VStr t) (num p)) as (-> & -> & -> & ->).
  repeat (rewrite ?res_bind_Ok, ?cell_number, ?cell_text). reflexivity.
Qed.

Lemma render_rows_records (l : list value) (s : state) :
  Forall is_record l ->
  exists rows, render_rows l s = (Ok tt, set_table (table s ++ rows) s).
Proof.
  intros H. revert s. induction H as [|v l (r & n & t & p & ->) _ IH]; intros s.
  - exists []. simpl. rewrite app_nil_r. now destruct s.
  - simpl. rewrite render_row_record. autorewrite with run.
    destruct (IH (set_table (table s ++
                   [(NumberToString (Fin r), html_text (escape_text n),
                     html_text (escape_text t), NumberToString (Fin p))]) s))
      as [rows Hr].
    eexists. etransitivity; [exact Hr|]. simpl. rewrite <- app_assoc. reflexivity.
Qed.

Lemma applyFiltersAndRender_records (s : state) :
  Forall is_record (players s) ->
  exists tbl, applyFiltersAndRender s = (Ok tt, set_table tbl s).
Proof.
  intros H. unfold applyFiltersAndRender. autorewrite with run.
  assert (H1 : exists l1,
    (if is_empty (toLowerCase (trim (searchInput s))) then mret (players s)
     else lift (filterM (matches_search (toLowerCase (trim (searchInput s)))) (players s)))
    = (mret l1 : M _) /\ Forall is_record l1).
  { destruct (is_empty _); [eauto|].
    destruct (filterM_total (matches_search (toLowerCase (trim (searchInput s)))) (players s))
      as (l1 & -> & HF).
    - eapply Forall_impl; [exact H|]. apply matches_search_record.
    - eauto. }
  destruct H1 as (l1 & -> & Hl1). autorewrite with run.
  assert (H2 : exists l2,
    (if is_empty (tierFilter s) then mret l1
     else lift (filterM (fun p => t ← field p "tier";
                          Ok (strict_eq_str (or_val t (VStr "")) (tierFilter s))) l1))
    = (mret l2 : M _) /\ Forall is_record l2).
  { destruct (is_empty _); [eauto|].
    destruct (filterM_total (fun p => t ← field p "tier";
                Ok (strict_eq_str (or_val t (VStr "")) (tierFilter s))) l1)
      as (l2 & -> & HF).
    - eapply Forall_impl; [exact Hl1|]. apply tier_filter_record.
    - eauto. }
  destruct H2 as (l2 & -> & Hl2). autorewrite with run.
  destruct (array_sort_total (view_compare (sortState s)) l2) as (l3 & -> & HP).
  { intros x y Hx Hy. rewrite Forall_forall in Hl2.
    apply view_compare_records; auto. }
  autorewrite with run. unfold renderTable. autorewrite with run.
  destruct (render_rows_records l3 (set_table [] s)) as [rows ->].
  { now rewrite HP. }
  eexists. reflexivity.
Qed.

(** ** What the handlers leave alone *)

Lemma view_only_refl (s : state) : view_only s s.
Proof. exists (tierFilter s), (table s). now destruct s. Qed.

Lemma view_only_trans (s1 s2 s3 : state) :
  view_only s1 s2 -> view_only s2 s3 -> view_only s1 s3.
Proof. intros (a & b & ->) (c & d & ->). now exists c, d. Qed.

Lemma view_only_table (tb : list row) (s : state) : view_only s (set_table tb s).
Proof. exists (tierFilter s), tb. now destruct s. Qed.

Lemma view_only_tierFilter (tf : string) (s : state) : view_only s (set_tierFilter tf s).
Proof. exists tf, (table s). now destruct s. Qed.

Lemma savePlayers_run (s : state) : savePlayers s = (Ok tt, players_saved s).
Proof.
  unfold savePlayers, players_saved, setItem, emit.
  destruct s as [ls [|] ps tm e si tf ss tb c a sg d];
    unfold mbind, M_bind, gets, modify, mret, M_ret; simpl;
    now rewrite <- ?app_assoc.
Qed.

Lemma populateTierFilter_view (s : state) : view_only s (snd (populateTierFilter s)).
Proof.
  unfold populateTierFilter. autorewrite with run.
  destruct (mapM tier_label (players (set_tierFilter "" s)));
    autorewrite with run; simpl; apply view_only_tierFilter.
Qed.

Lemma render_rows_view (l : list value) (s : state) :
  view_only s (snd (render_rows l s)).
Proof.
  revert s. induction l as [|p l IH]; intros s; simpl.
  - apply view_only_refl.
  - destruct (render_row p); autorewrite with run; simpl.
    + eapply view_only_trans; [|apply IH]. apply view_only_table.
    + apply view_only_refl.
Qed.

Lemma applyFiltersAndRender_view (s : state) :
  view_only s (snd (applyFiltersAndRender s)).
Proof.
  unfold applyFiltersAndRender. autorewrite with run.
  destruct (is_empty (toLowerCase (trim (searchInput s))));
    [|destruct (filterM _ (players s))]; autorewrite with run;
    try apply view_only_refl;
    (destruct (is_empty (tierFilter s)); [|destruct (filterM _ _)];
     autorewrite with run; try apply view_only_refl;
     (destruct (array_sort _ _); autorewrite with run; try apply view_only_refl;
      unfold renderTable; autorewrite with run;
      eapply view_only_trans; [|apply render_rows_view]; apply view_only_table)).
Qed.


Lemma draw_records (s : state) :
  Forall is_record (players s) ->
  exists tf tb, (populateTierFilter;; applyFiltersAndRender) s =
                (Ok tt, set_tierFilter tf (set_table tb s)).
Proof.
  intros H. rewrite run_bind, populateTierFilter_records by exact H.
  destruct (applyFiltersAndRender_records (set_tierFilter "" s) H) as [tb ->].
  exists "", tb. now destruct s.
Qed.

(** ** Import *)



Lemma draw_records_then {B} (k : unit -> M B) (s : state) :
  Forall is_record (players s) ->
  exists tf tb,
    (populateTierFilter ≫= λ _, applyFiltersAndRender ≫= k) s =
    k tt (set_tierFilter tf (set_table tb s)).
Proof.
  intros H. rewrite run_bind, populateTierFilter_records by exact H.
  destruct (applyFiltersAndRender_records (set_tierFilter "" s) H) as [tb Hr].
  exists "", tb. rewrite run_bind, Hr. now destruct s.
Qed.

(** The state the import handler leaves on success. *)
Lemma import_commit (ps : list value) (s : state) :
  Forall is_record ps ->
  exists tf tb,
    (modify (set_players ps);; savePlayers;; populateTierFilter;;
     applyFiltersAndRender;; alert import_success_alert) s =
    (Ok tt,
     set_alerts (alerts s ++ [import_success_alert])
       (set_tierFilter tf (set_table tb (players_saved (set_players ps s))))).
Proof.
  intros H. rewrite run_modify, run_bind, savePlayers_run.
  destruct (draw_records_then (λ _, alert import_success_alert)
              (players_saved (set_players ps s))) as (tf & tb & ->).
  { now destruct s. }
  exists tf, tb. now destruct s.
Qed.


Lemma parse_members_obj (fuel : nat) (s : string) (acc : obj) (v : value) (r : string) :
  JSON.parse_members fuel s acc = Some (v, r) -> exists o, v = VObj o.
Proof.
  revert s acc v r. induction fuel as [|n IH]; intros s acc v r; [discriminate|].
  simpl. intros H.
  repeat case_match; try discriminate; simplify_eq; eauto.
Qed.

Lemma parse_array_starts (text : string) (l : list value) :
  JSON.parse text = Ok (VArr l) -> starts_array text = true.
Proof.
  unfold JSON.parse, starts_array.
  destruct (JSON.parse_value _ text) as [[v rest]|] eqn:E; [|discriminate].
  destruct (is_empty _); intros H; [|discriminate H]. injection H as ->.
  replace (2 * String.length text + 2)%nat
    with (S (2 * String.length text + 1)) in E by lia.
  cbn [JSON.parse_value] in E.
  destruct (JSON.skip_ws text) as [|c r]; [discriminate|].
  destruct (Ascii.eqb c "{") eqn:E1.
  { destruct (JSON.skip_ws r) as [|c' r']; [discriminate|].
    destruct (Ascii.eqb c' "}"); [discriminate|].
    apply parse_members_obj in E as [o [=]]. }
  destruct (Ascii.eqb c "[") eqn:E2; [reflexivity|].
  unfold JSON.parse_number in E.
  repeat case_match; try discriminate; simplify_eq; unfold option_map in *;
    repeat case_match; simplify_eq.
Qed.

Lemma parse_elements_arr (fuel : nat) (s : string) (acc : list value) (v : value)
    (r : string) :
  JSON.parse_elements fuel s acc = Some (v, r) -> exists l, v = VArr l.
Proof.
  revert s acc v r. induction fuel as [|n IH]; intros s acc v r; [discriminate|].
  simpl. intros H.
  repeat case_match; try discriminate; simplify_eq; eauto.
Qed.

Lemma parse_object_starts (text : string) (o : obj) :
  JSON.parse text = Ok (VObj o) -> starts_object text = true.
Proof.
  unfold JSON.parse, starts_object.
  destruct (JSON.parse_value _ text) as [[v rest]|] eqn:E; [|discriminate].
  destruct (is_empty _); intros H; [|discriminate H]. injection H as ->.
  replace (2 * String.length text + 2)%nat
    with (S (2 * String.length text + 1)) in E by lia.
  cbn [JSON.parse_value] in E.
  destruct (JSON.skip_ws text) as [|c r]; [discriminate|].
  destruct (Ascii.eqb c "{") eqn:E1; [reflexivity|].
  destruct (Ascii.eqb c "[") eqn:E2.
  { destruct (JSON.skip_ws r) as [|c' r']; [discriminate|].
    destruct (Ascii.eqb c' "]"); [discriminate|].
    apply parse_elements_arr in E as [l [=]]. }
  unfold JSON.parse_number in E.
  repeat case_match; try discriminate; simplify_eq; unfold option_map in *;
    repeat case_match; simplify_eq.
Qed.


Lemma import_csv_example_rows (tm : obj) :
  mapM (fun r => normalizePlayer tm (csv_record r)) (parseCSV (file_text csv_example)) =
  Ok [player (num 1) (VStr csv_example_name) (VStr "HT1") (num 100)].
Proof. reflexivity. Qed.

(** C7.  Fields written between quotes are read back whole by
    [splitCSVLine]: their commas are text and their doubled quotes are
    quotes.  Importing the CSV file of the scenario yields the one record
    named Smith, "The Rock". *)
Theorem csv_quoted_fields :
  (forall f fs,
     splitCSVLine (JSON.join_with "," (map csv_quote (f :: fs))) = f :: fs) /\
  splitCSVLine ("1," ++ quoted ("Smith, " ++ quoted (quoted "The Rock")) ++ ",HT1,100")
    = ["1"; csv_example_name; "HT1"; "100"] /\
  (forall st,
     players (snd (importDataFromFile (Some csv_example) st)) =
     [player (num 1) (VStr csv_example_name) (VStr "HT1") (num 100)]).
Proof.
  split; [|split].
  - intros f fs. apply (split_quoted_fields f fs []).
  - reflexivity.
  - intros st. unfold importDataFromFile.
    rewrite run_try_catch, run_gets.
    change (endsWith (toLowerCase (file_name csv_example)) ".json") with false.
    cbv iota zeta. rewrite run_bind_assoc, import_csv_example_rows.
    autorewrite with run.
    destruct (import_commit [player (num 1) (VStr csv_example_name) (VStr "HT1") (num 100)] st)
      as (tf & tb & Hc).
    { repeat constructor. now exists 1%Z, csv_example_name, "HT1", 100%Z. }
    match goal with |- context [match ?x with _ => _ end] =>
      assert (Hx : x = (Ok tt, set_alerts (alerts st ++ [import_success_alert])
         (set_tierFilter tf (set_table tb (players_saved
            (set_players [player (num 1) (VStr csv_example_name) (VStr "HT1") (num 100)] st))))))
        by exact Hc; rewrite Hx end.
    reflexivity.
Qed.


(** ** Objects *)

Lemma obj_get_set (o : obj) (k k' : string) (v : value) :
  obj_get (obj_set o k v) k' = if String.eqb k k' then Some v else obj_get o k'.
Proof.
  induction o as [|[a w] o IH]; simpl.
  - reflexivity.
  - destruct (String.eqb_spec a k) as [->|Hak]; simpl.
    + destruct (String.eqb k k'); reflexivity.
    + rewrite IH. destruct (String.eqb_spec a k') as [->|Hak']; [|reflexivity].
      destruct (String.eqb_spec k k'); congruence.
Qed.

Lemma obj_get_None (o : obj) (k : string) :
  k ∉ map fst o -> obj_get o k = None.
Proof.
  induction o as [|[a w] o IH]; simpl; [reflexivity|].
  intros H. destruct (String.eqb_spec a k) as [->|Hak].
  - exfalso. apply H. now left.
  - apply IH. intros Hin. apply H. now right.
Qed.

(** Spreading an object with distinct keys over [acc]: its entries win,
    the other entries of [acc] stay. *)
Lemma spread_get (o acc : obj) (k : string) :
  NoDup (map fst o) ->
  obj_get (fold_left (fun a kv => obj_set a (fst kv) (snd kv)) o acc) k =
  match obj_get o k with Some v => Some v | None => obj_get acc k end.
Proof.
  intros Hnd. revert acc. induction o as [|[a w] o IH]; intros acc; simpl.
  - reflexivity.
  - inversion Hnd as [|? ? Hnotin Hnd']; subst. rewrite (IH Hnd').
    rewrite obj_get_set. destruct (String.eqb_spec a k) as [->|Hak].
    + now rewrite obj_get_None.
    + reflexivity.
Qed.





(** ** The JSON parser, one step at a time *)

Lemma parse_value_S (fuel : nat) (s : string) :
  JSON.parse_value (S fuel) s =
  match JSON.skip_ws s with
  | EmptyString => None
  | String c r as t =>
      if Ascii.eqb c "{" then
        match JSON.skip_ws r with
        | String c' r' =>
            if Ascii.eqb c' "}" then Some (VObj [], r')
            else JSON.parse_members fuel r []
        | EmptyString => None
        end
      else if Ascii.eqb c "[" then
        match JSON.skip_ws r with
        | String c' r' =>
            if Ascii.eqb c' "]" then Some (VArr [], r')
            else JSON.parse_elements fuel r []
        | EmptyString => None
        end
      else if Ascii.eqb c DQ then
        match JSON.parse_string_body r "" with
        | Some (x, rest) => Some (VStr x, rest)
        | None => None
        end
      else if Ascii.eqb c "t" then
        option_map (fun rest => (VBool true, rest)) (JSON.strip_prefix "true" t)
      else if Ascii.eqb c "f" then
        option_map (fun rest => (VBool false, rest)) (JSON.strip_prefix "false" t)
      else if Ascii.eqb c "n" then
        option_map (fun rest => (VNull, rest)) (JSON.strip_prefix "null" t)
      else JSON.parse_number t
  end.
Proof. reflexivity. Qed.

Lemma parse_elements_S (fuel : nat) (s : string) (acc : list value) :
  JSON.parse_elements (S fuel) s acc =
  match JSON.parse_value fuel s with
  | Some (v, r) =>
      match JSON.skip_ws r with
      | String c r' =>
          if Ascii.eqb c "," then JSON.parse_elements fuel r' (acc ++ [v])
          else if Ascii.eqb c "]" then Some (VArr (acc ++ [v]), r')
          else None
      | EmptyString => None
      end
  | None => None
  end.
Proof. reflexivity. Qed.

Lemma parse_members_S (fuel : nat) (s : string) (acc : obj) :
  JSON.parse_members (S fuel) s acc =
  match JSON.skip_ws s with
  | String c r =>
      if Ascii.eqb c DQ then
        match JSON.parse_string_body r "" with
        | Some (k, r1) =>
            match JSON.skip_ws r1 with
            | String c1 r2 =>
                if Ascii.eqb c1 ":" then
                  match JSON.parse_value fuel r2 with
                  | Some (v, r3) =>
                      match JSON.skip_ws r3 with
                      | String c3 r4 =>
                          if Ascii.eqb c3 "," then
                            JSON.parse_members fuel r4 (obj_set acc k v)
                          else if Ascii.eqb c3 "}" then
                            Some (VObj (obj_set acc k v), r4)
                          else None
                      | EmptyString => None
                      end
                  | None => None
                  end
                else None
            | EmptyString => None
            end
        | None => None
        end
      else None
  | EmptyString => None
  end.
Proof. reflexivity. Qed.





(** ** Loading from the store *)

Ltac st_simpl :=
  cbn [localStorage bc players tierMapping editingId searchInput tierFilter
       sortState table console alerts signals downloads
       set_localStorage set_bc set_players set_tierMapping set_editingId
       set_searchInput set_tierFilter set_sortState set_table set_console
       set_alerts set_signals set_downloads
       Viewer.localStorage Viewer.players Viewer.tierMapping Viewer.console
       Viewer.set_console Viewer.set_players Viewer.set_tierMapping fst snd].

Lemma editor_loadPlayers_seed (st : state) :
  match localStorage st !! STORAGE_KEY with
  | None => True
  | Some r => r = "" \/ forall l, JSON.parse r <> Ok (VArr l)
  end ->
  exists log,
    loadPlayers st =
    (Ok initialData,
     set_console (console st ++ log)
       (set_localStorage
          (<[STORAGE_KEY := JSON.stringify (VArr initialData) 0]> (localStorage st)) st)).
Proof.
  intros H. unfold loadPlayers, getItem, setItem, removeItem, console_error.
  rewrite run_try_catch, run_gets.
  destruct (localStorage st !! STORAGE_KEY) as [raw|] eqn:E.
  2: { exists []. mrun. destruct st; st_simpl. now rewrite app_nil_r. }
  destruct raw as [|c r].
  { exists []. mrun. destruct st; st_simpl. now rewrite app_nil_r. }
  destruct H as [H|H]; [discriminate|].
  exists ["Failed to load players:"].
  destruct (JSON.parse (String c r)) as [v|e] eqn:Ep; mrun.
  - destruct v; try (specialize (H elems); congruence);
      mrun; destruct st; st_simpl;
      now rewrite insert_delete_eq.
  - destruct st; st_simpl. now rewrite insert_delete_eq.
Qed.

Lemma editor_loadMapping_seed (st : state) :
  match localStorage st !! MAPPING_KEY with
  | None => True
  | Some r => r = "" \/ exists e, JSON.parse r = Throw e
  end ->
  exists log,
    loadMapping st =
    (Ok mappingDefault,
     set_console (console st ++ log)
       (set_localStorage
          (<[MAPPING_KEY := JSON.stringify (VObj mappingDefault) 0]> (localStorage st)) st)).
Proof.
  intros H. unfold loadMapping, getItem, setItem, removeItem, console_error.
  rewrite run_try_catch, run_gets.
  destruct (localStorage st !! MAPPING_KEY) as [raw|] eqn:E.
  2: { exists []. mrun. destruct st; st_simpl. now rewrite app_nil_r. }
  destruct raw as [|c r].
  { exists []. mrun. destruct st; st_simpl. now rewrite app_nil_r. }
  destruct H as [H|[e H]]; [discriminate|].
  exists ["Failed to load mapping:"]. rewrite H. mrun.
  destruct st; st_simpl. now rewrite insert_delete_eq.
Qed.

Lemma editor_loadMapping_parsed (st : state) (raw : string) (parsed : value) :
  localStorage st !! MAPPING_KEY = Some raw -> raw <> "" ->
  JSON.parse raw = Ok parsed ->
  loadMapping st = (Ok (spread_onto mappingDefault parsed), st).
Proof.
  intros E Hne Hp. unfold loadMapping, getItem.
  rewrite run_try_catch, run_gets, E.
  destruct raw as [|c r]; [contradiction|]. rewrite Hp. now mrun.
Qed.

Lemma editor_loadPlayers_parsed (st : state) (raw : string) (l : list value) :
  localStorage st !! STORAGE_KEY = Some raw -> raw <> "" ->
  JSON.parse raw = Ok (VArr l) ->
  loadPlayers st = (Ok l, st).
Proof.
  intros E Hne Hp. unfold loadPlayers, getItem.
  rewrite run_try_catch, run_gets, E.
  destruct raw as [|c r]; [contradiction|]. rewrite Hp. now mrun.
Qed.

Lemma viewer_loadPlayers_empty (vt : Viewer.state) :
  match Viewer.localStorage vt !! STORAGE_KEY with
  | None => True
  | Some r => r = "" \/ forall l, JSON.parse r <> Ok (VArr l)
  end ->
  exists log,
    Viewer.loadPlayers vt = (Ok [], Viewer.set_console (Viewer.console vt ++ log) vt).
Proof.
  intros H. unfold Viewer.loadPlayers, Viewer.getItem, Viewer.console_error.
  rewrite run_try_catch, run_gets.
  destruct (Viewer.localStorage vt !! STORAGE_KEY) as [raw|] eqn:E.
  2: { exists []. mrun. destruct vt; st_simpl. now rewrite app_nil_r. }
  destruct raw as [|c r].
  { exists []. mrun. destruct vt; st_simpl. now rewrite app_nil_r. }
  destruct H as [H|H]; [discriminate|].
  destruct (JSON.parse (String c r)) as [v|e] eqn:Ep; mrun.
  - exists []. destruct v; try (specialize (H elems); congruence);
      mrun; destruct vt; st_simpl; now rewrite app_nil_r.
  - exists ["players-view: failed reading players:"]. now destruct vt.
Qed.


Lemma viewer_loadMapping_parsed (vt : Viewer.state) (raw : string) (o : obj) :
  Viewer.localStorage vt !! MAPPING_KEY = Some raw -> raw <> "" ->
  JSON.parse raw = Ok (VObj o) ->
  Viewer.loadMapping vt = (Ok (VObj o), vt).
Proof.
  intros E Hne Hp. unfold Viewer.loadMapping, Viewer.getItem.
  rewrite run_try_catch, run_gets, E.
  destruct raw as [|c r]; [contradiction|]. rewrite Hp. now mrun.
Qed.





Lemma no_list_parse (raw : option string) :
  no_list raw ->
  match raw with
  | None => True
  | Some r => r = "" \/ forall l, JSON.parse r <> Ok (VArr l)
  end.
Proof.
  destruct raw as [r|]; [|auto]. intros [H | [H | [_ H]]]; auto.
  right. intros l Hl%parse_array_starts. congruence.
Qed.












(** The scenario of C1 in the editor: the mapping key holds {"LT5":10}
    only. *)
Example loadMapping_LT5_only :
  fst (loadMapping (editor_with {[ MAPPING_KEY := LT5_only ]})) =
  Ok [("LT5", num 10); ("HT5", num 20); ("LT4", num 30); ("HT4", num 40);
      ("LT3", num 50); ("HT3", num 60); ("LT2", num 70); ("HT2", num 80);
      ("LT1", num 90); ("HT1", num 100)].
Proof. reflexivity. Qed.


(** ** Applying the mapping *)

Lemma obj_set_fresh (o : obj) (k : string) (v : value) :
  k ∉ map fst o -> obj_set o k v = (o ++ [(k, v)])%list.
Proof.
  induction o as [|[a w] o IH]; simpl; intros H; [reflexivity|].
  apply not_elem_of_cons in H as [Hne Hin].
  destruct (String.eqb_spec a k); [congruence|]. now rewrite IH.
Qed.

Lemma spread_nodup (o : obj) :
  NoDup (map fst o) ->
  forall acc, (forall k, k ∈ map fst o -> k ∉ map fst acc) ->
  fold_left (fun a kv => obj_set a (fst kv) (snd kv)) o acc = (acc ++ o)%list.
Proof.
  induction o as [|[k v] o IH]; simpl; intros Hnd acc Hdis.
  - now rewrite app_nil_r.
  - apply NoDup_cons in Hnd as [Hk Hnd].
    rewrite obj_set_fresh by (apply Hdis; now left).
    rewrite IH; [now rewrite <- app_assoc|exact Hnd|].
    intros x Hx. rewrite map_app. simpl. intros Hin.
    apply elem_of_app in Hin as [Hin|Hin].
    + revert Hin. apply Hdis. now right.
    + apply list_elem_of_singleton in Hin as ->. contradiction.
Qed.

Lemma spread_object (o : obj) :
  NoDup (map fst o) -> spread_onto [] (VObj o) = o.
Proof.
  intros H. unfold spread_onto. simpl own_properties.
  rewrite spread_nodup; [reflexivity|exact H|].
  intros k _. apply not_elem_of_nil.
Qed.

Lemma Get_some (o : obj) (k : string) (v : value) :
  obj_get o k = Some v -> Get o k = v.
Proof. unfold Get. now intros ->. Qed.

Lemma obj_set_this (o : obj) (k : string) (v : value) :
  obj_get (obj_set o k v) k = Some v.
Proof. rewrite obj_get_set. now rewrite String.eqb_refl. Qed.

Lemma obj_set_other (o : obj) (k : string) (v : value) (k' : string) :
  k' <> k -> obj_get (obj_set o k v) k' = obj_get o k'.
Proof.
  intros H. rewrite obj_get_set. destruct (String.eqb_spec k k'); congruence.
Qed.

Lemma with_mapped_points_tiered (tm : obj) (p : value) :
  mapping_numeric tm -> tiered p ->
  exists q, with_mapped_points tm p = Ok q /\ mapped tm p q.
Proof.
  intros Hm (o & t & -> & Hnd & Ht). unfold with_mapped_points.
  rewrite spread_object by exact Hnd.
  unfold field. rewrite (Get_some o "tier" (VStr t) Ht), !res_bind_Ok.
  simpl ToString. rewrite res_bind_Ok. unfold Get.
  destruct (obj_get tm t) as [v|] eqn:Ev.
  - destruct (Hm t v Ev) as [n ->]. unfold coalesce. simpl.
    eexists; split; [reflexivity|]. exists o, t, (obj_set o "points" (VNum n)), n.
    split; [reflexivity|]. split; [exact Ht|]. split; [reflexivity|].
    split; [apply obj_set_other|]. split; [apply obj_set_this|]. split.
    + intros v0 H0. rewrite Ev in H0. now injection H0 as <-.
    + intros H0. rewrite Ev in H0. discriminate.
  - destruct (inherited t) eqn:Ei; unfold coalesce; simpl.
    + eexists; split; [reflexivity|]. exists o, t, (obj_set o "points" (VNum NaN)), NaN.
      split; [reflexivity|]. split; [exact Ht|]. split; [reflexivity|].
      split; [apply obj_set_other|]. split; [apply obj_set_this|]. split.
      * intros v0 H0. rewrite Ev in H0. discriminate.
      * intros _. now rewrite Ei.
    + eexists; split; [reflexivity|]. exists o, t, (obj_set o "points" (num 0)), (Fin 0).
      split; [reflexivity|]. split; [exact Ht|]. split; [reflexivity|].
      split; [apply obj_set_other|]. split; [apply obj_set_this|]. split.
      * intros v0 H0. rewrite Ev in H0. discriminate.
      * intros _. now rewrite Ei.
Qed.

Lemma apply_commit (ps : list value) (msg : string) (s : state) :
  let s' := snd ((modify (set_players ps);; savePlayers;; applyFiltersAndRender;;
                  alert msg) s) in
  players s' = ps /\
  localStorage s' = <[STORAGE_KEY := JSON.stringify (VArr ps) 0]> (localStorage s).
Proof.
  cbv zeta. rewrite run_modify, run_bind, savePlayers_run, run_bind.
  pose proof (applyFiltersAndRender_view (players_saved (set_players ps s))) as Hv.
  destruct (applyFiltersAndRender (players_saved (set_players ps s))) as [[[]|e] s2];
    simpl in Hv; destruct Hv as (tf & tb & ->); unfold alert; mrun;
    now destruct s.
Qed.

Lemma mapM_Forall2 {A B} (f : A -> res B) (P : A -> Prop) (R : A -> B -> Prop)
    (l : list A) :
  (forall x, P x -> exists y, f x = Ok y /\ R x y) ->
  Forall P l -> exists l', mapM f l = Ok l' /\ Forall2 R l l'.
Proof.
  intros Hf. induction 1 as [|x l Hx _ (l' & IH & HR)]; simpl.
  - eexists; split; [reflexivity|constructor].
  - destruct (Hf x Hx) as (y & -> & Hy). rewrite IH. simpl.
    eexists; split; [reflexivity|]. now constructor.
Qed.

(** On a list of records with tiers and a mapping of numbers: applying
    the mapping to all players sets the points of every record from the
    mapping, whatever they were; applying it to empty only does so for the
    records whose points are zero or empty and leaves every other record
    as it is.  Both store the new list; declining the confirmation of the
    first changes nothing. *)
Lemma apply_mapping (st : state) :
  Forall tiered (players st) ->
  mapping_numeric (tierMapping st) ->
  let tm := tierMapping st in
  let all := snd (applyMappingToAllPlayers true st) in
  let emp := snd (applyMappingToEmptyPlayers st) in
  Forall2 (mapped tm) (players st) (players all) /\
  localStorage all =
    <[STORAGE_KEY := JSON.stringify (VArr (players all)) 0]> (localStorage st) /\
  Forall2 (fun p q => if has_points p then q = p else mapped tm p q)
          (players st) (players emp) /\
  localStorage emp =
    <[STORAGE_KEY := JSON.stringify (VArr (players emp)) 0]> (localStorage st) /\
  snd (applyMappingToAllPlayers false st) = st.
Proof.
  intros Ht Hm. cbv zeta.
  destruct (mapM_Forall2 (with_mapped_points (tierMapping st)) tiered
              (mapped (tierMapping st)) (players st)) as (ps1 & E1 & F1);
    [intros x Hx; now apply with_mapped_points_tiered|exact Ht|].
  destruct (mapM_Forall2
              (fun p => q ← field p "points";
                        if truthy q then Ok p else with_mapped_points (tierMapping st) p)
              tiered
              (fun p q => if has_points p then q = p else mapped (tierMapping st) p q)
              (players st)) as (ps2 & E2 & F2); [|exact Ht|].
  { intros x Hx. pose proof Hx as (o & t & -> & _ & _).
    unfold field, has_points. rewrite res_bind_Ok.
    destruct (truthy (Get o "points")); [eauto|].
    now apply with_mapped_points_tiered. }
  assert (A1 : applyMappingToAllPlayers true st =
               (modify (set_players ps1);; savePlayers;; applyFiltersAndRender;;
                alert "Applied mapping to all players.") st).
  { unfold applyMappingToAllPlayers. cbn [negb]. now rewrite !run_gets, E1, run_lift_Ok. }
  assert (A2 : applyMappingToEmptyPlayers st =
               (modify (set_players ps2);; savePlayers;; applyFiltersAndRender;;
                alert "Applied mapping to players with empty/zero points.") st).
  { unfold applyMappingToEmptyPlayers. now rewrite !run_gets, E2, run_lift_Ok. }
  rewrite A1, A2.
  destruct (apply_commit ps1 "Applied mapping to all players." st) as [-> ->].
  destruct (apply_commit ps2 "Applied mapping to players with empty/zero points." st)
    as [-> ->].
  repeat split; assumption.
Qed.

Lemma is_record_tiered (p : value) : is_record p -> tiered p.
Proof.
  intros (r & n & t & q & ->). eexists _, t. split; [reflexivity|].
  split; [|reflexivity]. simpl.
  apply (bool_decide_unpack _). vm_compute. exact I.
Qed.

Lemma mappingDefault_numeric : mapping_numeric mappingDefault.
Proof.
  intros k v. unfold mappingDefault. cbn [obj_get].
  repeat (destruct (String.eqb _ k); [intros [= <-]; unfold num; eauto|]).
  discriminate.
Qed.

(** C8 fails in the code.  The tier of a record is free text, and the
    mapping is read with [tierMapping[p.tier]], which finds the members
    every object inherits.  For a record whose tier is the text
    constructor, which the mapping has no value for, applying the mapping
    to all players sets the points to NaN, not to a value of the mapping
    and not to the 0 that [?? 0] is there to give; applying it to empty
    only does the same to a record without points whose tier is toString.
    The list is stored with null for those points, and that is what the
    next load returns. *)
Theorem apply_mapping_inherited_tier :
  let all := snd (applyMappingToAllPlayers true inherited_tiers) in
  let emp := snd (applyMappingToEmptyPlayers inherited_tiers) in
  obj_get (tierMapping inherited_tiers) "constructor" = None /\
  obj_get (tierMapping inherited_tiers) "toString" = None /\
  players all =
    [player (num 1) (VStr "Ann") (VStr "constructor") (VNum NaN);
     player (num 2) (VStr "Bob") (VStr "toString") (VNum NaN)] /\
  players emp =
    [player (num 1) (VStr "Ann") (VStr "constructor") (num 5);
     player (num 2) (VStr "Bob") (VStr "toString") (VNum NaN)] /\
  localStorage all !! STORAGE_KEY =
    Some (JSON.stringify
            (VArr [player (num 1) (VStr "Ann") (VStr "constructor") VNull;
                   player (num 2) (VStr "Bob") (VStr "toString") VNull]) 0) /\
  fst (loadPlayers all) =
    Ok [player (num 1) (VStr "Ann") (VStr "constructor") VNull;
        player (num 2) (VStr "Bob") (VStr "toString") VNull].
Proof. vm_compute. repeat split. Qed.

(** What the two actions give on that list: all points from the mapping,
    or only the zero ones. *)
Example apply_mapping_example :
  let st := set_players [player (num 1) (VStr "a") (VStr "HT1") (num 5);
                         player (num 2) (VStr "b") (VStr "LT5") (num 0)] blank in
  players (snd (applyMappingToAllPlayers true st)) =
    [player (num 1) (VStr "a") (VStr "HT1") (num 100);
     player (num 2) (VStr "b") (VStr "LT5") (num 10)] /\
  players (snd (applyMappingToEmptyPlayers st)) =
    [player (num 1) (VStr "a") (VStr "HT1") (num 5);
     player (num 2) (VStr "b") (VStr "LT5") (num 10)].
Proof. split; vm_compute; reflexivity. Qed.

(** ** The row actions *)












(** The drawn table is sorted by rank, so the second Ann, last in the
    list, is drawn in the second row; Edit and Delete on that row act on
    the first Ann, at position 0. *)
Example click_row_twins :
  table twins = [row_of 1 "Ann" "HT1" 100; row_of 1 "Ann" "HT1" 100;
                 row_of 2 "Bob" "LT2" 70] /\
  editingId (snd (click_row Edit 1 true twins)) = Some 0%nat /\
  players (snd (click_row Delete 1 true twins)) =
    [player (num 2) (VStr "Bob") (VStr "LT2") (num 70);
     player (num 1) (VStr "Ann") (VStr "HT1") (num 100)].
Proof. repeat split; vm_compute; reflexivity. Qed.

(** ** The form handler *)


Section SortSorted.
Variable cmp : value -> value -> res number.
Variable key : value -> Z.
Let le (a b : value) : Prop := (key a <= key b)%Z.


End SortSorted.

Lemma filter_all {A} (f : A -> bool) (l : list A) :
  Forall (fun x => f x = true) l -> filter (fun x => f x) l = l.
Proof.
  induction 1 as [|x l Hx _ IH]; [reflexivity|].
  rewrite filter_cons, decide_True by now rewrite Hx. now rewrite IH.
Qed.

Lemma filter_none {A} (f : A -> bool) (l : list A) :
  Forall (fun x => f x = false) l -> filter (fun x => f x) l = [].
Proof.
  induction 1 as [|x l Hx _ IH]; [reflexivity|].
  rewrite filter_cons, decide_False by now rewrite Hx. exact IH.
Qed.











(** The list that submission stores. *)
Example submit_example :
  players (snd (submit {| pRank := "2"; pName := " Zed "; pTier := "LT4"; pPoints := "" |}
                       (set_players initialData blank))) =
  [player (num 1) (VStr "XxPvPProxX") (VStr "HT1") (num 100);
   player (num 2) (VStr "SharpBlade") (VStr "LT2") (num 70);
   player (num 2) (VStr "Zed") (VStr "LT4") (num 30);
   player (num 3) (VStr "NoobSlayer") (VStr "LT5") (num 10)].
Proof. vm_compute. reflexivity. Qed.


(** ** JSON: what is written is read back *)

Lemma length_app (a b : string) :
  String.length (a ++ b) = (String.length a + String.length b)%nat.
Proof. induction a as [|c a IH]; simpl; [reflexivity|]. now rewrite IH. Qed.

Lemma parse_string_body_char (c : ascii) (rest acc : string) :
  JSON.parse_string_body (JSON.quote_char c ++ rest) acc =
  JSON.parse_string_body rest (acc ++ str c).
Proof.
  destruct c as [[] [] [] [] [] [] [] []]; reflexivity.
Qed.

Lemma parse_string_body_quote (s rest acc : string) :
  JSON.parse_string_body (JSON.quote_body s ++ String DQ rest) acc =
  Some (acc ++ s, rest).
Proof.
  revert acc. induction s as [|c s IH]; intros acc; simpl.
  - now rewrite append_nil_r.
  - rewrite append_assoc, parse_string_body_char, IH, append_str_cons.
    reflexivity.
Qed.

Lemma parse_quoted (s rest : string) :
  JSON.parse_string_body (JSON.quote_body s ++ str DQ ++ rest) "" = Some (s, rest).
Proof. apply (parse_string_body_quote s rest ""). Qed.

Lemma skip_ws_app (ws s : string) :
  all_ws ws = true -> JSON.skip_ws (ws ++ s) = JSON.skip_ws s.
Proof.
  induction ws as [|c ws IH]; simpl; [reflexivity|].
  intros [Hc Hws]%andb_prop. rewrite Hc. auto.
Qed.

Lemma parse_value_ws (fuel : nat) (ws s : string) :
  all_ws ws = true -> JSON.parse_value fuel (ws ++ s) = JSON.parse_value fuel s.
Proof.
  intros H. destruct fuel as [|fuel]; [reflexivity|].
  now rewrite !parse_value_S, skip_ws_app.
Qed.


Lemma span_digits_uint (u : uint) (rest : string) :
  match rest with String c _ => JSON.is_digit c = false | EmptyString => True end ->
  JSON.span_digits (NilEmpty.string_of_uint u ++ rest) =
  (NilEmpty.string_of_uint u, rest).
Proof.
  intros Hrest. induction u; simpl; rewrite ?IHu; try reflexivity.
  destruct rest as [|c r]; [reflexivity|]. simpl. now rewrite Hrest.
Qed.

Lemma to_uint_head (p : positive) :
  exists c r, NilEmpty.string_of_uint (Pos.to_uint p) = String c r /\
              Ascii.eqb c "0" = false /\ Ascii.eqb c "-" = false.
Proof.
  pose proof (DecimalPos.Unsigned.to_uint_nonnil p) as Hnil.
  pose proof (DecimalPos.Unsigned.to_uint_nonzero p) as Hz.
  pose proof (DecimalPos.Unsigned.to_of (Pos.to_uint p)) as Hn.
  rewrite DecimalPos.Unsigned.of_to in Hn. simpl in Hn.
  assert (H0 : forall d, Pos.to_uint p <> D0 d).
  { intros d E. rewrite E in Hn, Hz. unfold unorm in Hn. simpl nzhead in Hn.
    destruct (nzhead d) eqn:En;
      try (symmetry in Hn; rewrite <- En in Hn;
           exact (DecimalFacts.nzhead_nonzero _ _ Hn)).
    apply Hz. exact Hn. }
  destruct (Pos.to_uint p) as [|d|d|d|d|d|d|d|d|d|d]; try contradiction;
    try (eexists _, _; repeat split; reflexivity).
  now destruct (H0 d).
Qed.

Lemma ends_value_not_digit (rest : string) :
  ends_value rest ->
  match rest with String c _ => JSON.is_digit c = false | EmptyString => True end.
Proof. destruct rest; [trivial|]. now intros [H _]. Qed.

Lemma ends_value_check (rest : string) :
  ends_value rest ->
  match rest with
  | String x _ => Ascii.eqb x "." || Ascii.eqb x "e" || Ascii.eqb x "E"
  | EmptyString => false
  end = false.
Proof. destruct rest; [trivial|]. now intros (_ & -> & -> & ->). Qed.

Lemma NilZero_NilEmpty (u : uint) :
  u <> Nil -> NilZero.string_of_uint u = NilEmpty.string_of_uint u.
Proof. now destruct u. Qed.

Lemma digits_to_uint (p : positive) :
  digits (NilEmpty.string_of_uint (Pos.to_uint p)) = Some (Z.pos p).
Proof.
  rewrite <- NilZero_NilEmpty by apply DecimalPos.Unsigned.to_uint_nonnil.
  rewrite digits_uint. unfold Z.of_uint.
  now rewrite DecimalPos.Unsigned.of_to.
Qed.

(** After its digits, an unsigned literal without leading zero. *)
Lemma parse_unsigned (p : positive) (neg : bool) (rest : string) :
  ends_value rest ->
  (let (d, rest') := JSON.span_digits (NilEmpty.string_of_uint (Pos.to_uint p) ++ rest) in
   match d with
   | EmptyString => None
   | String c d' =>
       if Ascii.eqb c "0" && negb (is_empty d') then None
       else if match rest' with
               | String x _ => Ascii.eqb x "." || Ascii.eqb x "e" || Ascii.eqb x "E"
               | EmptyString => false
               end then None
       else match digits d with
            | Some z => Some (VNum (Fin (if neg then - z else z)), rest')
            | None => None
            end
   end) = Some (VNum (Fin (if neg then Z.neg p else Z.pos p)), rest).
Proof.
  intros Hrest.
  rewrite span_digits_uint by now apply ends_value_not_digit.
  pose proof (digits_to_uint p) as Hd.
  destruct (to_uint_head p) as (c & r & E & Hc & _). rewrite E in *.
  rewrite Hc. cbn [andb]. rewrite (ends_value_check rest Hrest), Hd.
  now destruct neg.
Qed.

Lemma parse_number_print (z : Z) (rest : string) :
  ends_value rest ->
  JSON.parse_number (NumberToString (Fin z) ++ rest) = Some (num z, rest).
Proof.
  intros Hrest. unfold JSON.parse_number, NumberToString, Z.to_int.
  destruct z as [|p|p].
  - change (NilZero.string_of_int (Pos zero)) with "0".
    change ("0" ++ rest) with (String "0" rest). cbn [Ascii.eqb Bool.eqb].
    change (JSON.span_digits (String "0" rest))
      with (let (d, r) := JSON.span_digits rest in (String "0" d, r)).
    assert (E : JSON.span_digits rest = ("", rest)).
    { destruct rest as [|c r]; [reflexivity|]. simpl.
      destruct Hrest as [-> _]. reflexivity. }
    rewrite E. cbn [is_empty negb andb Ascii.eqb Bool.eqb].
    now rewrite (ends_value_check rest Hrest).
  - simpl NilZero.string_of_int.
    rewrite NilZero_NilEmpty by apply DecimalPos.Unsigned.to_uint_nonnil.
    destruct (to_uint_head p) as (c & r & E & _ & Hm).
    rewrite E. simpl String.append. cbv iota. rewrite Hm.
    change (String c (r ++ rest)) with (String c r ++ rest).
    rewrite <- E. apply (parse_unsigned p false rest Hrest).
  - simpl NilZero.string_of_int.
    rewrite NilZero_NilEmpty by apply DecimalPos.Unsigned.to_uint_nonnil.
    simpl String.append. cbn [Ascii.eqb Bool.eqb].
    apply (parse_unsigned p true rest Hrest).
Qed.

Lemma number_head (z : Z) :
  exists c r, NumberToString (Fin z) = String c r /\
              (Ascii.eqb c "-" = true \/ JSON.is_digit c = true).
Proof.
  unfold NumberToString, Z.to_int. destruct z as [|p|p].
  - eexists _, _. split; [reflexivity|]. now right.
  - simpl. rewrite NilZero_NilEmpty by apply DecimalPos.Unsigned.to_uint_nonnil.
    pose proof (DecimalPos.Unsigned.to_uint_nonnil p).
    destruct (Pos.to_uint p); try contradiction;
      (eexists _, _; split; [reflexivity|]; now right).
  - eexists _, _. split; [reflexivity|]. now left.
Qed.

Lemma number_char (c : ascii) :
  Ascii.eqb c "-" = true \/ JSON.is_digit c = true ->
  JSON.is_json_ws c = false /\
  Ascii.eqb c "{" = false /\ Ascii.eqb c "[" = false /\ Ascii.eqb c DQ = false /\
  Ascii.eqb c "t" = false /\ Ascii.eqb c "f" = false /\ Ascii.eqb c "n" = false /\
  Ascii.eqb c "]" = false /\ Ascii.eqb c "}" = false.
Proof.
  destruct c as [[] [] [] [] [] [] [] []]; vm_compute; intros [H|H];
    try discriminate; repeat split.
Qed.

Lemma skip_ws_token (c : ascii) (r : string) :
  JSON.is_json_ws c = false -> JSON.skip_ws (String c r) = String c r.
Proof. intros H. simpl. now rewrite H. Qed.

Lemma all_spaces_ws (s : string) : all_spaces s = true -> all_ws s = true.
Proof.
  induction s as [|c s IH]; simpl; [reflexivity|].
  intros [Hc Hs]%andb_prop. apply Ascii.eqb_eq in Hc as ->. now rewrite IH.
Qed.

Lemma all_ws_app (a b : string) :
  all_ws a = true -> all_ws b = true -> all_ws (a ++ b) = true.
Proof.
  induction a as [|c a IH]; simpl; [trivial|].
  intros [Hc Ha]%andb_prop Hb. now rewrite Hc, IH.
Qed.

Lemma all_spaces_app (a b : string) :
  all_spaces a = true -> all_spaces b = true -> all_spaces (a ++ b) = true.
Proof.
  induction a as [|c a IH]; simpl; [trivial|].
  intros [Hc Ha]%andb_prop Hb. now rewrite Hc, IH.
Qed.

Lemma before_member_ws (gap indent : string) :
  all_spaces gap = true -> all_spaces indent = true ->
  all_ws (before_member gap indent) = true.
Proof.
  intros Hg Hi. unfold before_member. destruct (is_empty gap); [reflexivity|].
  apply (all_ws_app (str LF)); [reflexivity|].
  apply all_spaces_ws. now apply all_spaces_app.
Qed.

Lemma before_close_ws (gap indent : string) :
  all_spaces indent = true -> all_ws (before_close gap indent) = true.
Proof.
  intros Hi. unfold before_close. destruct (is_empty gap); [reflexivity|].
  apply (all_ws_app (str LF)); [reflexivity|]. now apply all_spaces_ws.
Qed.

(** The text of a bracketed body with members. *)
Lemma wrap_members (open close gap indent p : string) (ps : list string) :
  JSON.wrap open close gap indent (p :: ps) =
  open ++ before_member gap indent
       ++ JSON.join_with ("," ++ before_member gap indent) (p :: ps)
       ++ before_close gap indent ++ close.
Proof.
  unfold JSON.wrap, before_member, before_close.
  destruct (is_empty gap); [reflexivity|].
  now rewrite !append_assoc.
Qed.

Lemma serialize_clean (gap indent : string) (v : value) :
  json_clean v -> JSON.serialize gap indent v = Some (text gap indent v).
Proof.
  intros H. unfold text. destruct H as [|[]| | | |]; reflexivity.
Qed.

Lemma text_arr (gap indent : string) (l : list value) :
  text gap indent (VArr l) =
  JSON.wrap "[" "]" gap indent (map (text gap (indent ++ gap)) l).
Proof. reflexivity. Qed.

Lemma text_obj (gap indent : string) (o : obj) :
  Forall (fun kv => json_clean (snd kv)) o ->
  text gap indent (VObj o) =
  JSON.wrap "{" "}" gap indent (map (member_text gap indent) o).
Proof.
  intros H. unfold text. cbn [JSON.serialize]. f_equal.
  induction H as [|[k x] o Hx _ IH]; [reflexivity|].
  cbn [omap list_omap map]. cbn [snd] in Hx.
  rewrite (serialize_clean gap (indent ++ gap) x Hx). cbn [fst snd].
  unfold member_text at 1. cbn [fst snd]. f_equal. exact IH.
Qed.

Lemma vsize_pos (v : value) : (1 <= vsize v)%nat.
Proof. destruct v; simpl; lia. Qed.

Lemma vsize_elements (l : list value) :
  Forall (fun x => (vsize x <= list_sum (map vsize l))%nat) l.
Proof.
  induction l as [|x l IH]; constructor; simpl; [lia|].
  eapply Forall_impl; [exact IH|]. simpl. intros. lia.
Qed.

Lemma vsize_members (o : obj) :
  Forall (fun kv : string * value =>
            (vsize (snd kv) <= list_sum (map (fun kv => vsize (snd kv)) o))%nat) o.
Proof.
  induction o as [|x l IH]; constructor; simpl; [lia|].
  eapply Forall_impl; [exact IH|]. simpl. intros. lia.
Qed.

Lemma text_head (gap indent : string) (v : value) :
  json_clean v -> exists c r, text gap indent v = String c r /\ token_start c.
Proof.
  intros H. destruct H as [|b|z|s|l Hl|o Hn Ho].
  - eexists _, _. split; [reflexivity|]. now repeat split.
  - destruct b; eexists _, _; (split; [reflexivity|]); now repeat split.
  - destruct (number_head z) as (c & r & E & Hc). exists c, r. split; [exact E|].
    destruct (number_char c Hc) as (? & ? & ? & ? & ? & ? & ? & ? & ?).
    now repeat split.
  - eexists _, _. split; [reflexivity|]. now repeat split.
  - rewrite text_arr. destruct l as [|x l].
    + eexists _, _. split; [reflexivity|]. now repeat split.
    + cbn [map]. rewrite wrap_members.
      eexists _, _. split; [reflexivity|]. now repeat split.
  - rewrite (text_obj gap indent o Ho). destruct o as [|x o].
    + eexists _, _. split; [reflexivity|]. now repeat split.
    + cbn [map]. rewrite wrap_members.
      eexists _, _. split; [reflexivity|]. now repeat split.
Qed.

Lemma text_nonempty (gap indent : string) (v : value) :
  json_clean v -> (1 <= String.length (text gap indent v))%nat.
Proof.
  intros H. destruct (text_head gap indent v H) as (c & r & -> & _). simpl. lia.
Qed.

Lemma ends_value_close (gap indent : string) (c : ascii) (r : string) :
  ends_value (String c r) -> ends_value (before_close gap indent ++ String c r).
Proof.
  intros H. unfold before_close. destruct (is_empty gap); [exact H|].
  now repeat split.
Qed.

Lemma members_text_cons (pre a b tail : string) (l : list string) :
  pre ++ JSON.join_with ("," ++ pre) (a :: b :: l) ++ tail =
  pre ++ a ++ String "," (pre ++ JSON.join_with ("," ++ pre) (b :: l) ++ tail).
Proof. rewrite join_with_cons. now rewrite !append_assoc. Qed.

Lemma member_text_app (gap indent k : string) (x : value) (tail : string) :
  member_text gap indent (k, x) ++ tail =
  String DQ (JSON.quote_body k ++ str DQ
     ++ String ":" ((if is_empty gap then "" else " ")
                      ++ text gap (indent ++ gap) x ++ tail)).
Proof.
  unfold member_text, JSON.quote. cbn [fst snd].
  rewrite !append_assoc.
  match goal with
  | |- String DQ ?a ++ ?y = _ => change (String DQ a ++ y) with (String DQ (a ++ y))
  end.
  now rewrite !append_assoc.
Qed.

Lemma sp_ws (gap : string) : all_ws (if is_empty gap then "" else " ") = true.
Proof. now destruct (is_empty gap). Qed.

Lemma sp_length (gap : string) (s : string) :
  (String.length s <= String.length ((if is_empty gap then "" else " ") ++ s))%nat.
Proof. destruct (is_empty gap); simpl; lia. Qed.

Section RoundTrip.
Variable gap : string.
Hypothesis Hgap : all_spaces gap = true.
Variable n : nat.
Hypothesis IH : roundtrip_at gap n.

Lemma parse_elements_text (indent : string) (l : list value) :
  all_spaces indent = true ->
  Forall json_clean l -> Forall (fun x => (vsize x <= n)%nat) l ->
  forall (x : value) (acc : list value) (rest : string) (fuel : nat),
    json_clean x -> (vsize x <= n)%nat ->
    (2 * String.length
           (before_member gap indent
              ++ JSON.join_with ("," ++ before_member gap indent)
                   (map (text gap (indent ++ gap)) (x :: l))
              ++ before_close gap indent ++ String "]" rest) + 3 <= fuel)%nat ->
    JSON.parse_elements fuel
      (before_member gap indent
         ++ JSON.join_with ("," ++ before_member gap indent)
              (map (text gap (indent ++ gap)) (x :: l))
         ++ before_close gap indent ++ String "]" rest) acc
    = Some (VArr (acc ++ x :: l), rest).
Proof.
  intros Hi Hl Hs.
  assert (Hin : all_spaces (indent ++ gap) = true) by now apply all_spaces_app.
  pose proof (before_member_ws gap indent Hgap Hi) as Hpre.
  pose proof (before_close_ws gap indent Hi) as Hpost.
  induction l as [|y l IHl]; intros x acc rest fuel Hx Hsx Hf.
  - cbn [map JSON.join_with] in *.
    destruct fuel as [|f]; [lia|].
    rewrite parse_elements_S, parse_value_ws by exact Hpre.
    rewrite (IH x Hsx Hx (indent ++ gap)
               (before_close gap indent ++ String "]" rest) f Hin).
    + rewrite skip_ws_app by exact Hpost. reflexivity.
    + apply ends_value_close. now repeat split.
    + rewrite length_app in Hf. lia.
  - apply Forall_cons in Hl as [Hy Hl]. apply Forall_cons in Hs as [Hsy Hs].
    change (map (text gap (indent ++ gap)) (x :: y :: l))
      with (text gap (indent ++ gap) x :: text gap (indent ++ gap) y
              :: map (text gap (indent ++ gap)) l) in *.
    rewrite members_text_cons in *.
    change (text gap (indent ++ gap) y :: map (text gap (indent ++ gap)) l)
      with (map (text gap (indent ++ gap)) (y :: l)) in *.
    destruct fuel as [|f]; [lia|].
    rewrite parse_elements_S, parse_value_ws by exact Hpre.
    pose proof (text_nonempty gap (indent ++ gap) x Hx) as Hne.
    rewrite !length_app in Hf. cbn [String.length] in Hf.
    rewrite (IH x Hsx Hx (indent ++ gap) _ f Hin).
    + rewrite skip_ws_token by reflexivity.
      change (Ascii.eqb "," ",") with true. cbv iota.
      rewrite (IHl Hl Hs y (acc ++ [x])%list rest f Hy Hsy).
      * now rewrite <- app_assoc.
      * lia.
    + now repeat split.
    + rewrite !length_app. cbn [String.length]. lia.
Qed.

Lemma parse_members_text (indent : string) (o : obj) :
  all_spaces indent = true ->
  Forall (fun kv => json_clean (snd kv)) o ->
  Forall (fun kv : string * value => (vsize (snd kv) <= n)%nat) o ->
  forall (k : string) (x : value) (acc : obj) (rest : string) (fuel : nat),
    json_clean x -> (vsize x <= n)%nat ->
    NoDup (map fst (acc ++ (k, x) :: o)) ->
    (2 * String.length
           (before_member gap indent
              ++ JSON.join_with ("," ++ before_member gap indent)
                   (map (member_text gap indent) ((k, x) :: o))
              ++ before_close gap indent ++ String "}" rest) + 3 <= fuel)%nat ->
    JSON.parse_members fuel
      (before_member gap indent
         ++ JSON.join_with ("," ++ before_member gap indent)
              (map (member_text gap indent) ((k, x) :: o))
         ++ before_close gap indent ++ String "}" rest) acc
    = Some (VObj (acc ++ (k, x) :: o), rest).
Proof.
  intros Hi Hl Hs.
  assert (Hin : all_spaces (indent ++ gap) = true) by now apply all_spaces_app.
  pose proof (before_member_ws gap indent Hgap Hi) as Hpre.
  pose proof (before_close_ws gap indent Hi) as Hpost.
  induction o as [|[k' y] o IHo]; intros k x acc rest fuel Hx Hsx Hnd Hf.
  - cbn [map JSON.join_with] in *.
    destruct fuel as [|f]; [lia|].
    rewrite member_text_app in *.
    rewrite parse_members_S, skip_ws_app by exact Hpre.
    rewrite skip_ws_token by reflexivity.
    change (Ascii.eqb DQ DQ) with true. cbv iota.
    rewrite parse_quoted. rewrite skip_ws_token by reflexivity.
    change (Ascii.eqb ":" ":") with true. cbv iota.
    rewrite parse_value_ws by apply sp_ws.
    rewrite !length_app in Hf. cbn [String.length] in Hf.
    rewrite !length_app in Hf. cbn [String.length] in Hf.
    pose proof (sp_length gap
      (text gap (indent ++ gap) x ++ before_close gap indent ++ String "}" rest)) as Hsp.
    rewrite (IH x Hsx Hx (indent ++ gap)
               (before_close gap indent ++ String "}" rest) f Hin).
    + rewrite skip_ws_app by exact Hpost.
      rewrite skip_ws_token by reflexivity.
      change (Ascii.eqb "}" ",") with false.
      change (Ascii.eqb "}" "}") with true. cbv iota.
      rewrite obj_set_fresh; [reflexivity|].
      rewrite map_app in Hnd. apply NoDup_app in Hnd as (_ & Hd & _).
      intros Hk. apply (Hd k Hk). now left.
    + apply ends_value_close. now repeat split.
    + lia.
  - apply Forall_cons in Hl as [Hy Hl]. apply Forall_cons in Hs as [Hsy Hs].
    cbn [snd] in Hy, Hsy.
    change (map (member_text gap indent) ((k, x) :: (k', y) :: o))
      with (member_text gap indent (k, x) :: member_text gap indent (k', y)
              :: map (member_text gap indent) o) in *.
    rewrite members_text_cons in *.
    change (member_text gap indent (k', y) :: map (member_text gap indent) o)
      with (map (member_text gap indent) ((k', y) :: o)) in *.
    destruct fuel as [|f]; [lia|].
    rewrite member_text_app in *.
    rewrite parse_members_S, skip_ws_app by exact Hpre.
    rewrite skip_ws_token by reflexivity.
    change (Ascii.eqb DQ DQ) with true. cbv iota.
    rewrite parse_quoted. rewrite skip_ws_token by reflexivity.
    change (Ascii.eqb ":" ":") with true. cbv iota.
    rewrite parse_value_ws by apply sp_ws.
    pose proof (text_nonempty gap (indent ++ gap) x Hx) as Hne.
    rewrite !length_app in Hf. cbn [String.length] in Hf.
    rewrite !length_app in Hf. cbn [String.length] in Hf.
    rewrite !length_app in Hf. cbn [String.length] in Hf.
    match goal with
    | |- context [JSON.parse_value f (text gap (indent ++ gap) x ++ ?r)] =>
        rewrite (IH x Hsx Hx (indent ++ gap) r f Hin)
    end.
    + rewrite skip_ws_token by reflexivity.
      change (Ascii.eqb "," ",") with true. cbv iota.
      assert (Hfresh : k ∉ map fst acc).
      { rewrite map_app in Hnd. apply NoDup_app in Hnd as (_ & Hd & _).
        intros Hk. apply (Hd k Hk). now left. }
      rewrite (obj_set_fresh acc k x Hfresh).
      rewrite (IHo Hl Hs k' y (acc ++ [(k, x)])%list rest f Hy Hsy).
      * now rewrite <- app_assoc.
      * now rewrite <- app_assoc.
      * lia.
    + now repeat split.
    + rewrite !length_app. cbn [String.length].
      destruct (is_empty gap); cbn [String.length] in *; lia.
Qed.

End RoundTrip.

Lemma skip_ws_members (pre sep a tail : string) (l : list string) (c : ascii) (r : string) :
  all_ws pre = true -> a = String c r -> JSON.is_json_ws c = false ->
  exists r', JSON.skip_ws (pre ++ JSON.join_with sep (a :: l) ++ tail) = String c r'.
Proof.
  intros Hpre -> Hc. rewrite skip_ws_app by exact Hpre.
  destruct l as [|b l].
  - exists (r ++ tail). cbn [JSON.join_with].
    change (String c r ++ tail) with (String c (r ++ tail)).
    now apply skip_ws_token.
  - exists (r ++ sep ++ JSON.join_with sep (b :: l) ++ tail).
    rewrite join_with_cons, !append_assoc.
    change (String c r ++ ?t) with (String c (r ++ t)).
    now apply skip_ws_token.
Qed.

Lemma roundtrip_all (gap : string) (n : nat) :
  all_spaces gap = true -> roundtrip_at gap n.
Proof.
  intros Hgap. induction n as [|n IH].
  - intros v Hv. pose proof (vsize_pos v). lia.
  - intros v Hv Hc indent rest fuel Hi Hrest Hf.
    destruct fuel as [|f]; [lia|].
    destruct Hc as [|b|z|s|l Hl|o Hn Ho].
    + reflexivity.
    + destruct b; reflexivity.
    + rewrite parse_value_S.
      destruct (number_head z) as (c & r & E & Hc).
      destruct (number_char c Hc) as (Hw & H1 & H2 & H3 & H4 & H5 & H6 & _).
      unfold text. cbn [JSON.serialize]. rewrite E.
      change (String c r ++ rest) with (String c (r ++ rest)).
      rewrite skip_ws_token by exact Hw.
      rewrite H1, H2, H3, H4, H5, H6.
      change (String c (r ++ rest)) with (String c r ++ rest).
      rewrite <- E. now apply parse_number_print.
    + rewrite parse_value_S. unfold text. cbn [JSON.serialize]. unfold JSON.quote.
      change (String DQ (JSON.quote_body s ++ str DQ) ++ rest)
        with (String DQ ((JSON.quote_body s ++ str DQ) ++ rest)).
      rewrite append_assoc, skip_ws_token by reflexivity.
      change (Ascii.eqb DQ "{") with false. change (Ascii.eqb DQ "[") with false.
      change (Ascii.eqb DQ DQ) with true. cbv iota.
      now rewrite parse_quoted.
    + rewrite text_arr in *. destruct l as [|x l]; [reflexivity|].
      apply Forall_cons in Hl as [Hx Hl].
      pose proof (vsize_elements (x :: l)) as Hs.
      cbn [vsize] in Hv. remember (list_sum (map vsize (x :: l))) as total.
      apply Forall_cons in Hs as [Hsx Hs].
      assert (Hs' : Forall (fun y => (vsize y <= n)%nat) l).
      { eapply Forall_impl; [exact Hs|]. intros y Hy. cbv beta in Hy. lia. }
      change (map (text gap (indent ++ gap)) (x :: l))
        with (text gap (indent ++ gap) x :: map (text gap (indent ++ gap)) l) in *.
      rewrite wrap_members in *.
      change (text gap (indent ++ gap) x :: map (text gap (indent ++ gap)) l)
        with (map (text gap (indent ++ gap)) (x :: l)) in *.
      rewrite !append_assoc in *.
      change ("[" ++ ?t) with (String "[" t) in *.
      change ("]" ++ rest) with (String "]" rest) in *.
      rewrite parse_value_S, skip_ws_token by reflexivity.
      change (Ascii.eqb "[" "{") with false. change (Ascii.eqb "[" "[") with true.
      cbv iota.
      destruct (text_head gap (indent ++ gap) x Hx) as (c & r & E & Hw & Hb & _).
      destruct (skip_ws_members (before_member gap indent)
                  ("," ++ before_member gap indent) (text gap (indent ++ gap) x)
                  (before_close gap indent ++ String "]" rest)
                  (map (text gap (indent ++ gap)) l) c r) as [r' Er'];
        [now apply before_member_ws|exact E|exact Hw|].
      change (map (text gap (indent ++ gap)) (x :: l))
        with (text gap (indent ++ gap) x :: map (text gap (indent ++ gap)) l) in *.
      rewrite Er', Hb.
      cbn [String.length] in Hf.
      apply (parse_elements_text gap Hgap n IH indent l Hi Hl Hs' x [] rest f Hx);
        [lia|].
      change (map (text gap (indent ++ gap)) (x :: l))
        with (text gap (indent ++ gap) x :: map (text gap (indent ++ gap)) l).
      lia.
    + rewrite (text_obj gap indent o Ho) in *. destruct o as [|[k x] o]; [reflexivity|].
      apply Forall_cons in Ho as [Hx Ho]. cbn [snd] in Hx.
      pose proof (vsize_members ((k, x) :: o)) as Hs.
      cbn [vsize] in Hv.
      remember (list_sum (map (fun kv : string * value => vsize (snd kv)) ((k, x) :: o)))
        as total.
      apply Forall_cons in Hs as [Hsx Hs]. cbn [snd] in Hsx.
      assert (Hs' : Forall (fun kv : string * value => (vsize (snd kv) <= n)%nat) o).
      { eapply Forall_impl; [exact Hs|]. intros y Hy. cbv beta in Hy. lia. }
      change (map (member_text gap indent) ((k, x) :: o))
        with (member_text gap indent (k, x) :: map (member_text gap indent) o) in *.
      rewrite wrap_members in *.
      rewrite !append_assoc in *.
      change ("{" ++ ?t) with (String "{" t) in *.
      change ("}" ++ rest) with (String "}" rest) in *.
      rewrite parse_value_S, skip_ws_token by reflexivity.
      change (Ascii.eqb "{" "{") with true. cbv iota.
      destruct (skip_ws_members (before_member gap indent)
                  ("," ++ before_member gap indent) (member_text gap indent (k, x))
                  (before_close gap indent ++ String "}" rest)
                  (map (member_text gap indent) o) DQ
                  (JSON.quote_body k ++ str DQ ++ ":"
                     ++ (if is_empty gap then "" else " ")
                     ++ text gap (indent ++ gap) x)) as [r' Er'];
        [now apply before_member_ws| |reflexivity|].
      { unfold member_text, JSON.quote. cbn [fst snd].
        match goal with
        | |- String DQ ?a ++ ?y = _ => change (String DQ a ++ y) with (String DQ (a ++ y))
        end.
        now rewrite !append_assoc. }
      rewrite Er'. change (Ascii.eqb DQ "}") with false. cbv iota.
      cbn [String.length] in Hf.
      apply (parse_members_text gap Hgap n IH indent o Hi Ho Hs' k x [] rest f Hx);
        [lia|exact Hn|].
      change (map (member_text gap indent) ((k, x) :: o))
        with (member_text gap indent (k, x) :: map (member_text gap indent) o).
      lia.
Qed.

(** ** Export, then import *)

Lemma all_spaces_repeat (n : nat) :
  all_spaces (string_of_list_ascii (repeat " "%char n)) = true.
Proof. induction n as [|n IH]; simpl; auto. Qed.

Lemma stringify_clean (v : value) (n : nat) :
  json_clean v ->
  JSON.stringify v n = text (string_of_list_ascii (repeat " "%char n)) "" v.
Proof. intros H. unfold JSON.stringify. now rewrite serialize_clean. Qed.

(** [JSON.parse(JSON.stringify(v, null, n))] is [v], for a clean [v]. *)
Lemma parse_stringify (v : value) (n : nat) :
  json_clean v -> JSON.parse (JSON.stringify v n) = Ok v.
Proof.
  intros H. rewrite stringify_clean by exact H. unfold JSON.parse.
  set (gap := string_of_list_ascii (repeat " "%char n)).
  pose proof (roundtrip_all gap (vsize v) (all_spaces_repeat n) v (le_n _) H
                "" "" (2 * String.length (text gap "" v) + 2) eq_refl I) as Hp.
  rewrite append_nil_r in Hp. rewrite Hp by lia. reflexivity.
Qed.

Lemma is_record_clean (v : value) : is_record v -> json_clean v.
Proof.
  intros (r & n & t & p & ->). apply clean_obj.
  - apply (bool_decide_unpack _). vm_compute. exact I.
  - repeat constructor.
Qed.









(** * Further properties of the code *)

(** ** What is saved is what is loaded *)

Lemma stringify_nonempty (v : value) (n : nat) :
  json_clean v -> JSON.stringify v n <> "".
Proof.
  intros H. rewrite stringify_clean by exact H.
  destruct (text_head (string_of_list_ascii (repeat " "%char n)) "" v H)
    as (c & r & -> & _).
  discriminate.
Qed.

Lemma viewer_loadPlayers_parsed (vt : Viewer.state) (raw : string) (l : list value) :
  Viewer.localStorage vt !! STORAGE_KEY = Some raw -> raw <> "" ->
  JSON.parse raw = Ok (VArr l) ->
  Viewer.loadPlayers vt = (Ok l, vt).
Proof.
  intros Hraw Hne Hp. unfold Viewer.loadPlayers.
  rewrite run_try_catch. unfold Viewer.getItem. rewrite run_gets, Hraw.
  destruct raw; [contradiction|]. now rewrite Hp.
Qed.

(** The list the editor saves is the list a later load returns, in the
    editor and in the viewer, and neither load changes the store. *)
Theorem saved_players_load_back (st : state) (vt : Viewer.state) :
  Forall json_clean (players st) ->
  let st1 := snd (savePlayers st) in
  loadPlayers st1 = (Ok (players st), st1) /\
  (Viewer.localStorage vt = localStorage st1 ->
   Viewer.loadPlayers vt = (Ok (players st), vt)).
Proof.
  intros H. cbv zeta. rewrite savePlayers_run. cbn [snd].
  assert (Hc : json_clean (VArr (players st))) by now apply clean_arr.
  pose proof (parse_stringify (VArr (players st)) 0 Hc) as Hp.
  pose proof (stringify_nonempty (VArr (players st)) 0 Hc) as Hne.
  assert (Hs : localStorage (players_saved st) !! STORAGE_KEY
               = Some (JSON.stringify (VArr (players st)) 0)).
  { destruct st. unfold players_saved. st_simpl. apply lookup_insert_eq. }
  split.
  - now apply (editor_loadPlayers_parsed _ _ _ Hs Hne).
  - intros Hv. rewrite <- Hv in Hs.
    exact (viewer_loadPlayers_parsed vt _ _ Hs Hne Hp).
Qed.

Lemma initialData_records : Forall is_record initialData.
Proof.
  unfold initialData.
  repeat (constructor; [eexists _, _, _, _; vm_compute; reflexivity|]). constructor.
Qed.

Lemma records_clean (l : list value) : Forall is_record l -> Forall json_clean l.
Proof. intros H. eapply Forall_impl; [exact H|exact is_record_clean]. Qed.

Lemma saved_players_load_back_witness :
  let st := set_players initialData blank in
  Forall json_clean (players st) /\
  loadPlayers (snd (savePlayers st)) = (Ok (players st), snd (savePlayers st)).
Proof.
  assert (H : Forall json_clean (players (set_players initialData blank)))
    by exact (records_clean _ initialData_records).
  split; [exact H|].
  apply (saved_players_load_back (set_players initialData blank) (viewer_with ∅) H).
Defined.

Lemma saveMapping_run (s : state) : saveMapping s = (Ok tt, mapping_saved s).
Proof.
  unfold saveMapping, mapping_saved, setItem, emit.
  destruct s as [ls [|] ps tm e si tf ss tb c a sg d];
    unfold mbind, M_bind, gets, modify, mret, M_ret; simpl;
    now rewrite <- ?app_assoc.
Qed.

Lemma mappingDefault_keys (k : string) :
  k ∈ TIER_ORDER \/ obj_get mappingDefault k = None.
Proof.
  unfold mappingDefault, TIER_ORDER. cbn [obj_get].
  repeat match goal with
  | |- context [String.eqb ?a k] =>
      destruct (String.eqb_spec a k) as [<-|_]; [left; repeat constructor|]
  end.
  now right.
Qed.

Lemma obj_has_get (o : obj) (k : string) :
  obj_has o k = true -> exists v, obj_get o k = Some v.
Proof. unfold obj_has. destruct (obj_get o k); [eauto|discriminate]. Qed.

(** The mapping the editor saves is the mapping a later load returns:
    the editor reads back every entry, the viewer the object itself. *)
Theorem saved_mapping_load_back (st : state) (vt : Viewer.state) :
  json_clean (VObj (tierMapping st)) ->
  Forall (fun t => obj_has (tierMapping st) t = true) TIER_ORDER ->
  let st1 := snd (saveMapping st) in
  (exists m, loadMapping st1 = (Ok m, st1) /\
             forall k, obj_get m k = obj_get (tierMapping st) k) /\
  (Viewer.localStorage vt = localStorage st1 ->
   Viewer.loadMapping vt = (Ok (VObj (tierMapping st)), vt)).
Proof.
  intros Hc Hall. cbv zeta. rewrite saveMapping_run. cbn [snd].
  pose proof (parse_stringify _ 0 Hc) as Hp.
  pose proof (stringify_nonempty _ 0 Hc) as Hne.
  assert (Hs : localStorage (mapping_saved st) !! MAPPING_KEY
               = Some (JSON.stringify (VObj (tierMapping st)) 0)).
  { destruct st. unfold mapping_saved. st_simpl. apply lookup_insert_eq. }
  split.
  - eexists. split; [exact (editor_loadMapping_parsed _ _ _ Hs Hne Hp)|].
    intros k. unfold spread_onto. cbn [own_properties].
    inversion Hc as [| | | | |o Hnd Hcl]; subst.
    rewrite (spread_get _ _ k Hnd).
    replace (tierMapping (mapping_saved st)) with (tierMapping st)
      by now destruct st.
    destruct (obj_get (tierMapping st) k) eqn:E; [reflexivity|].
    destruct (mappingDefault_keys k) as [Hk|Hk]; [|exact Hk].
    rewrite Forall_forall in Hall. apply Hall, obj_has_get in Hk as [v Hv].
    congruence.
  - intros Hv. rewrite <- Hv in Hs.
    exact (viewer_loadMapping_parsed vt _ _ Hs Hne Hp).
Qed.

Lemma saved_mapping_load_back_witness :
  json_clean (VObj (tierMapping blank)) /\
  Forall (fun t => obj_has (tierMapping blank) t = true) TIER_ORDER /\
  exists m, loadMapping (snd (saveMapping blank)) = (Ok m, snd (saveMapping blank)) /\
            forall k, obj_get m k = obj_get (tierMapping blank) k.
Proof.
  assert (Hc : json_clean (VObj (tierMapping blank))).
  { apply clean_obj.
    - apply (bool_decide_unpack _). vm_compute. exact I.
    - repeat (constructor; [apply clean_num|]). constructor. }
  assert (Hall : Forall (fun t => obj_has (tierMapping blank) t = true) TIER_ORDER).
  { repeat (constructor; [reflexivity|]). constructor. }
  split; [exact Hc|]. split; [exact Hall|].
  apply (saved_mapping_load_back blank (viewer_with ∅) Hc Hall).
Defined.

(** ** Clearing the list *)

Lemma applyFiltersAndRender_empty (s : state) :
  players s = [] -> applyFiltersAndRender s = (Ok tt, set_table [] s).
Proof.
  intros H. unfold applyFiltersAndRender.
  rewrite !run_gets, H.
  destruct (is_empty (toLowerCase (trim (searchInput s))));
    destruct (is_empty (tierFilter s)); mrun; cbn [filterM]; mrun;
    unfold array_sort; cbn [filter sort_defined]; reflexivity.
Qed.

Lemma populateTierFilter_empty (s : state) :
  players s = [] -> populateTierFilter s = (Ok tt, set_tierFilter "" s).
Proof. intros H. apply populateTierFilter_records. rewrite H. constructor. Qed.

(** Clearing the list, once confirmed, empties the list and the table and
    stores the empty list; the next load finds it and does not bring the
    example players back.  Declined, it changes nothing. *)
Theorem clear_all_stays_cleared (st : state) :
  let st1 := snd (clear_all true st) in
  fst (clear_all true st) = Ok tt /\
  players st1 = [] /\ table st1 = [] /\
  localStorage st1 = <[STORAGE_KEY := "[]"]> (localStorage st) /\
  signals st1 = signals (players_saved st) /\
  loadPlayers st1 = (Ok [], st1) /\
  clear_all false st = (Ok tt, st).
Proof.
  cbv zeta.
  assert (E : clear_all true st =
              (Ok tt, set_table [] (set_tierFilter ""
                        (players_saved (set_players [] st))))).
  { unfold clear_all. cbn [negb]. rewrite run_modify, run_bind, savePlayers_run.
    rewrite run_bind, populateTierFilter_empty by now destruct st.
    apply applyFiltersAndRender_empty. now destruct st. }
  rewrite E. cbn [fst snd].
  assert (Hs : localStorage (set_table [] (set_tierFilter ""
                 (players_saved (set_players [] st))))
               = <[STORAGE_KEY := "[]"]> (localStorage st)) by now destruct st.
  repeat split; try now destruct st.
  apply (editor_loadPlayers_parsed _ "[]" []); [|discriminate|reflexivity].
  rewrite Hs. apply lookup_insert_eq.
Qed.

(** ** Loading twice *)

Lemma no_list_cases (raw : option string) :
  match raw with
  | None => True
  | Some r => r = "" \/ forall l, JSON.parse r <> Ok (VArr l)
  end \/
  exists r l, raw = Some r /\ r <> "" /\ JSON.parse r = Ok (VArr l).
Proof.
  destruct raw as [r|]; [|now left].
  destruct r as [|c r]; [left; now left|].
  destruct (JSON.parse (String c r)) as [v|e] eqn:E.
  - destruct v; try (left; right; intros l; congruence).
    right. eexists _, _. repeat split; [discriminate|exact E].
  - left. right. intros l. congruence.
Qed.

Lemma no_value_cases (raw : option string) :
  match raw with
  | None => True
  | Some r => r = "" \/ exists e, JSON.parse r = Throw e
  end \/
  exists r v, raw = Some r /\ r <> "" /\ JSON.parse r = Ok v.
Proof.
  destruct raw as [r|]; [|now left].
  destruct r as [|c r]; [left; now left|].
  destruct (JSON.parse (String c r)) as [v|e] eqn:E.
  - right. eexists _, _. repeat split; [discriminate|exact E].
  - left. right. now exists e.
Qed.

(** Loading is idempotent in the editor: a second load returns what the
    first returned and leaves the state, the store included, as the first
    left it, whatever the store held before. *)
Theorem editor_load_twice (st : state) :
  (exists l, fst (loadPlayers st) = Ok l /\
             loadPlayers (snd (loadPlayers st)) = (Ok l, snd (loadPlayers st))) /\
  (exists m, fst (loadMapping st) = Ok m /\
             loadMapping (snd (loadMapping st)) = (Ok m, snd (loadMapping st))).
Proof.
  split.
  - destruct (no_list_cases (localStorage st !! STORAGE_KEY))
      as [Hno|(r & l & Hr & Hne & Hp)].
    + destruct (editor_loadPlayers_seed st Hno) as [log ->].
      exists initialData. split; [reflexivity|]. cbn [snd].
      apply (editor_loadPlayers_parsed _ (JSON.stringify (VArr initialData) 0)).
      * destruct st. st_simpl. apply lookup_insert_eq.
      * discriminate.
      * apply parse_stringify, clean_arr, records_clean, initialData_records.
    + rewrite (editor_loadPlayers_parsed st r l Hr Hne Hp).
      exists l. split; [reflexivity|]. cbn [snd].
      exact (editor_loadPlayers_parsed st r l Hr Hne Hp).
  - destruct (no_value_cases (localStorage st !! MAPPING_KEY))
      as [Hno|(r & v & Hr & Hne & Hp)].
    + destruct (editor_loadMapping_seed st Hno) as [log ->].
      exists mappingDefault. split; [reflexivity|]. cbn [snd].
      apply (editor_loadMapping_parsed _ (JSON.stringify (VObj mappingDefault) 0)
               (VObj mappingDefault)).
      * destruct st. st_simpl. apply lookup_insert_eq.
      * discriminate.
      * vm_compute. reflexivity.
    + rewrite (editor_loadMapping_parsed st r v Hr Hne Hp).
      eexists. split; [reflexivity|]. cbn [snd].
      exact (editor_loadMapping_parsed st r v Hr Hne Hp).
Qed.

(** ** Escaping *)

Lemma markup_free_app (a b : string) :
  markup_free (a ++ b) = markup_free a && markup_free b.
Proof.
  induction a as [|c a IH]; [reflexivity|].
  change (String c a ++ b) with (String c (a ++ b)).
  cbn [markup_free]. rewrite IH. now rewrite !andb_assoc.
Qed.

Lemma markup_free_escape_char (c : ascii) : markup_free (escape_char c) = true.
Proof. destruct c as [[] [] [] [] [] [] [] []]; reflexivity. Qed.

Lemma markup_free_escape_text (s : string) : markup_free (escape_text s) = true.
Proof.
  induction s as [|c s IH]; [reflexivity|].
  now rewrite escape_text_cons, markup_free_app, markup_free_escape_char, IH.
Qed.

(** What [escapeHtml] returns holds no [<], no [>] and no double quote,
    whatever the value; and the text of a cell drawn from it is the text
    that was escaped (a text without CR and NUL, which the parser
    rewrites). *)
Theorem escapeHtml_no_markup (v : value) (s : string) :
  escapeHtml v = Ok s ->
  markup_free s = true /\
  (forall t, v = VStr t -> html_safe t = true -> html_text s = t).
Proof.
  intros H. split.
  - unfold escapeHtml in H.
    destruct v; try (injection H as <-; reflexivity);
      (destruct (ToString _) as [t|] eqn:E; cbn in H; [|discriminate];
       injection H as <-; apply markup_free_escape_text).
  - intros t -> Ht. cbn in H. injection H as <-. now apply html_text_escape.
Qed.

Lemma escapeHtml_no_markup_witness :
  escapeHtml (VStr "<b>Tom & Jerry</b>") = Ok "&lt;b&gt;Tom &amp; Jerry&lt;/b&gt;" /\
  markup_free "&lt;b&gt;Tom &amp; Jerry&lt;/b&gt;" = true /\
  html_text "&lt;b&gt;Tom &amp; Jerry&lt;/b&gt;" = "<b>Tom & Jerry</b>".
Proof.
  split; [reflexivity|].
  destruct (escapeHtml_no_markup (VStr "<b>Tom & Jerry</b>")
              "&lt;b&gt;Tom &amp; Jerry&lt;/b&gt;" eq_refl) as [H1 H2].
  split; [exact H1|]. apply (H2 _ eq_refl). reflexivity.
Defined.

(** ** Elements that are not objects *)

Lemma mapping_points_number (tm : obj) (t : string) :
  mapping_numeric tm -> inherited t = false ->
  exists n, ToNumber (coalesce (Get tm t) (num 0)) = Ok n /\
            or_val (VNum n) (num 0) = num (mapping_points tm t).
Proof.
  intros Hm Hi. unfold Get, mapping_points.
  destruct (obj_get tm t) as [v|] eqn:E.
  - destruct (Hm t v E) as [n ->]. exists n. split; [reflexivity|].
    destruct n as [|z]; [reflexivity|]. apply or_val_num_fin.
  - rewrite Hi. exists (Fin 0). split; reflexivity.
Qed.

(** An element that is null or undefined makes the normalizer throw; any
    other element that is not an object (a number, a text, a boolean, an
    array) has none of the fields and becomes the record Unknown, of rank
    0 and no tier, with the points the mapping holds for the empty tier. *)
Theorem normalizePlayer_not_object (tm : obj) (x : value) :
  mapping_numeric tm ->
  (nullish x = true -> exists e, normalizePlayer tm x = Throw e) /\
  (json_clean x -> nullish x = false -> (forall o, x <> VObj o) ->
   normalizePlayer tm x =
   Ok (player (num 0) (VStr "Unknown") (VStr "") (num (mapping_points tm "")))).
Proof.
  intros Hm. split.
  - destruct x; try discriminate; intros _; eexists; reflexivity.
  - intros Hc Hn Ho.
    destruct (mapping_points_number tm "" Hm eq_refl) as (n & Hn1 & Hn2).
    assert (E : normalizePlayer tm x =
                (pn ← ToNumber (coalesce (Get tm "") (num 0));
                 Ok (player (num 0) (VStr "Unknown") (VStr "")
                            (or_val (VNum pn) (num 0))))).
    { destruct Hc; try discriminate; try reflexivity.
      now destruct (Ho o). }
    rewrite E, Hn1. cbn. now rewrite Hn2.
Qed.

Lemma normalizePlayer_not_object_witness :
  mapping_numeric mappingDefault /\
  (exists e, normalizePlayer mappingDefault VNull = Throw e) /\
  normalizePlayer mappingDefault (VArr [num 1; VStr "a"]) =
  Ok (player (num 0) (VStr "Unknown") (VStr "") (num 0)).
Proof.
  split; [exact mappingDefault_numeric|].
  destruct (normalizePlayer_not_object mappingDefault VNull mappingDefault_numeric)
    as [H1 _].
  destruct (normalizePlayer_not_object mappingDefault (VArr [num 1; VStr "a"])
              mappingDefault_numeric) as [_ H2].
  split; [exact (H1 eq_refl)|].
  apply H2; [|reflexivity|discriminate].
  apply clean_arr. repeat constructor.
Defined.

(** ** CSV files *)

Lemma lower_char_idem (c : ascii) : lower_char (lower_char c) = lower_char c.
Proof. destruct c as [[] [] [] [] [] [] [] []]; reflexivity. Qed.

Lemma is_ws_lower_char (c : ascii) : is_ws (lower_char c) = is_ws c.
Proof. destruct c as [[] [] [] [] [] [] [] []]; reflexivity. Qed.

Lemma toLowerCase_idem (s : string) : toLowerCase (toLowerCase s) = toLowerCase s.
Proof.
  induction s as [|c s IH]; [reflexivity|].
  cbn [toLowerCase]. now rewrite lower_char_idem, IH.
Qed.

Lemma trimStart_lower (s : string) :
  trimStart (toLowerCase s) = toLowerCase (trimStart s).
Proof.
  induction s as [|c s IH]; [reflexivity|].
  cbn [toLowerCase trimStart]. rewrite is_ws_lower_char.
  destruct (is_ws c); [exact IH|reflexivity].
Qed.

Lemma trimEnd_lower (s : string) :
  trimEnd (toLowerCase s) = toLowerCase (trimEnd s).
Proof.
  induction s as [|c s IH]; [reflexivity|].
  cbn [toLowerCase trimEnd]. rewrite IH, is_ws_lower_char.
  destruct (trimEnd s); cbn [toLowerCase]; [|reflexivity].
  now destruct (is_ws c).
Qed.

Lemma trim_lower (s : string) : trim (toLowerCase s) = toLowerCase (trim s).
Proof. unfold trim. now rewrite trimStart_lower, trimEnd_lower. Qed.

Lemma assign_get (o : obj) (h k : string) (x v : value) :
  obj_get (assign o h x) k = Some v ->
  obj_get o k = Some v \/ (k = h /\ v = x).
Proof.
  unfold assign. destruct (String.eqb h "__proto__"); [now left|].
  rewrite obj_get_set. destruct (String.eqb_spec h k) as [<-|_]; [|now left].
  intros [= <-]. now right.
Qed.

Lemma fill_row_get (headers vals : list string) (o : obj) (k : string) (v : value) :
  obj_get (fill_row headers vals o) k = Some v ->
  obj_get o k = Some v \/ (k ∈ headers /\ exists s, v = VStr s).
Proof.
  revert vals o. induction headers as [|h hs IH]; intros vals o H; [now left|].
  assert (Hstep : forall x, obj_get (fill_row hs (tail vals) (assign o h (VStr x))) k
                            = Some v ->
                  obj_get o k = Some v \/ (k ∈ h :: hs /\ exists s, v = VStr s)).
  { intros x Hx. destruct (IH _ _ Hx) as [Ha|[Hin Hs]].
    - destruct (assign_get _ _ _ _ _ Ha) as [Ho|[-> ->]]; [now left|].
      right. split; [left|now exists x].
    - right. split; [now right|exact Hs]. }
  destruct vals as [|x vs]; cbn [fill_row] in H; eapply Hstep; exact H.
Qed.

Lemma parseCSV_keys (text : string) (r : obj) (k : string) (v : value) :
  r ∈ parseCSV text -> obj_get r k = Some v ->
  toLowerCase k = k /\ trim k = k /\ exists s, v = VStr s.
Proof.
  unfold parseCSV. destruct (filter _ (split_lines text)) as [|first others].
  { intros H. inversion H. }
  intros Hr Hk. apply list_elem_of_fmap in Hr as (line & -> & _).
  apply fill_row_get in Hk as [Hk|[Hin Hs]]; [discriminate|].
  apply list_elem_of_fmap in Hin as (h & -> & _).
  rewrite toLowerCase_idem, trim_lower, trim_idempotent. now repeat split.
Qed.

(** The rows [parseCSV] returns have keys in lower case without white
    space around them, and texts for values.  So of the spellings the
    import looks a column up under, only the lower-case ones can be there:
    a header Rank or RANK fills [rank], and the name comes from the column
    name or else player, the points from points or else score. *)
Theorem parseCSV_lowercase_keys (text : string) (r : obj) :
  r ∈ parseCSV text ->
  (forall k v, obj_get r k = Some v ->
     toLowerCase k = k /\ trim k = k /\ exists s, v = VStr s) /\
  csv_record r =
    player (Get r "rank") (coalesce (Get r "name") (Get r "player"))
           (Get r "tier") (coalesce (Get r "points") (Get r "score")).
Proof.
  intros Hr. split; [intros k v Hk; exact (parseCSV_keys text r k v Hr Hk)|].
  assert (Hup : forall k, toLowerCase k <> k -> inherited k = false ->
                          Get r k = VUndefined).
  { intros k Hk Hi. unfold Get. rewrite Hi.
    destruct (obj_get r k) as [v|] eqn:E; [|reflexivity].
    destruct (parseCSV_keys text r k v Hr E) as [Hl _]. contradiction. }
  assert (Hlow : forall k, inherited k = false ->
                           Get r k = VUndefined \/ exists s, Get r k = VStr s).
  { intros k Hi. unfold Get. rewrite Hi.
    destruct (obj_get r k) as [v|] eqn:E; [|now left].
    destruct (parseCSV_keys text r k v Hr E) as (_ & _ & s & ->). right. now exists s. }
  unfold csv_record.
  rewrite (Hup "Rank"), (Hup "RANK"), (Hup "Name"), (Hup "NAME"), (Hup "Tier"),
    (Hup "TIER"), (Hup "Points"), (Hup "POINTS")
    by first [reflexivity | vm_compute; discriminate].
  assert (Hco : forall a, (a = VUndefined \/ exists s, a = VStr s) ->
                          coalesce a VUndefined = a).
  { intros a [->|[s ->]]; reflexivity. }
  rewrite !(Hco (Get r "rank")), !(Hco (Get r "name")), !(Hco (Get r "tier")),
    !(Hco (Get r "points")) by (apply Hlow; reflexivity).
  reflexivity.
Qed.

Lemma parseCSV_lowercase_keys_witness :
  let r := [("rank", VStr "1"); ("name", VStr "Bob"); ("score", VStr "5")] in
  r ∈ parseCSV csv_capitals /\
  csv_record r = player (VStr "1") (VStr "Bob") VUndefined (VStr "5").
Proof.
  assert (H : [("rank", VStr "1"); ("name", VStr "Bob"); ("score", VStr "5")]
              ∈ parseCSV csv_capitals) by (vm_compute; constructor).
  split; [exact H|].
  destruct (parseCSV_lowercase_keys csv_capitals _ H) as [_ E].
  rewrite E. reflexivity.
Defined.

Lemma parseCSV_few_lines (text : string) :
  (length (nonblank_lines text) <= 1)%nat -> parseCSV text = [].
Proof.
  unfold parseCSV, nonblank_lines.
  destruct (filter _ (split_lines text)) as [|first [|second others]];
    cbn [length]; intros H; [reflexivity|reflexivity|lia].
Qed.

(** A file read as CSV that has no line, or the header line only, holds
    no record: importing it succeeds and replaces the list with the empty
    list, which is stored. *)
Theorem import_csv_without_rows (st : state) (f : File) :
  is_json_name f = false ->
  (length (nonblank_lines (file_text f)) <= 1)%nat ->
  let st' := snd (importDataFromFile (Some f) st) in
  fst (importDataFromFile (Some f) st) = Ok tt /\
  players st' = [] /\
  localStorage st' = <[STORAGE_KEY := "[]"]> (localStorage st) /\
  alerts st' = (alerts st ++ [import_success_alert])%list.
Proof.
  intros Hname Hlines. unfold is_json_name in Hname. cbv zeta.
  destruct (import_commit [] st (List.Forall_nil _)) as (tf & tb & Hc).
  assert (E : importDataFromFile (Some f) st =
              (Ok tt, set_alerts (alerts st ++ [import_success_alert])
                 (set_tierFilter tf (set_table tb (players_saved (set_players [] st)))))).
  { unfold importDataFromFile. rewrite run_try_catch, run_gets, Hname.
    cbv iota zeta. rewrite (parseCSV_few_lines _ Hlines). cbn [mapM].
    rewrite run_bind_assoc, run_lift_Ok.
    match goal with |- context [match ?x with _ => _ end] =>
      assert (Hx : x = (Ok tt, set_alerts (alerts st ++ [import_success_alert])
         (set_tierFilter tf (set_table tb (players_saved (set_players [] st))))))
        by exact Hc; rewrite Hx end.
    reflexivity. }
  rewrite E. cbn [fst snd]. repeat split; now destruct st.
Qed.

Lemma import_csv_without_rows_witness :
  let f := {| file_name := "players.csv"; file_text := "rank,name,tier,points" |} in
  let st := set_players initialData blank in
  is_json_name f = false /\
  (length (nonblank_lines (file_text f)) <= 1)%nat /\
  players (snd (importDataFromFile (Some f) st)) = [].
Proof.
  assert (H1 : is_json_name {| file_name := "players.csv";
                               file_text := "rank,name,tier,points" |} = false)
    by reflexivity.
  assert (H2 : (length (nonblank_lines "rank,name,tier,points") <= 1)%nat)
    by (vm_compute; lia).
  split; [exact H1|]. split; [exact H2|].
  apply (import_csv_without_rows (set_players initialData blank) _ H1 H2).
Defined.

Lemma split_lines_crlf (s cur : string) :
  no_cr s = true -> split_lines_from (crlf s) cur = split_lines_from s cur.
Proof.
  revert cur. induction s as [|c s IH]; intros cur H; [reflexivity|].
  cbn [no_cr] in H. apply andb_prop in H as [Hc Hs].
  unfold crlf in *. cbn [replace_char].
  destruct (Ascii.eqb c LF) eqn:El.
  - apply Ascii.eqb_eq in El as ->.
    change (split_lines_from (String CR (String LF (replace_char LF (String CR (str LF)) s))) cur
            = split_lines_from (String LF s) cur).
    cbn [split_lines_from].
    change (Ascii.eqb CR LF) with false. change (Ascii.eqb CR CR) with true.
    change (Ascii.eqb LF LF) with true. cbv iota.
    now rewrite IH.
  - change (str c ++ ?x) with (String c x).
    cbn [split_lines_from]. rewrite El.
    apply negb_true_iff in Hc. rewrite Hc.
    apply IH, Hs.
Qed.

(** A CSV text reads the same with Windows line ends as with Unix ones:
    writing every line feed of a text without carriage returns as carriage
    return, line feed does not change the rows. *)
Theorem parseCSV_crlf (text : string) :
  no_cr text = true -> parseCSV (crlf text) = parseCSV text.
Proof.
  intros H. unfold parseCSV, split_lines. now rewrite split_lines_crlf.
Qed.

Lemma parseCSV_crlf_witness :
  no_cr csv_capitals = true /\
  parseCSV (crlf csv_capitals) =
    [[("rank", VStr "1"); ("name", VStr "Bob"); ("score", VStr "5")]].
Proof.
  split; [reflexivity|].
  rewrite (parseCSV_crlf csv_capitals eq_refl). reflexivity.
Defined.

(** ** The table drawn *)

Lemma leb_trans (x y z : string) :
  String.leb x y = true -> String.leb y z = true -> String.leb x z = true.
Proof.
  intros H1%Is_true_true H2%Is_true_true. apply Is_true_true.
  exact (transitivity (R := String.le) H1 H2).
Qed.

Lemma ltb_leb (x y : string) : String.ltb x y = true -> String.leb x y = true.
Proof. unfold String.ltb, String.leb. now destruct (String.compare x y). Qed.

Lemma not_ltb_leb (x y : string) : String.ltb x y = false -> String.leb y x = true.
Proof.
  unfold String.ltb, String.leb. rewrite (String.compare_antisym y x).
  now destruct (String.compare x y).
Qed.

Section SortOrder.
Variable cmp : value -> value -> res number.
Variable R : value -> value -> Prop.
Variable P : value -> Prop.
Hypothesis R_trans : forall x y z, P x -> P y -> P z -> R x y -> R y z -> R x z.
Hypothesis cmp_R : forall x y, P x -> P y ->
  exists n, cmp x y = Ok n /\
            match n with
            | Fin z => if (0 <? z)%Z then R y x else R x y
            | NaN => R x y
            end.
Hypothesis P_defined : forall x, P x -> is_undefined x = false.

Lemma sort_insert_ordered (x : value) (l : list value) :
  P x -> Forall P l -> StronglySorted R l ->
  exists l', sort_insert cmp x l = Ok l' /\ Permutation l' (x :: l) /\
             StronglySorted R l'.
Proof.
  intros Hx Hl Hs. induction Hs as [|y l Hs IH Hy]; cbn [sort_insert].
  - exists [x]. repeat split; [|repeat constructor]. reflexivity.
  - apply Forall_cons in Hl as [Py Pl].
    destruct (cmp_R x y Hx Py) as (n & -> & Hn). cbn.
    assert (Hstop : R x y -> exists l', Ok (x :: y :: l) = Ok l' /\
                      Permutation l' (x :: y :: l) /\ StronglySorted R l').
    { intros Hxy. exists (x :: y :: l). repeat split; [reflexivity|].
      constructor; [now constructor|]. constructor; [exact Hxy|].
      rewrite Forall_forall in Hy, Pl. apply Forall_forall. intros z Hz.
      apply (R_trans x y z); auto. }
    destruct n as [|z]; [now apply Hstop|].
    destruct (0 <? z)%Z; [|now apply Hstop].
    destruct (IH Pl) as (l' & -> & HP & Hs'). cbn.
    exists (y :: l'). split; [reflexivity|]. split.
    + rewrite HP. apply perm_swap.
    + constructor; [exact Hs'|]. rewrite HP. now constructor.
Qed.

Lemma sort_defined_ordered (l : list value) :
  Forall P l ->
  exists l', sort_defined cmp l = Ok l' /\ Permutation l' l /\ StronglySorted R l'.
Proof.
  induction 1 as [|x l Hx Hl (l' & E & HP & Hs)]; cbn [sort_defined].
  - exists []. repeat split; [reflexivity|constructor].
  - rewrite E. cbn.
    destruct (sort_insert_ordered x l' Hx) as (l2 & -> & HP2 & Hs2);
      [now rewrite HP|exact Hs|].
    exists l2. repeat split; [|exact Hs2]. now rewrite HP2, HP.
Qed.

Lemma array_sort_ordered (l : list value) :
  Forall P l ->
  exists l', array_sort cmp l = Ok l' /\ Permutation l' l /\ StronglySorted R l'.
Proof.
  intros Hl. unfold array_sort.
  assert (Hu : Forall (fun v => is_undefined v = false) l).
  { eapply Forall_impl; [exact Hl|exact P_defined]. }
  rewrite (filter_none _ l Hu).
  rewrite (filter_all (fun v => negb (is_undefined v)) l).
  2: { eapply Forall_impl; [exact Hu|]. intros v ->. reflexivity. }
  destruct (sort_defined_ordered l Hl) as (l' & -> & HP & Hs). cbn.
  exists l'. now rewrite app_nil_r.
Qed.
End SortOrder.

Lemma filterM_filter (pred : value -> res bool) (f : value -> bool) (l : list value) :
  Forall (fun x => pred x = Ok (f x)) l ->
  filterM pred l = Ok (filter (fun x => f x) l).
Proof.
  induction 1 as [|x l Hx _ IH]; [reflexivity|].
  cbn [filterM]. rewrite Hx, IH, filter_cons.
  now destruct (f x).
Qed.

Lemma filter_true {A} (l : list A) : filter (fun _ => true) l = l.
Proof.
  induction l as [|x l IH]; [reflexivity|]. rewrite filter_cons.
  destruct (decide _) as [_|n]; [now rewrite IH|]. exfalso. apply n. exact I.
Qed.

Lemma filter_filter_bool {A} (f g : A -> bool) (l : list A) :
  filter (fun x => g x) (filter (fun x => f x) l) = filter (fun x => f x && g x) l.
Proof.
  induction l as [|x l IH]; [reflexivity|].
  rewrite !filter_cons. destruct (f x) eqn:Ef; cbn [andb].
  - change (decide (Is_true true)) with (@left True (~ True) I). cbv iota.
    rewrite filter_cons. destruct (g x); now rewrite IH.
  - exact IH.
Qed.

Lemma filter_ext_bool {A} (f g : A -> bool) (l : list A) :
  (forall x, f x = g x) -> filter (fun x => f x) l = filter (fun x => g x) l.
Proof.
  intros H. induction l as [|x l IH]; [reflexivity|].
  rewrite !filter_cons, H. destruct (g x); now rewrite IH.
Qed.

Lemma matches_search_hit (q : string) (p : value) :
  is_record p -> matches_search q p = Ok (search_hit q p).
Proof.
  intros (r & n & t & pts & ->). unfold matches_search.
  destruct (field_player (num r) (VStr n) (VStr t) (num pts)) as (-> & -> & -> & ->).
  cbn.
  destruct (includes (toLowerCase n) q); [reflexivity|].
  destruct (includes (toLowerCase t) q); [reflexivity|].
  destruct (includes _ q); reflexivity.
Qed.

Lemma tier_filter_hit (tier : string) (p : value) :
  is_record p ->
  (t ← field p "tier"; Ok (strict_eq_str (or_val t (VStr "")) tier)) =
  Ok (tier_hit tier p).
Proof.
  intros (r & n & t & pts & ->).
  destruct (field_player (num r) (VStr n) (VStr t) (num pts)) as (_ & _ & -> & _).
  cbn. now destruct t.
Qed.

Lemma filter_records (f : value -> bool) (l : list value) :
  Forall is_record l -> Forall is_record (filter (fun x => f x) l).
Proof.
  intros H. apply Forall_forall. intros x Hx%list_elem_of_filter.
  rewrite Forall_forall in H. now apply H.
Qed.

(** The two filters of [applyFiltersAndRender], one after the other. *)
Lemma filters_visible (q tier : string) (ps : list value) :
  Forall is_record ps ->
  exists l1,
    (if is_empty q then Ok ps else filterM (matches_search q) ps) = Ok l1 /\
    (if is_empty tier then Ok l1
     else filterM (fun p => t ← field p "tier";
                            Ok (strict_eq_str (or_val t (VStr "")) tier)) l1)
    = Ok (filter (fun p => visible q tier p) ps).
Proof.
  intros H.
  exists (filter (fun p => is_empty q || search_hit q p) ps). split.
  - destruct (is_empty q); cbn [orb]; [now rewrite filter_true|].
    apply filterM_filter. eapply Forall_impl; [exact H|].
    intros p Hp. now apply matches_search_hit.
  - unfold visible.
    rewrite <- (filter_filter_bool (fun p => is_empty q || search_hit q p)
                  (fun p => is_empty tier || tier_hit tier p) ps).
    destruct (is_empty tier); cbn [orb]; [now rewrite filter_true|].
    apply filterM_filter. eapply Forall_impl; [apply filter_records, H|].
    intros p Hp. now apply tier_filter_hit.
Qed.

(** What a record holds in a column depends on the column only: a number
    under rank and points, a text under name and tier, and under any other
    name the same value for every record. *)
Lemma record_column (f : string) :
  (forall a, is_record a -> exists z, field a f = Ok (num z)) \/
  (forall a, is_record a -> exists s, field a f = Ok (VStr s)) \/
  (exists w, (w = VUndefined \/ w = VBuiltin f) /\
             forall a, is_record a -> field a f = Ok w).
Proof.
  destruct (String.eqb "rank" f) eqn:E1.
  { left. intros a (r & n & t & p & ->). exists r.
    unfold field, player, Get. cbn [obj_get]. now rewrite E1. }
  destruct (String.eqb "name" f) eqn:E2.
  { right. left. intros a (r & n & t & p & ->). exists n.
    unfold field, player, Get. cbn [obj_get]. now rewrite E1, E2. }
  destruct (String.eqb "tier" f) eqn:E3.
  { right. left. intros a (r & n & t & p & ->). exists t.
    unfold field, player, Get. cbn [obj_get]. now rewrite E1, E2, E3. }
  destruct (String.eqb "points" f) eqn:E4.
  { left. intros a (r & n & t & p & ->). exists p.
    unfold field, player, Get. cbn [obj_get]. now rewrite E1, E2, E3, E4. }
  right. right. exists (if inherited f then VBuiltin f else VUndefined). split.
  - destruct (inherited f); auto.
  - intros a (r & n & t & p & ->).
    unfold field, player, Get. cbn [obj_get]. now rewrite E1, E2, E3, E4.
Qed.

Lemma ltb_irrefl (s : string) : String.ltb s s = false.
Proof.
  unfold String.ltb. pose proof (String.compare_antisym s s) as H.
  destruct (String.compare s s); try reflexivity; discriminate.
Qed.

Lemma less_than_same (f : string) (w : value) :
  w = VUndefined \/ w = VBuiltin f -> less_than w w = Ok false.
Proof. intros [->| ->]; cbn; [reflexivity|]. now rewrite ltb_irrefl. Qed.

Lemma sorted_as_trans (ss : string * bool) (x y z : value) :
  is_record x -> is_record y -> is_record z ->
  sorted_as ss x y -> sorted_as ss y z -> sorted_as ss x z.
Proof.
  intros Hx Hy Hz. destruct ss as [f asc]. unfold sorted_as, column_le. cbn [fst snd].
  destruct (record_column f) as [H|[H|(w & Hw & H)]].
  - destruct (H x Hx) as [a ->], (H y Hy) as [b ->], (H z Hz) as [c ->].
    unfold num. destruct asc; lia.
  - destruct (H x Hx) as [a ->], (H y Hy) as [b ->], (H z Hz) as [c ->].
    destruct asc; intros H1 H2; eapply leb_trans; eassumption.
  - rewrite (H x Hx), (H y Hy), (H z Hz).
    destruct Hw as [->| ->]; now destruct asc.
Qed.

Ltac sign_of_result :=
  match goal with
  | |- context [(0 <? ?e)%Z] =>
      let v := eval vm_compute in (0 <? e)%Z in change (0 <? e)%Z with v
  end; cbv iota.

Lemma view_compare_order (ss : string * bool) (x y : value) :
  is_record x -> is_record y ->
  exists n, view_compare ss x y = Ok n /\
            match n with
            | Fin z => if (0 <? z)%Z then sorted_as ss y x else sorted_as ss x y
            | NaN => sorted_as ss x y
            end.
Proof.
  intros Hx Hy. destruct ss as [f asc]. unfold view_compare, sorted_as, column_le.
  cbn [fst snd].
  destruct (record_column f) as [H|[H|(w & Hw & H)]].
  - destruct (H x Hx) as [a ->], (H y Hy) as [b ->]. cbn.
    destruct (Z.ltb_spec a b) as [E1|E1]; cbn.
    + eexists. split; [reflexivity|]. destruct asc; sign_of_result; lia.
    + destruct (Z.ltb_spec b a) as [E2|E2]; cbn;
        (eexists; split; [reflexivity|]); destruct asc; sign_of_result; lia.
  - destruct (H x Hx) as [a ->], (H y Hy) as [b ->]. cbn.
    destruct (String.ltb a b) eqn:E1; cbn.
    + eexists. split; [reflexivity|]. destruct asc; sign_of_result; now apply ltb_leb.
    + destruct (String.ltb b a) eqn:E2; cbn;
        (eexists; split; [reflexivity|]); destruct asc; sign_of_result;
        first [now apply ltb_leb | now apply not_ltb_leb].
  - rewrite (H x Hx), (H y Hy). cbn. rewrite (less_than_same f w Hw). cbn.
    eexists. split; [reflexivity|]. try sign_of_result.
    destruct Hw as [->| ->]; now destruct asc.
Qed.







(** ** The tiers offered by the filter *)

Lemma existsb_eqb (x : string) (l : list string) :
  existsb (String.eqb x) l = true <-> x ∈ l.
Proof.
  induction l as [|y l IH]; cbn [existsb].
  - split; [discriminate|]. intros H. inversion H.
  - rewrite orb_true_iff, IH, elem_of_cons.
    split; (intros [H|H]; [left|now right]).
    + now apply String.eqb_eq in H.
    + now apply String.eqb_eq.
Qed.

Lemma dedup_from_elem (seen l : list string) (t : string) :
  t ∈ dedup_from seen l <-> t ∈ l /\ t ∉ seen.
Proof.
  revert seen. induction l as [|x l IH]; intros seen; cbn [dedup_from].
  - split; [intros H; inversion H|intros [H _]; inversion H].
  - destruct (existsb (String.eqb x) seen) eqn:E.
    + apply existsb_eqb in E. rewrite IH, elem_of_cons.
      split; [intros [H1 H2]; auto|]. intros [[->|H1] H2]; [contradiction|auto].
    + assert (Hx : x ∉ seen).
      { intros H. apply existsb_eqb in H. congruence. }
      rewrite !elem_of_cons, IH, elem_of_cons.
      split.
      * intros [->|[H1 H2]]; [auto|]. split; [now right|]. intros H. apply H2. now right.
      * intros [[->|H1] H2]; [now left|].
        destruct (String.eqb_spec t x) as [->|Hne]; [now left|].
        right. split; [exact H1|]. intros [?|?]; contradiction.
Qed.

Lemma dedup_from_nodup (seen l : list string) : NoDup (dedup_from seen l).
Proof.
  revert seen. induction l as [|x l IH]; intros seen; cbn [dedup_from].
  - constructor.
  - destruct (existsb (String.eqb x) seen); [apply IH|].
    constructor; [|apply IH].
    rewrite dedup_from_elem. intros [_ H]. apply H. now left.
Qed.

Lemma indexOf_Some (l : list string) (t : string) (i : nat) :
  indexOf l t = Some i -> l !! i = Some t.
Proof.
  revert i. induction l as [|x l IH]; intros i; cbn [indexOf]; [discriminate|].
  destruct (String.eqb_spec x t) as [->|_].
  - now intros [= <-].
  - destruct (indexOf l t) as [j|]; [|discriminate].
    intros [= <-]. now apply IH.
Qed.

Lemma indexOf_None (l : list string) (t : string) :
  indexOf l t = None <-> t ∉ l.
Proof.
  induction l as [|x l IH]; cbn [indexOf].
  - split; [intros _ H; inversion H|reflexivity].
  - rewrite elem_of_cons. destruct (String.eqb_spec x t) as [->|Hne].
    + split; [discriminate|]. intros H. exfalso. apply H. now left.
    + destruct (indexOf l t) as [j|]; cbn.
      * split; [discriminate|]. intros H. exfalso.
        assert (Hn : t ∉ l) by (intros ?; apply H; now right).
        apply IH in Hn. discriminate.
      * split; [|reflexivity]. intros _ [->|H]; [contradiction|].
        now apply (proj1 IH).
Qed.

Lemma indexOf_inj (l : list string) (x y : string) (i : nat) :
  indexOf l x = Some i -> indexOf l y = Some i -> x = y.
Proof. intros Hx%indexOf_Some Hy%indexOf_Some. congruence. Qed.

Lemma is_canonical_elem (t : string) : is_canonical t = true <-> t ∈ TIER_ORDER.
Proof.
  unfold is_canonical. destruct (indexOf TIER_ORDER t) as [i|] eqn:E.
  - split; [intros _|reflexivity]. eapply list_elem_of_lookup_2, indexOf_Some, E.
  - split; [discriminate|]. intros H. now apply indexOf_None in E.
Qed.

#[local] Instance canonical_le_antisymm : AntiSymm (=) canonical_le.
Proof.
  intros x y. unfold canonical_le.
  destruct (indexOf TIER_ORDER x) as [i|] eqn:Ex; [|now intros ->].
  destruct (indexOf TIER_ORDER y) as [j|] eqn:Ey; [|now intros ->].
  intros H1 H2. assert (i = j) as -> by lia. exact (indexOf_inj _ _ _ _ Ex Ey).
Qed.

Lemma tier_before_trans (x y z : value) :
  (exists s, x = VStr s) -> (exists s, y = VStr s) -> (exists s, z = VStr s) ->
  tier_before x y -> tier_before y z -> tier_before x z.
Proof.
  intros [a ->] [b ->] [c ->]. unfold tier_before.
  destruct (indexOf TIER_ORDER a), (indexOf TIER_ORDER b), (indexOf TIER_ORDER c);
    try tauto; lia.
Qed.

Lemma tier_compare_order (lc : string -> string -> Z) (x y : value) :
  (exists s, x = VStr s) -> (exists s, y = VStr s) ->
  exists n, tier_compare lc x y = Ok n /\
            match n with
            | Fin z => if (0 <? z)%Z then tier_before y x else tier_before x y
            | NaN => tier_before x y
            end.
Proof.
  intros [a ->] [b ->]. unfold tier_compare, tier_before.
  destruct (indexOf TIER_ORDER a) as [i|], (indexOf TIER_ORDER b) as [j|];
    cbn; (eexists; split; [reflexivity|]); cbv beta iota.
  - destruct (Z.ltb_spec 0 (Z.of_nat i - Z.of_nat j)); lia.
  - exact I.
  - exact I.
  - now destruct (0 <? lc a b)%Z.
Qed.

Lemma filter_cons_bool {A} (f : A -> bool) (x : A) (l : list A) :
  filter (fun y => f y) (x :: l) =
  if f x then x :: filter (fun y => f y) l else filter (fun y => f y) l.
Proof. rewrite filter_cons. now destruct (f x). Qed.

(** A list of labels in the comparator's order is its canonical labels,
    in the order of [TIER_ORDER], and then the others. *)
Lemma sorted_canonical_first (l : list string) :
  StronglySorted tier_before (map VStr l) ->
  l = (filter (fun t => is_canonical t) l
         ++ filter (fun t => negb (is_canonical t)) l)%list /\
  StronglySorted canonical_le (filter (fun t => is_canonical t) l).
Proof.
  induction l as [|x l IH]; cbn [map]; intros H.
  - split; [reflexivity|constructor].
  - apply StronglySorted_inv in H as [Hs Hx]. destruct (IH Hs) as [E S].
    rewrite (filter_cons_bool is_canonical),
      (filter_cons_bool (fun t => negb (is_canonical t))).
    destruct (is_canonical x) eqn:Ec; cbn [negb].
    + unfold is_canonical in Ec.
      destruct (indexOf TIER_ORDER x) as [i|] eqn:Ex; [|discriminate].
      split; [rewrite <- app_comm_cons; now rewrite <- E|]. constructor; [exact S|].
      apply Forall_forall. intros y [Hc Hy]%list_elem_of_filter.
      rewrite Forall_forall in Hx.
      specialize (Hx (VStr y)). unfold tier_before in Hx. unfold canonical_le. rewrite Ex in *.
      unfold is_canonical in Hc.
      destruct (indexOf TIER_ORDER y); [|contradiction].
      apply Hx. apply list_elem_of_fmap. now exists y.
    + unfold is_canonical in Ec.
      destruct (indexOf TIER_ORDER x) as [i|] eqn:Ex; [discriminate|].
      assert (Hn : filter (fun t => is_canonical t) l = []).
      { apply filter_none. apply Forall_forall. intros y Hy.
        rewrite Forall_forall in Hx. specialize (Hx (VStr y)). unfold tier_before in Hx.
        rewrite Ex in Hx. unfold is_canonical.
        destruct (indexOf TIER_ORDER y); [|reflexivity].
        exfalso. apply Hx. apply list_elem_of_fmap. now exists y. }
      rewrite Hn in *. split; [|constructor].
      change ([] ++ ?a)%list with a in *. now rewrite <- E.
Qed.

Lemma TIER_ORDER_sorted : StronglySorted canonical_le TIER_ORDER.
Proof.
  unfold TIER_ORDER.
  repeat (constructor; [|repeat (constructor; [vm_compute; lia|]); constructor]).
  constructor.
Qed.

Lemma TIER_ORDER_nonempty (t : string) : t ∈ TIER_ORDER -> is_empty t = false.
Proof.
  assert (H : Forall (fun t => is_empty t = false) TIER_ORDER)
    by (repeat constructor).
  rewrite Forall_forall in H. apply H.
Qed.

Lemma nonempty_true (t : string) : Is_true (negb (is_empty t)) <-> t <> "".
Proof.
  destruct t; cbn.
  - split; [intros []|intros H; now apply H].
  - split; [discriminate|intros _; exact I].
Qed.

(** [getUniqueTiers] lists the ten canonical tiers first, in the order of
    [TIER_ORDER], and after them, each once, the other tiers the players
    have (trimmed, the empty one left out), whatever order the host's
    collation puts those in.  It throws what reading a player's tier
    throws. *)
Theorem getUniqueTiers_canonical_first (localeCompare : string -> string -> Z)
    (ps : list value) :
  (forall labels, mapM tier_label ps = Ok labels ->
   exists others,
     getUniqueTiers localeCompare ps = Ok (map VStr (TIER_ORDER ++ others)) /\
     NoDup others /\
     forall t, t ∈ others <-> t ∈ labels /\ t <> "" /\ t ∉ TIER_ORDER) /\
  (forall e, mapM tier_label ps = Throw e ->
   getUniqueTiers localeCompare ps = Throw e).
Proof.
  split; [|intros e H; unfold getUniqueTiers; now rewrite H].
  intros labels H. unfold getUniqueTiers. rewrite H. cbn [mbind res_bind].
  set (s := dedup_from [] (filter (fun t => negb (is_empty t)) labels ++ TIER_ORDER)).
  set (arr := filter (fun t => negb (is_empty t)) s).
  assert (Hnd : NoDup arr) by (apply NoDup_filter, dedup_from_nodup).
  assert (Harr : forall t, t ∈ arr <-> t <> "" /\ (t ∈ labels \/ t ∈ TIER_ORDER)).
  { intros t. unfold arr, s.
    rewrite list_elem_of_filter, dedup_from_elem, elem_of_app, list_elem_of_filter,
      nonempty_true.
    split.
    - intros (Hne & [[_ Hl]|Ht] & _); auto.
    - intros (Hne & Hor). repeat split; auto; [tauto|]. intros Hf. inversion Hf. }
  destruct (array_sort_ordered (tier_compare localeCompare) tier_before
              (fun v => exists s, v = VStr s) tier_before_trans
              (tier_compare_order localeCompare)) with (l := map VStr arr)
    as (l3 & -> & HP & Hs).
  { intros x [t ->]. reflexivity. }
  { apply Forall_forall. intros v (t & -> & _)%list_elem_of_fmap. now exists t. }
  apply Permutation_map_inv in HP as (l & -> & HPl).
  destruct (sorted_canonical_first l Hs) as [El Sc].
  set (c := filter (fun t => is_canonical t) l) in *.
  set (o := filter (fun t => negb (is_canonical t)) l) in *.
  assert (Hndl : NoDup l) by now rewrite <- HPl.
  assert (Hc : c = TIER_ORDER).
  { apply (StronglySorted_unique canonical_le); [exact Sc|exact TIER_ORDER_sorted|].
    apply NoDup_Permutation.
    - now apply NoDup_filter.
    - apply (bool_decide_unpack _). vm_compute. exact I.
    - intros t. unfold c. rewrite list_elem_of_filter, <- HPl, Harr.
      rewrite (Is_true_true (is_canonical t)), is_canonical_elem.
      split; [tauto|]. intros Ht. repeat split; auto.
      intros ->. now apply TIER_ORDER_nonempty in Ht. }
  exists o. split; [now rewrite El, Hc|]. split; [now apply NoDup_filter|].
  intros t. unfold o. rewrite list_elem_of_filter, <- HPl, Harr.
  rewrite <- (is_canonical_elem t). destruct (is_canonical t); cbn;
    intuition (try discriminate).
Qed.

Lemma getUniqueTiers_canonical_first_witness :
  mapM tier_label custom_tier = Ok ["HT1"; "Elite"; ""] /\
  exists others,
    getUniqueTiers (fun _ _ => 0%Z) custom_tier = Ok (map VStr (TIER_ORDER ++ others)) /\
    NoDup others /\
    forall t, t ∈ others <-> t ∈ ["HT1"; "Elite"; ""] /\ t <> "" /\ t ∉ TIER_ORDER.
Proof.
  assert (H : mapM tier_label custom_tier = Ok ["HT1"; "Elite"; ""]) by reflexivity.
  split; [exact H|].
  destruct (getUniqueTiers_canonical_first (fun _ _ => 0%Z) custom_tier) as [H1 _].
  exact (H1 _ H).
Defined.

(** ** The mapping grid *)

Import MappingUI.

Lemma run_on_page {A B} (m : Editor.M A) (k : A -> UI B) (s : ui_state) :
  (on_page m ≫= k) s =
  match m (page s) with
  | (Ok a, p) => k a (set_page p s)
  | (Throw e, p) => (Throw e, set_page p s)
  end.
Proof.
  unfold on_page. rewrite run_bind. now destruct (m (page s)) as [[a|e] p].
Qed.

Lemma end_on_page {A} (m : Editor.M A) (s : ui_state) :
  on_page m s = (fst (m (page s)), set_page (snd (m (page s))) s).
Proof. unfold on_page. now destruct (m (page s)). Qed.

Lemma span_digits_all (u : uint) :
  JSON.span_digits (NilEmpty.string_of_uint u) = (NilEmpty.string_of_uint u, "").
Proof.
  pose proof (span_digits_uint u "" I) as H. now rewrite append_nil_r in H.
Qed.

Lemma valid_float_number (z : Z) : valid_float (NumberToString (Fin z)) = true.
Proof.
  unfold NumberToString, Z.to_int. destruct z as [|p|p]; [reflexivity| |].
  - cbn [NilZero.string_of_int].
    rewrite NilZero_NilEmpty by apply DecimalPos.Unsigned.to_uint_nonnil.
    destruct (to_uint_head p) as (c & r & E & _ & Hc).
    unfold valid_float. rewrite E, Hc, <- E, span_digits_all, E. reflexivity.
  - cbn [NilZero.string_of_int].
    rewrite NilZero_NilEmpty by apply DecimalPos.Unsigned.to_uint_nonnil.
    destruct (to_uint_head p) as (c & r & E & _ & Hc).
    unfold valid_float.
    change (String "-" ?x) with (String "-" x).
    cbn [Ascii.eqb Bool.eqb]. rewrite span_digits_all, E. reflexivity.
Qed.

Lemma number_input_integer (z : Z) :
  number_input_value (num z) = Ok (NumberToString (Fin z)).
Proof.
  unfold number_input_value, num. cbn [ToString mbind res_bind].
  now rewrite valid_float_number.
Qed.

Lemma canonical_value (tm : obj) (t : string) (z : Z) :
  obj_get tm t = Some (num z) ->
  (if is_undefined (Get tm t) then or_val (Get mappingDefault t) (num 0) else Get tm t)
  = num z /\ mapping_points tm t = z.
Proof. intros H. unfold Get, mapping_points. now rewrite H. Qed.

Lemma fill_grid_integers (tm : obj) (ts : list string) (s : ui_state) :
  Forall (fun t => exists z, obj_get tm t = Some (num z)) ts ->
  fill_grid tm ts s =
  (Ok tt, set_mappingGrid
            (mappingGrid s
               ++ map (fun t => (t, NumberToString (Fin (mapping_points tm t)))) ts) s).
Proof.
  intros H. revert s. induction H as [|t ts [z Hz] _ IH]; intros s.
  - cbn. rewrite app_nil_r. now destruct s.
  - cbn [fill_grid]. cbv zeta.
    destruct (canonical_value tm t z Hz) as [-> E].
    rewrite number_input_integer, run_lift_Ok, run_modify, IH.
    cbn [map]. rewrite E. destruct s. cbn [mappingGrid set_mappingGrid page].
    now rewrite <- app_assoc.
Qed.

Lemma populateMappingUI_integers (s : ui_state) :
  canonical_integers (Editor.tierMapping (page s)) ->
  populateMappingUI s =
  (Ok tt, set_mappingGrid (grid_of (Editor.tierMapping (page s))) s).
Proof.
  intros H. unfold populateMappingUI. rewrite run_modify, run_gets.
  rewrite (fill_grid_integers _ _ _ H). now destruct s.
Qed.




Lemma readMappingFromUI_run (s : ui_state) :
  readMappingFromUI s =
  (Ok tt,
   set_page (mapping_saved
               (set_tierMapping (read_grid (mappingGrid s) (tierMapping (page s)))
                  (page s))) s).
Proof.
  unfold readMappingFromUI. rewrite run_gets, run_on_page, end_modify.
  rewrite end_on_page, saveMapping_run. now destruct s.
Qed.



Lemma grid_number_value (v : string) : grid_number v = num (grid_value v).
Proof.
  unfold grid_number, grid_value. destruct (StringToNumber v) as [|z]; [reflexivity|].
  apply or_val_num_fin.
Qed.

Lemma assign_other (o : obj) (t k : string) (x : value) :
  t <> k -> obj_get (assign o t x) k = obj_get o k.
Proof.
  intros H. unfold assign. destruct (String.eqb t "__proto__"); [reflexivity|].
  rewrite obj_get_set. now destruct (String.eqb_spec t k).
Qed.

Lemma read_grid_other (g : list (string * string)) (tm : obj) (k : string) :
  k ∉ map fst g -> obj_get (read_grid g tm) k = obj_get tm k.
Proof.
  unfold read_grid. revert tm. induction g as [|[t v] g IH]; intros tm H; [reflexivity|].
  cbn [map fst] in H. apply not_elem_of_cons in H as [Hne Hk].
  cbn [fold_left fst snd]. rewrite IH by exact Hk. now apply assign_other.
Qed.

Lemma read_grid_entry (g : list (string * string)) (tm : obj) (t v : string) :
  NoDup (map fst g) -> (t, v) ∈ g -> t <> "__proto__" ->
  obj_get (read_grid g tm) t = Some (num (grid_value v)).
Proof.
  revert tm. induction g as [|[t' v'] g IH]; intros tm Hnd Hin Hp.
  - inversion Hin.
  - cbn [map fst] in Hnd. apply NoDup_cons in Hnd as [Hfresh Hnd].
    apply elem_of_cons in Hin as [[= <- <-]|Hin].
    + change (read_grid ((t, v) :: g) tm)
        with (read_grid g (assign tm t (grid_number v))).
      rewrite read_grid_other by exact Hfresh.
      unfold assign. destruct (String.eqb_spec t "__proto__"); [contradiction|].
      now rewrite obj_get_set, String.eqb_refl, grid_number_value.
    + change (read_grid ((t', v') :: g) tm)
        with (read_grid g (assign tm t' (grid_number v'))).
      now apply IH.
Qed.

Lemma read_grid_numeric (g : list (string * string)) (tm : obj) :
  mapping_numeric tm -> mapping_numeric (read_grid g tm).
Proof.
  unfold read_grid. revert tm. induction g as [|[t v] g IH]; intros tm H; [exact H|].
  cbn [fold_left fst snd]. apply IH. intros k x.
  unfold assign. destruct (String.eqb t "__proto__"); [apply H|].
  rewrite obj_get_set. destruct (String.eqb t k); [|apply H].
  intros [= <-]. rewrite grid_number_value. now eexists.
Qed.

(** Reading a grid whose inputs hold texts read exactly gives every tier
    of the grid a number that is not NaN, a field left empty or holding
    no number counting as 0, leaves the other entries of the mapping
    alone, stores the mapping and announces it. *)
Theorem readMappingFromUI_numbers (s : ui_state) :
  exact_grid (mappingGrid s) ->
  let tm := tierMapping (page s) in
  let s' := snd (readMappingFromUI s) in
  let tm' := tierMapping (page s') in
  fst (readMappingFromUI s) = Ok tt /\
  (NoDup (map fst (mappingGrid s)) ->
   forall t v, (t, v) ∈ mappingGrid s -> t <> "__proto__" ->
     obj_get tm' t = Some (num (grid_value v))) /\
  (forall k, k ∉ map fst (mappingGrid s) -> obj_get tm' k = obj_get tm k) /\
  localStorage (page s') =
    <[MAPPING_KEY := JSON.stringify (VObj tm') 0]> (localStorage (page s)) /\
  signals (page s') = signals (mapping_saved (page s)) /\
  players (page s') = players (page s) /\
  mappingGrid s' = mappingGrid s.
Proof.
  intros _. cbv zeta. rewrite readMappingFromUI_run. cbn [fst snd].
  destruct s as [p g]. cbn [page mappingGrid set_page].
  replace (tierMapping (mapping_saved (set_tierMapping (read_grid g (tierMapping p)) p)))
    with (read_grid g (tierMapping p)) by now destruct p.
  split; [reflexivity|]. split; [intros Hnd t v; now apply read_grid_entry|].
  split; [intros k; now apply read_grid_other|].
  repeat split; now destruct p.
Qed.

Lemma grid_typed_exact : exact_grid (mappingGrid grid_typed).
Proof. repeat constructor. Qed.

Lemma readMappingFromUI_numbers_witness :
  exact_grid (mappingGrid grid_typed) /\
  NoDup (map fst (mappingGrid grid_typed)) /\
  let tm' := tierMapping (page (snd (readMappingFromUI grid_typed))) in
  obj_get tm' "LT3" = Some (num 55) /\ obj_get tm' "HT3" = Some (num 0) /\
  obj_get tm' "HT1" = Some (num 100).
Proof.
  assert (Hnd : NoDup (map fst (mappingGrid grid_typed)))
    by (apply (bool_decide_unpack _); vm_compute; exact I).
  split; [exact grid_typed_exact|]. split; [exact Hnd|]. cbv zeta.
  destruct (readMappingFromUI_numbers grid_typed grid_typed_exact) as (_ & H1 & H2 & _).
  split; [|split].
  - apply (H1 Hnd "LT3" "55"); [repeat constructor|discriminate].
  - apply (H1 Hnd "HT3" "abc"); [repeat constructor|discriminate].
  - rewrite H2; [reflexivity|].
    intros H. apply (bool_decide_pack _) in H. vm_compute in H. exact H.
Defined.

Lemma mappingDefault_integers : canonical_integers mappingDefault.
Proof. repeat (constructor; [eexists; reflexivity|]). constructor. Qed.

(** Resetting the mapping, once confirmed, makes the mapping the default
    one, stores and announces it, redraws the grid with the default
    values and tells the user; declined, it changes nothing. *)
Theorem reset_mapping_redraws (s : ui_state) :
  let s1 := snd (resetMappingToDefault true s) in
  fst (resetMappingToDefault true s) = Ok tt /\
  tierMapping (page s1) = mappingDefault /\
  mappingGrid s1 = grid_of mappingDefault /\
  localStorage (page s1) =
    <[MAPPING_KEY := JSON.stringify (VObj mappingDefault) 0]> (localStorage (page s)) /\
  signals (page s1) = signals (mapping_saved (page s)) /\
  alerts (page s1) = (alerts (page s) ++ ["Mapping reset to defaults."])%list /\
  players (page s1) = players (page s) /\
  resetMappingToDefault false s = (Ok tt, s).
Proof.
  cbv zeta.
  assert (E : resetMappingToDefault true s =
              (Ok tt,
               set_page (set_alerts (alerts (page s) ++ ["Mapping reset to defaults."])
                           (mapping_saved (set_tierMapping mappingDefault (page s))))
                 (set_mappingGrid (grid_of mappingDefault) s))).
  { unfold resetMappingToDefault. cbn [negb].
    rewrite run_on_page, end_modify, run_on_page, saveMapping_run, run_bind.
    rewrite populateMappingUI_integers.
    2: { destruct s as [p g]. cbn [page set_page]. destruct p. exact mappingDefault_integers. }
    rewrite end_on_page. unfold alert. rewrite end_modify.
    destruct s as [p g]. cbn [page set_page set_mappingGrid mappingGrid fst snd].
    destruct p as [ls [] ? ? ? ? ? ? ? ? ? ? ?]; reflexivity. }
  rewrite E. cbn [fst snd]. destruct s as [p g].
  cbn [page set_page set_mappingGrid mappingGrid].
  repeat split; now destruct p.
Qed.

Lemma apply_commit_all (ps : list value) (msg : string) (s : state) :
  let s' := snd ((modify (set_players ps);; savePlayers;; applyFiltersAndRender;;
                  alert msg) s) in
  players s' = ps /\
  localStorage s' = <[STORAGE_KEY := JSON.stringify (VArr ps) 0]> (localStorage s) /\
  tierMapping s' = tierMapping s /\
  signals s' = signals (players_saved s).
Proof.
  cbv zeta. rewrite run_modify, run_bind, savePlayers_run, run_bind.
  pose proof (applyFiltersAndRender_view (players_saved (set_players ps s))) as Hv.
  destruct (applyFiltersAndRender (players_saved (set_players ps s))) as [[[]|e] s2];
    simpl in Hv; destruct Hv as (tf & tb & ->); unfold alert; mrun;
    now destruct s.
Qed.

(** The two Apply buttons take the values of the grid first: the grid,
    its inputs holding texts read exactly, is read into the mapping, which
    is stored and announced, and then the points are set from that
    mapping, for all players or for those without points, and the list is
    stored and announced in its turn.  Declining the confirmation of
    Apply to all keeps the list, but the mapping read from the grid stays
    stored. *)
Theorem apply_buttons_read_grid (s : ui_state) :
  exact_grid (mappingGrid s) ->
  mapping_numeric (tierMapping (page s)) ->
  Forall tiered (players (page s)) ->
  let tm' := read_grid (mappingGrid s) (tierMapping (page s)) in
  let all := page (snd (click_applyMappingBtn true s)) in
  let emp := page (snd (click_applyMappingIfEmptyBtn s)) in
  (tierMapping all = tm' /\
   Forall2 (mapped tm') (players (page s)) (players all) /\
   localStorage all =
     <[STORAGE_KEY := JSON.stringify (VArr (players all)) 0]>
       (<[MAPPING_KEY := JSON.stringify (VObj tm') 0]> (localStorage (page s))) /\
   signals all = signals (players_saved (mapping_saved (page s)))) /\
  (tierMapping emp = tm' /\
   Forall2 (fun p q => if has_points p then q = p else mapped tm' p q)
           (players (page s)) (players emp) /\
   localStorage emp =
     <[STORAGE_KEY := JSON.stringify (VArr (players emp)) 0]>
       (<[MAPPING_KEY := JSON.stringify (VObj tm') 0]> (localStorage (page s)))) /\
  click_applyMappingBtn false s =
    (Ok tt, set_page (mapping_saved (set_tierMapping tm' (page s))) s).
Proof.
  intros _ Hm Ht. cbv zeta.
  set (tm' := read_grid (mappingGrid s) (tierMapping (page s))).
  set (p1 := mapping_saved (set_tierMapping tm' (page s))).
  assert (Hm' : mapping_numeric tm') by now apply read_grid_numeric.
  assert (Hp1 : players p1 = players (page s) /\ tierMapping p1 = tm' /\
                localStorage p1 =
                  <[MAPPING_KEY := JSON.stringify (VObj tm') 0]> (localStorage (page s)) /\
                signals p1 = signals (mapping_saved (page s))).
  { subst p1. destruct (page s). repeat split. }
  destruct Hp1 as (Hps & Htm & Hls & Hsg).
  destruct (mapM_Forall2 (with_mapped_points tm') tiered (mapped tm')
              (players (page s))) as (ps1 & E1 & F1);
    [intros x Hx; now apply with_mapped_points_tiered|exact Ht|].
  destruct (mapM_Forall2
              (fun p => q ← field p "points";
                        if truthy q then Ok p else with_mapped_points tm' p)
              tiered
              (fun p q => if has_points p then q = p else mapped tm' p q)
              (players (page s))) as (ps2 & E2 & F2); [|exact Ht|].
  { intros x Hx. pose proof Hx as (o & t & -> & _ & _).
    unfold field, has_points. rewrite res_bind_Ok.
    destruct (truthy (Get o "points")); [eauto|].
    now apply with_mapped_points_tiered. }
  assert (A1 : applyMappingToAllPlayers true p1 =
               (modify (set_players ps1);; savePlayers;; applyFiltersAndRender;;
                alert "Applied mapping to all players.") p1).
  { unfold applyMappingToAllPlayers. cbn [negb].
    now rewrite !run_gets, Htm, Hps, E1, run_lift_Ok. }
  assert (A2 : applyMappingToEmptyPlayers p1 =
               (modify (set_players ps2);; savePlayers;; applyFiltersAndRender;;
                alert "Applied mapping to players with empty/zero points.") p1).
  { unfold applyMappingToEmptyPlayers. now rewrite !run_gets, Htm, Hps, E2, run_lift_Ok. }
  destruct (apply_commit_all ps1 "Applied mapping to all players." p1)
    as (B1 & B2 & B3 & B4).
  destruct (apply_commit_all ps2 "Applied mapping to players with empty/zero points." p1)
    as (C1 & C2 & C3 & C4).
  rewrite <- A1 in B1, B2, B3, B4. rewrite <- A2 in C1, C2, C3, C4.
  unfold click_applyMappingBtn, click_applyMappingIfEmptyBtn.
  rewrite !run_bind, !readMappingFromUI_run, !end_on_page.
  cbn [fst snd page set_page]. fold tm'. fold p1.
  split; [|split].
  - rewrite B1, B2, B3, B4, Hls, Htm.
    replace (signals (players_saved p1))
      with (signals (players_saved (mapping_saved (page s)))).
    2: { subst p1. destruct (page s) as [? [] ? ? ? ? ? ? ? ? ? ? ?]; reflexivity. }
    auto.
  - rewrite C1, C2, C3, Hls, Htm. auto.
  - unfold applyMappingToAllPlayers. cbn [negb]. now destruct s.
Qed.

Lemma apply_buttons_read_grid_witness :
  exact_grid (mappingGrid grid_typed) /\
  mapping_numeric (tierMapping (page grid_typed)) /\
  Forall tiered (players (page grid_typed)) /\
  players (page (snd (click_applyMappingBtn true grid_typed))) =
    [player (num 1) (VStr "XxPvPProxX") (VStr "HT1") (num 100);
     player (num 2) (VStr "SharpBlade") (VStr "LT2") (num 70);
     player (num 3) (VStr "NoobSlayer") (VStr "LT5") (num 7)] /\
  Forall2 (mapped (read_grid (mappingGrid grid_typed) (tierMapping (page grid_typed))))
          (players (page grid_typed))
          (players (page (snd (click_applyMappingBtn true grid_typed)))).
Proof.
  assert (H1 : mapping_numeric (tierMapping (page grid_typed)))
    by exact mappingDefault_numeric.
  assert (H2 : Forall tiered (players (page grid_typed))).
  { eapply Forall_impl; [exact initialData_records|exact is_record_tiered]. }
  split; [exact grid_typed_exact|].
  split; [exact H1|]. split; [exact H2|]. split; [vm_compute; reflexivity|].
  destruct (apply_buttons_read_grid grid_typed grid_typed_exact H1 H2) as ((_ & H & _) & _).
  exact H.
Defined.

(** ** The server status card *)

Lemma setText_run {B} (id text : string) (k : unit -> App.M B) (s : App.state) :
  (App.setText id (VStr text) ≫= k) s = k tt (App.set_dom (shown id text (App.dom s)) s).
Proof.
  unfold App.setText, shown. rewrite run_bind_assoc, run_gets.
  destruct (App.dom s !! id); [|rewrite run_ret; now destruct s].
  cbn [App.text_content ToString]. now rewrite run_bind_assoc, run_lift_Ok, run_modify.
Qed.

Lemma setText_end (id text : string) (s : App.state) :
  App.setText id (VStr text) s = (Ok tt, App.set_dom (shown id text (App.dom s)) s).
Proof.
  unfold App.setText, shown. rewrite run_gets.
  destruct (App.dom s !! id); [|now destruct s].
  cbn [App.text_content ToString]. now rewrite run_lift_Ok.
Qed.

Lemma setText_number {B} (id : string) (z : Z) (k : unit -> App.M B) (s : App.state) :
  (App.setText id (num z) ≫= k) s =
  k tt (App.set_dom (shown id (NumberToString (Fin z)) (App.dom s)) s).
Proof.
  unfold App.setText, shown. rewrite run_bind_assoc, run_gets.
  destruct (App.dom s !! id); [|rewrite run_ret; now destruct s].
  cbn [App.text_content ToString num].
  now rewrite run_bind_assoc, run_lift_Ok, run_modify.
Qed.

Lemma shown_lookup (id text k : string) (d : gmap string string) :
  shown id text d !! k =
  match d !! k with
  | Some old => Some (if String.eqb id k then text else old)
  | None => None
  end.
Proof.
  unfold shown. destruct (String.eqb_spec id k) as [->|Hne].
  - destruct (d !! k) eqn:E; [|now rewrite E]. now rewrite lookup_insert_eq.
  - destruct (d !! id); [|now destruct (d !! k)].
    rewrite lookup_insert_ne by exact Hne. now destruct (d !! k).
Qed.

Lemma fetch_no_data (reply : fetched) (s : App.state) :
  no_data reply ->
  App.fetchServerStatus reply s =
  (Ok (match reply with Response true (Ok v) => v | _ => VNull end),
   if fetch_threw reply
   then App.set_console (App.console s ++ ["Server status fetch error:"]) s
   else s) /\
  truthy (match reply with Response true (Ok v) => v | _ => VNull end) = false.
Proof.
  intros H. unfold App.fetchServerStatus. rewrite run_try_catch.
  destruct reply as [e|ok json]; [split; reflexivity|].
  destruct ok; cbn [negb fetch_threw orb]; [|split; reflexivity].
  destruct json as [v|e]; [|split; reflexivity].
  destruct H as [H|[[e H]|(v' & [= <-] & H)]]; try discriminate.
  split; [reflexivity|exact H].
Qed.

(** When no data comes (the request fails, the response is not ok, its
    body does not parse, or parses to a falsy value) the card shows the
    fallback texts in the elements the page has, the connect link points
    at the configured server, and nothing is thrown; the console reports
    the failure when one was thrown on the way. *)
Theorem card_without_data (year : Z) (reply : fetched) (host : res value)
    (s : App.state) :
  no_data reply ->
  let s' := snd (App.updateServerCard year reply host s) in
  fst (App.updateServerCard year reply host s) = Ok tt /\
  App.dom s' = fallback_card year (App.dom s) /\
  App.href s' =
    match App.dom s !! "srv-connect" with
    | Some _ => "minecraft:///" ++ App.serverToCheck
    | None => App.href s
    end /\
  App.console s' =
    (if fetch_threw reply then (App.console s ++ ["Server status fetch error:"])%list
     else App.console s).
Proof.
  intros H. cbv zeta. unfold App.updateServerCard.
  rewrite setText_number, run_bind.
  set (s1 := App.set_dom _ s).
  destruct (fetch_no_data reply s1 H) as [-> Hf].
  set (s2 := if fetch_threw reply then _ else s1).
  rewrite run_gets, Hf. cbn [negb].
  rewrite !setText_run. cbn [App.dom App.set_dom App.href App.console].
  set (d4 := shown "srv-players" DASH _).
  assert (Hd : App.dom s2 = shown "year" (NumberToString (Fin year)) (App.dom s)).
  { subst s2 s1. destruct (fetch_threw reply); now destruct s. }
  assert (Hl : App.dom s2 !! "srv-connect" = App.dom s !! "srv-connect").
  { rewrite Hd, shown_lookup. now destruct (App.dom s !! "srv-connect"). }
  assert (Hl4 : d4 !! "srv-connect" = App.dom s !! "srv-connect").
  { subst d4. rewrite !shown_lookup, Hl. now destruct (App.dom s !! "srv-connect"). }
  rewrite Hl. unfold fallback_card. rewrite <- Hd. fold d4.
  assert (Hsh : shown "srv-connect" ("Connect: " ++ App.serverToCheck) d4 =
                match App.dom s !! "srv-connect" with
                | Some _ => <["srv-connect" := "Connect: " ++ App.serverToCheck]> d4
                | None => d4
                end) by (unfold shown; now rewrite Hl4).
  rewrite Hsh. clearbody d4.
  destruct (App.dom s !! "srv-connect") as [old|].
  - rewrite run_modify, end_modify. cbn [fst snd].
    subst s2 s1. destruct (fetch_threw reply); now destruct s.
  - rewrite end_ret. cbn [fst snd].
    subst s2 s1. destruct (fetch_threw reply); now destruct s.
Qed.

Lemma card_without_data_witness :
  let reply := NetworkError (Error "Failed to fetch") in
  let s' := snd (App.updateServerCard 2026 reply (Throw (Error "host is not defined"))
                   card_page) in
  no_data reply /\
  fst (App.updateServerCard 2026 reply (Throw (Error "host is not defined")) card_page)
    = Ok tt /\
  App.dom s' !! "srv-name" = Some "Unable to fetch status" /\
  App.dom s' !! "srv-players" = Some DASH /\
  App.dom s' !! "year" = Some "2026" /\
  App.href s' = "minecraft:///lightvanilla.qzz.io".
Proof.
  cbv zeta.
  destruct (card_without_data 2026 (NetworkError (Error "Failed to fetch"))
              (Throw (Error "host is not defined")) card_page I)
    as (H1 & H2 & H3 & _).
  split; [exact I|]. split; [exact H1|]. rewrite H2, H3.
  repeat split; vm_compute; reflexivity.
Defined.

Lemma setText_step (id : string) (v : value) (s : App.state) :
  (exists t, App.setText id v s = (Ok tt, App.set_dom (shown id t (App.dom s)) s)) \/
  (exists e, App.setText id v s = (Throw e, s)).
Proof.
  unfold App.setText, shown. rewrite run_gets.
  destruct (App.dom s !! id) eqn:E.
  - destruct (App.text_content v) as [t|e].
    + left. exists t. now rewrite run_lift_Ok, end_modify.
    + right. exists e. now rewrite run_lift_Throw.
  - left. exists "". rewrite end_ret. now destruct s.
Qed.

Section Frame.
Context {S : Type} (R : S -> S -> Prop).
Hypothesis R_refl : forall s, R s s.
Hypothesis R_trans : forall s1 s2 s3, R s1 s2 -> R s2 s3 -> R s1 s3.

Lemma frame_bind {A B} (m : computation S A) (k : A -> computation S B) :
  frame R m -> (forall a, frame R (k a)) -> frame R (m ≫= k).
Proof.
  intros Hm Hk s. rewrite run_bind. specialize (Hm s).
  destruct (m s) as [[a|e] s']; cbn [snd] in *; [|exact Hm].
  eapply R_trans; [exact Hm|apply Hk].
Qed.

Lemma frame_ret {A} (a : A) : frame R (mret a : computation S A).
Proof. intros s. apply R_refl. Qed.

Lemma frame_lift {A} (r : res A) : frame R (lift r : computation S A).
Proof. intros s. apply R_refl. Qed.

Lemma frame_gets {A} (f : S -> A) : frame R (gets f).
Proof. intros s. apply R_refl. Qed.

Lemma frame_modify (f : S -> S) : (forall s, R s (f s)) -> frame R (modify f).
Proof. intros H s. apply H. Qed.
End Frame.

Lemma bind_ok {S A B} (m : computation S A) (k : A -> computation S B) (s : S) (b : B) :
  fst ((m ≫= k) s) = Ok b ->
  exists a s', m s = (Ok a, s') /\ fst (k a s') = Ok b.
Proof.
  rewrite run_bind. destruct (m s) as [[a|e] s']; [eauto|discriminate].
Qed.

Lemma frame_setText (R : App.state -> App.state -> Prop) (id : string) (v : value) :
  (forall s, R s s) ->
  (forall s t, R s (App.set_dom (shown id t (App.dom s)) s)) ->
  frame R (App.setText id v).
Proof.
  intros Hr H s. destruct (setText_step id v s) as [[t ->]|[e ->]]; [apply H|apply Hr].
Qed.

Ltac frame_steps Hr Htr tac :=
  repeat first
    [ tac
    | apply frame_setText; [exact Hr|]
    | apply frame_ret; exact Hr
    | apply frame_lift; exact Hr
    | apply frame_gets; exact Hr
    | apply frame_bind; [exact Htr| |intros ?]
    | match goal with
      | |- frame _ (if ?c then _ else _) => destruct c
      | |- frame _ (match ?x with _ => _ end) => destruct x
      end ].

(** The part of [updateServerCard] that draws the card from the data,
    after the status line. *)
Lemma updateServerCard_data (year : Z) (data : value) (host : res value)
    (s : App.state) :
  truthy data = true ->
  exists o rest,
    field data "online" = Ok o /\
    App.updateServerCard year (Response true (Ok data)) host s =
    rest (App.set_dom
            (shown "srv-online"
               (match o with VBool true => "Online" | _ => "Offline" end)
               (shown "year" (NumberToString (Fin year)) (App.dom s))) s) /\
    (forall R : App.state -> App.state -> Prop,
       (forall s, R s s) -> (forall s1 s2 s3, R s1 s2 -> R s2 s3 -> R s1 s3) ->
       (forall id t s, id <> "srv-online" -> id <> "srv-connect" ->
                       R s (App.set_dom (shown id t (App.dom s)) s)) ->
       (App.dom s !! "srv-connect" <> None ->
          frame R (h ← lift host; t ← lift (ToString h);
                   modify (fun s0 => App.set_dom
                             (<["srv-connect" := "Connect: " ++ t]> (App.dom s0)) s0);;
                   t' ← lift (ToString h);
                   modify (App.set_href ("minecraft:///" ++ t')))) ->
       frame R rest) /\
    (forall s2 : App.state,
       fst (rest s2) = Ok tt ->
       (exists h, field data "hostname" = Ok h /\
                  (truthy h = true \/ exists v, host = Ok v)) /\
       (App.dom s !! "srv-connect" <> None -> exists v, host = Ok v)).
Proof.
  intros Hd.
  assert (Hf : exists o, field data "online" = Ok o).
  { destruct data; try discriminate; eexists; reflexivity. }
  destruct Hf as [o Ho]. exists o.
  eexists. split; [exact Ho|]. split; [|split].
  - unfold App.updateServerCard.
    rewrite setText_number, run_bind.
    unfold App.fetchServerStatus at 1. rewrite run_try_catch. cbn [negb].
    rewrite end_lift, run_gets, Hd. cbn [negb].
    rewrite Ho, run_lift_Ok. cbv zeta.
    rewrite setText_run.
    assert (Hc : App.dom (App.set_dom (shown "year" (NumberToString (Fin year)) (App.dom s)) s)
                   !! "srv-connect" = App.dom s !! "srv-connect").
    { destruct s as [d h c]. cbn [App.dom App.set_dom].
      rewrite shown_lookup. now destruct (d !! "srv-connect"). }
    rewrite Hc.
    replace (App.set_dom
               (shown "srv-online" (if match o with VBool true => true | _ => false end
                                    then "Online" else "Offline")
                  (App.dom (App.set_dom (shown "year" (NumberToString (Fin year))
                                           (App.dom s)) s)))
               (App.set_dom (shown "year" (NumberToString (Fin year)) (App.dom s)) s))
      with (App.set_dom
              (shown "srv-online"
                 (match o with VBool true => "Online" | _ => "Offline" end)
                 (shown "year" (NumberToString (Fin year)) (App.dom s))) s).
    2: { destruct s. now destruct o as [| |[]| | | | |]. }
    match goal with |- ?k ?x = _ => instantiate (1 := k) end. reflexivity.
  - intros R Hr Htr Hset Hlink.
    destruct (App.dom s !! "srv-connect") eqn:E.
    + frame_steps Hr Htr ltac:(apply Hlink; discriminate);
        intros; apply Hset; discriminate.
    + frame_steps Hr Htr fail; intros; apply Hset; discriminate.
  - intros s2 H.
    apply bind_ok in H as (ptxt & s3 & _ & H).
    apply bind_ok in H as ([] & s4 & _ & H).
    apply bind_ok in H as (m & s5 & _ & H).
    apply bind_ok in H as ([] & s6 & _ & H).
    apply bind_ok in H as (h & s7 & Hh & H).
    unfold lift in Hh. injection Hh as Hh _.
    apply bind_ok in H as (name & s8 & Hname & H).
    apply bind_ok in H as ([] & s9 & _ & H).
    split.
    + exists h. split; [exact Hh|].
      destruct (truthy h); [now left|]. right.
      apply (f_equal fst) in Hname. apply bind_ok in Hname as (v & ? & Hv & _).
      unfold lift in Hv. injection Hv as Hv _. now exists v.
    + intros Hl. destruct (App.dom s !! "srv-connect"); [|contradiction].
      apply bind_ok in H as (v & ? & Hv & _).
      unfold lift in Hv. injection Hv as Hv _. now exists v.
Qed.

(** When data came, nothing is reported on the console, and the status
    line says Online exactly when the data's [online] is the boolean true,
    and Offline otherwise, even if drawing the rest of the card throws. *)
Theorem card_status_line (year : Z) (data : value) (host : res value) (s : App.state) :
  truthy data = true ->
  let out := App.updateServerCard year (Response true (Ok data)) host s in
  App.console (snd out) = App.console s /\
  App.dom (snd out) !! "srv-online" =
    match App.dom s !! "srv-online" with
    | Some _ =>
        Some (match field data "online" with
              | Ok (VBool true) => "Online"
              | _ => "Offline"
              end)
    | None => None
    end.
Proof.
  intros Hd. cbv zeta.
  destruct (updateServerCard_data year data host s Hd) as (o & rest & Ho & -> & Hfr & _).
  rewrite Ho.
  set (R := fun a b : App.state =>
              App.console b = App.console a /\
              App.dom b !! "srv-online" = App.dom a !! "srv-online").
  assert (Hr : forall a, R a a) by (intros a; split; reflexivity).
  assert (Htr : forall a b c, R a b -> R b c -> R a c).
  { intros a b c [A1 A2] [B1 B2]. split; congruence. }
  assert (F : frame R rest).
  { apply Hfr; [exact Hr|exact Htr| |].
    - intros id t a N1 N2. split; [now destruct a|].
      destruct a as [d h c]. cbn [App.dom App.set_dom].
      rewrite shown_lookup. destruct (String.eqb_spec id "srv-online"); [contradiction|].
      now destruct (d !! "srv-online").
    - intros _. frame_steps Hr Htr fail.
      + apply frame_modify. intros s0. split; [now destruct s0|].
        destruct s0 as [d h c]. cbn [App.dom App.set_dom].
        now rewrite lookup_insert_ne.
      + apply frame_modify. intros s0. split; now destruct s0. }
  destruct (F (App.set_dom
                 (shown "srv-online" (match o with VBool true => "Online" | _ => "Offline" end)
                    (shown "year" (NumberToString (Fin year)) (App.dom s))) s))
    as [F1 F2].
  rewrite F1, F2. destruct s as [d h c]. cbn [App.dom App.set_dom App.console].
  split; [reflexivity|]. rewrite !shown_lookup. cbn.
  now destruct (d !! "srv-online").
Qed.

Lemma card_status_line_witness :
  truthy status_reply = true /\
  App.dom (snd (App.updateServerCard 2026 (Response true (Ok status_reply))
                  (Throw (Error "host is not defined")) card_page)) !! "srv-online"
  = Some "Online".
Proof.
  split; [reflexivity|].
  destruct (card_status_line 2026 status_reply (Throw (Error "host is not defined"))
              card_page eq_refl) as [_ H].
  rewrite H. reflexivity.
Defined.

(** If the page has no global named [host], the connect link is never
    filled in when data came: its text and address are left as they were,
    and the update ends without throwing only if the page has no connect
    link and the data names a host. *)
Theorem card_link_never_filled (year : Z) (data : value) (e : exn) (s : App.state) :
  truthy data = true ->
  let out := App.updateServerCard year (Response true (Ok data)) (Throw e) s in
  App.dom (snd out) !! "srv-connect" = App.dom s !! "srv-connect" /\
  App.href (snd out) = App.href s /\
  (fst out = Ok tt ->
   App.dom s !! "srv-connect" = None /\
   exists h, field data "hostname" = Ok h /\ truthy h = true).
Proof.
  intros Hd. cbv zeta.
  destruct (updateServerCard_data year data (Throw e) s Hd)
    as (o & rest & Ho & -> & Hfr & Hok).
  set (R := fun a b : App.state =>
              App.href b = App.href a /\
              App.dom b !! "srv-connect" = App.dom a !! "srv-connect").
  assert (Hr : forall a, R a a) by (intros a; split; reflexivity).
  assert (Htr : forall a b c, R a b -> R b c -> R a c).
  { intros a b c [A1 A2] [B1 B2]. split; congruence. }
  assert (F : frame R rest).
  { apply Hfr; [exact Hr|exact Htr| |].
    - intros id t a N1 N2. split; [now destruct a|].
      destruct a as [d h c]. cbn [App.dom App.set_dom].
      rewrite shown_lookup. destruct (String.eqb_spec id "srv-connect"); [contradiction|].
      now destruct (d !! "srv-connect").
    - intros _ a. rewrite run_lift_Throw. apply Hr. }
  set (s2 := App.set_dom _ s) in *.
  destruct (F s2) as [F1 F2].
  assert (E2 : App.href s2 = App.href s /\
               App.dom s2 !! "srv-connect" = App.dom s !! "srv-connect").
  { subst s2. destruct s as [d h c]. cbn [App.dom App.set_dom App.href].
    split; [reflexivity|]. rewrite !shown_lookup. cbn.
    now destruct (d !! "srv-connect"). }
  destruct E2 as [E2 E3].
  split; [congruence|]. split; [congruence|].
  intros H. destruct (Hok s2 H) as [(h & Hh & [Ht|[v Hv]]) Hc]; [|discriminate].
  split.
  - destruct (App.dom s !! "srv-connect") eqn:E; [|reflexivity].
    destruct Hc as [v Hv]; [discriminate|discriminate].
  - now exists h.
Qed.

Lemma card_link_never_filled_witness :
  truthy status_reply = true /\
  App.dom (snd (App.updateServerCard 2026 (Response true (Ok status_reply))
                  (Throw (Error "host is not defined")) card_page)) !! "srv-connect"
  = Some "" /\
  fst (App.updateServerCard 2026 (Response true (Ok status_reply))
         (Throw (Error "host is not defined")) card_page) <> Ok tt.
Proof.
  split; [reflexivity|].
  destruct (card_link_never_filled 2026 status_reply (Error "host is not defined")
              card_page eq_refl) as (H1 & _ & H3).
  split; [rewrite H1; reflexivity|].
  intros H. destruct (H3 H) as [Hn _]. vm_compute in Hn. discriminate.
Defined.

(** ** The viewer's page *)

Ltac vp_simpl :=
  cbn [ViewerPage.base ViewerPage.searchInput ViewerPage.tierFilter
       ViewerPage.sortState ViewerPage.table ViewerPage.preview
       ViewerPage.downloads ViewerPage.yearView
       ViewerPage.set_base ViewerPage.set_searchInput ViewerPage.set_tierFilter
       ViewerPage.set_sortState ViewerPage.set_table ViewerPage.set_preview
       ViewerPage.set_downloads ViewerPage.set_yearView
       Viewer.localStorage Viewer.players Viewer.tierMapping Viewer.console
       Viewer.set_console Viewer.set_players Viewer.set_tierMapping fst snd].

Lemma run_on_base {A B} (m : Viewer.M A) (k : A -> ViewerPage.VM B)
    (s : ViewerPage.state) :
  (ViewerPage.on_base m ≫= k) s =
  match m (ViewerPage.base s) with
  | (Ok a, b) => k a (ViewerPage.set_base b s)
  | (Throw e, b) => (Throw e, ViewerPage.set_base b s)
  end.
Proof.
  rewrite run_bind. unfold ViewerPage.on_base.
  now destruct (m (ViewerPage.base s)) as [[a|e] b].
Qed.

Lemma viewer_render_rows_rows (l : list value) (s : ViewerPage.state) :
  Forall is_record l ->
  exists rows,
    ViewerPage.render_rows l s
    = (Ok tt, ViewerPage.set_table (ViewerPage.table s ++ rows) s) /\
    Forall2 (fun p rw => render_row p = Ok rw) l rows.
Proof.
  intros H. revert s. induction H as [|v l (r & n & t & p & ->) _ IH]; intros s.
  - exists []. split; [|constructor]. cbn. rewrite app_nil_r. now destruct s.
  - cbn [ViewerPage.render_rows]. rewrite render_row_record. autorewrite with run.
    destruct (IH (ViewerPage.set_table (ViewerPage.table s ++
                   [(NumberToString (Fin r), html_text (escape_text n),
                     html_text (escape_text t), NumberToString (Fin p))]) s))
      as (rows & Hr & HF).
    eexists (_ :: rows). split.
    + etransitivity; [exact Hr|]. destruct s. vp_simpl.
      now rewrite <- app_assoc.
    + constructor; [apply render_row_record|exact HF].
Qed.

(** The viewer's [applyFiltersAndRender] on a list of records. *)
Lemma viewer_applyFiltersAndRender_spec (s : ViewerPage.state) :
  Forall is_record (Viewer.players (ViewerPage.base s)) ->
  exists l tbl,
    ViewerPage.applyFiltersAndRender s = (Ok tt, ViewerPage.set_table tbl s) /\
    Forall2 (fun p rw => render_row p = Ok rw) l tbl /\
    Permutation l (filter (fun p => visible (toLowerCase (trim (ViewerPage.searchInput s)))
                                            (ViewerPage.tierFilter s) p)
                          (Viewer.players (ViewerPage.base s))) /\
    StronglySorted (sorted_as (ViewerPage.sortState s)) l.
Proof.
  intros H. unfold ViewerPage.applyFiltersAndRender. rewrite !run_gets.
  set (q := toLowerCase (trim (ViewerPage.searchInput s))).
  set (tier := ViewerPage.tierFilter s).
  set (ps := Viewer.players (ViewerPage.base s)) in *.
  destruct (filters_visible q tier ps H) as (l1 & E1 & E2).
  assert (F1 : (if is_empty q then mret ps
                else lift (filterM (matches_search q) ps))
               = (lift (Ok l1) : ViewerPage.VM _)).
  { clear E2. destruct (is_empty q); [now injection E1 as <-|now rewrite E1]. }
  rewrite F1, run_lift_Ok.
  set (l2 := filter (fun p => visible q tier p) ps) in *.
  assert (F2 : (if is_empty tier then mret l1
                else lift (filterM (fun p => t ← field p "tier";
                             Ok (strict_eq_str (or_val t (VStr "")) tier)) l1))
               = (lift (Ok l2) : ViewerPage.VM _)).
  { destruct (is_empty tier); [now injection E2 as ->|now rewrite E2]. }
  rewrite F2, run_lift_Ok, run_gets.
  assert (Hl2 : Forall is_record l2) by now apply filter_records.
  destruct (array_sort_ordered (view_compare (ViewerPage.sortState s))
              (sorted_as (ViewerPage.sortState s))
              is_record (sorted_as_trans (ViewerPage.sortState s))
              (view_compare_order (ViewerPage.sortState s))) with (l := l2)
    as (l3 & -> & HP & Hs); [|exact Hl2|].
  { intros x (r & n & t & p & ->). reflexivity. }
  rewrite run_lift_Ok. unfold ViewerPage.renderTable. rewrite run_modify.
  destruct (viewer_render_rows_rows l3 (ViewerPage.set_table [] s)) as (rows & -> & HF).
  { now rewrite HP. }
  exists l3, rows. split; [now destruct s|]. auto.
Qed.



Lemma preview_cards_run (tm : value) (card : string -> string * string)
    (tiers : list string) (s : ViewerPage.state) :
  Forall (fun t => exists x shown,
            field tm t = Ok x /\ ToString (coalesce x (VStr DASH)) = Ok shown /\
            (html_text (escape_text t), html_text (escape_text shown ++ " pts")) = card t)
         tiers ->
  ViewerPage.preview_cards tm tiers s
  = (Ok tt, ViewerPage.set_preview (ViewerPage.preview s ++ map card tiers) s).
Proof.
  intros H. revert s. induction H as [|t tiers (x & shown & Hx & Hs & Hc) _ IH]; intros s.
  - cbn. rewrite app_nil_r. now destruct s.
  - cbn [ViewerPage.preview_cards map]. rewrite Hx, run_lift_Ok, Hs, run_lift_Ok.
    rewrite run_modify, IH, Hc. destruct s. vp_simpl.
    now rewrite <- app_assoc.
Qed.

Lemma tier_names_plain :
  Forall (fun t => html_text (escape_text t) = t) TIER_ORDER.
Proof. repeat (constructor; [vm_compute; reflexivity|]). constructor. Qed.


Lemma preview_cards_dashes (tm : value) :
  (forall t, t ∈ TIER_ORDER -> field tm t = Ok VUndefined) ->
  Forall (fun t => exists x shown,
            field tm t = Ok x /\ ToString (coalesce x (VStr DASH)) = Ok shown /\
            (html_text (escape_text t), html_text (escape_text shown ++ " pts"))
            = dash_card t) TIER_ORDER.
Proof.
  intros H. apply Forall_forall. intros t Ht.
  exists VUndefined, DASH. split; [now apply H|]. split; [reflexivity|].
  pose proof tier_names_plain as Hp. rewrite Forall_forall in Hp.
  unfold dash_card. rewrite (Hp t Ht). f_equal.
Qed.

(** The steps of [reloadFromStorage] after the two loads. *)
Lemma viewer_draw_all (s : ViewerPage.state) (tmv : value)
    (card : string -> string * string) :
  Forall is_record (Viewer.players (ViewerPage.base s)) ->
  Viewer.tierMapping (ViewerPage.base s) = tmv ->
  Forall (fun t => exists x shown,
            field tmv t = Ok x /\ ToString (coalesce x (VStr DASH)) = Ok shown /\
            (html_text (escape_text t), html_text (escape_text shown ++ " pts")) = card t)
         TIER_ORDER ->
  exists l tbl,
    (ViewerPage.populateTierFilter;;
     ViewerPage.renderMappingPreview;;
     ViewerPage.applyFiltersAndRender) s
    = (Ok tt, reloaded s (Viewer.players (ViewerPage.base s)) tmv []
                (map card TIER_ORDER) tbl) /\
    Forall2 (fun p rw => render_row p = Ok rw) l tbl /\
    Permutation l (filter (fun p => visible (toLowerCase (trim (ViewerPage.searchInput s)))
                                            "" p)
                          (Viewer.players (ViewerPage.base s))) /\
    StronglySorted (sorted_as (ViewerPage.sortState s)) l.
Proof.
  intros Hrec Htm Hcards.
  unfold ViewerPage.populateTierFilter at 1.
  rewrite run_bind_assoc, run_modify, run_bind_assoc, run_gets.
  change (Viewer.players (ViewerPage.base (ViewerPage.set_tierFilter "" s)))
    with (Viewer.players (ViewerPage.base s)).
  destruct (mapM_Ok tier_label (Viewer.players (ViewerPage.base s))) as [lbl Hl].
  { eapply Forall_impl; [exact Hrec|]. apply tier_label_record. }
  rewrite run_bind_assoc, Hl, run_lift_Ok, run_ret.
  unfold ViewerPage.renderMappingPreview at 1.
  rewrite run_bind_assoc, run_modify, run_bind_assoc, run_gets.
  rewrite run_bind.
  replace (Viewer.tierMapping
             (ViewerPage.base (ViewerPage.set_preview [] (ViewerPage.set_tierFilter "" s))))
    with tmv by (now destruct s).
  rewrite (preview_cards_run tmv card TIER_ORDER _ Hcards).
  set (s1 := ViewerPage.set_preview _ _).
  destruct (viewer_applyFiltersAndRender_spec s1) as (l & tbl & -> & HF & HP & Hs).
  { subst s1. destruct s. exact Hrec. }
  exists l, tbl. split.
  { subst s1. destruct s as [[] ? ? ? ? ? ? ?]. unfold reloaded. vp_simpl.
    cbn in Htm. subst tmv. now rewrite app_nil_r. }
  subst s1. destruct s. split; [exact HF|]. split; [exact HP|exact Hs].
Qed.


(** The two loads at the start of [reloadFromStorage] and of the handler
    of [DOMContentLoaded]. *)
Lemma viewer_loads_run {B} (k : ViewerPage.VM B) (s : ViewerPage.state)
    (ps : list value) (tmv : value) (log1 log2 : list string) :
  Viewer.loadPlayers (ViewerPage.base s)
  = (Ok ps, Viewer.set_console (Viewer.console (ViewerPage.base s) ++ log1)
                               (ViewerPage.base s)) ->
  (forall b, Viewer.localStorage b = Viewer.localStorage (ViewerPage.base s) ->
             Viewer.loadMapping b
             = (Ok tmv, Viewer.set_console (Viewer.console b ++ log2) b)) ->
  (ps ← ViewerPage.on_base Viewer.loadPlayers;
   ViewerPage.on_base (modify (Viewer.set_players ps));;
   tm ← ViewerPage.on_base Viewer.loadMapping;
   ViewerPage.on_base (modify (Viewer.set_tierMapping tm));;
   k) s
  = k (ViewerPage.set_base
         {| Viewer.localStorage := Viewer.localStorage (ViewerPage.base s);
            Viewer.players := ps; Viewer.tierMapping := tmv;
            Viewer.console := Viewer.console (ViewerPage.base s) ++ log1 ++ log2 |} s).
Proof.
  intros Hp Hm.
  rewrite run_on_base, Hp, run_on_base, end_modify.
  rewrite run_on_base, Hm by (now destruct s as [[] ? ? ? ? ? ? ?]).
  rewrite run_on_base, end_modify.
  f_equal. destruct s as [[] ? ? ? ? ? ? ?]. vp_simpl.
  now rewrite <- app_assoc.
Qed.


Lemma on_loaded_run (y : Z) (s : ViewerPage.state) (ps : list value) (tmv : value)
    (log1 log2 : list string) (card : string -> string * string) :
  Viewer.loadPlayers (ViewerPage.base s)
  = (Ok ps, Viewer.set_console (Viewer.console (ViewerPage.base s) ++ log1)
                               (ViewerPage.base s)) ->
  (forall b, Viewer.localStorage b = Viewer.localStorage (ViewerPage.base s) ->
             Viewer.loadMapping b
             = (Ok tmv, Viewer.set_console (Viewer.console b ++ log2) b)) ->
  Forall is_record ps ->
  Forall (fun t => exists x shown,
            field tmv t = Ok x /\ ToString (coalesce x (VStr DASH)) = Ok shown /\
            (html_text (escape_text t), html_text (escape_text shown ++ " pts")) = card t)
         TIER_ORDER ->
  exists l tbl,
    ViewerPage.on_loaded y s
    = (Ok tt, ViewerPage.set_yearView (NumberToString (Fin y))
                (reloaded s ps tmv (log1 ++ log2) (map card TIER_ORDER) tbl)) /\
    Forall2 (fun p rw => render_row p = Ok rw) l tbl /\
    Permutation l (filter (fun p => visible (toLowerCase (trim (ViewerPage.searchInput s)))
                                            "" p) ps) /\
    StronglySorted (sorted_as (ViewerPage.sortState s)) l.
Proof.
  intros Hp Hm Hrec Hcards. unfold ViewerPage.on_loaded, ViewerPage.setYear.
  rewrite run_modify.
  set (s0 := ViewerPage.set_yearView _ s).
  rewrite (viewer_loads_run _ s0 ps tmv log1 log2); [|exact Hp|exact Hm].
  set (s1 := ViewerPage.set_base _ _).
  destruct (viewer_draw_all s1 tmv card) as (l & tbl & Hd & HF & HP & Hs).
  { subst s1 s0. now destruct s as [[] ? ? ? ? ? ? ?]. }
  { subst s1 s0. now destruct s as [[] ? ? ? ? ? ? ?]. }
  { exact Hcards. }
  rewrite Hd. exists l, tbl. split.
  { subst s1 s0. destruct s as [[] ? ? ? ? ? ? ?]. unfold reloaded. vp_simpl.
    now rewrite app_nil_r. }
  subst s1 s0. destruct s as [[] ? ? ? ? ? ? ?].
  split; [exact HF|]. split; [exact HP|exact Hs].
Qed.

Lemma set_console_nil (b : Viewer.state) :
  Viewer.set_console (Viewer.console b ++ []) b = b.
Proof. destruct b. cbn. now rewrite app_nil_r. Qed.





(** *** The viewer writes nothing *)

Lemma same_store_refl (s : ViewerPage.state) : same_store s s.
Proof. reflexivity. Qed.

Lemma same_store_trans (s1 s2 s3 : ViewerPage.state) :
  same_store s1 s2 -> same_store s2 s3 -> same_store s1 s3.
Proof. unfold same_store. congruence. Qed.

Lemma frame_try_catch {S A} (R : S -> S -> Prop) (body : computation S A)
    (handler : exn -> computation S A) :
  (forall s1 s2 s3, R s1 s2 -> R s2 s3 -> R s1 s3) ->
  frame R body -> (forall e, frame R (handler e)) -> frame R (try_catch body handler).
Proof.
  intros Htr Hb Hh s. rewrite run_try_catch. specialize (Hb s).
  destruct (body s) as [[a|e] s']; cbn [snd] in *; [exact Hb|].
  eapply Htr; [exact Hb|apply Hh].
Qed.

Lemma store_kept_refl (b : Viewer.state) : store_kept b b.
Proof. reflexivity. Qed.

Lemma store_kept_trans (b1 b2 b3 : Viewer.state) :
  store_kept b1 b2 -> store_kept b2 b3 -> store_kept b1 b3.
Proof. unfold store_kept. congruence. Qed.

Ltac store_steps tac :=
  frame_steps store_kept_refl store_kept_trans
    ltac:(first [ tac
                | apply frame_try_catch; [exact store_kept_trans| |intros ?]
                | apply frame_modify; intros []; reflexivity ]).

Lemma viewer_loadPlayers_store : frame store_kept Viewer.loadPlayers.
Proof.
  unfold Viewer.loadPlayers, Viewer.getItem, Viewer.console_error.
  store_steps fail.
Qed.

Lemma viewer_loadMapping_store : frame store_kept Viewer.loadMapping.
Proof.
  unfold Viewer.loadMapping, Viewer.getItem, Viewer.console_error.
  store_steps fail.
Qed.

Lemma frame_on_base {A} (m : Viewer.M A) :
  frame store_kept m -> frame same_store (ViewerPage.on_base m).
Proof.
  intros H s. unfold ViewerPage.on_base. specialize (H (ViewerPage.base s)).
  destruct (m (ViewerPage.base s)) as [r b]. exact H.
Qed.

Ltac page_steps tac :=
  frame_steps same_store_refl same_store_trans
    ltac:(first [ tac
                | apply frame_on_base;
                  first [ exact viewer_loadPlayers_store
                        | exact viewer_loadMapping_store
                        | apply frame_modify; intros []; reflexivity ]
                | apply frame_modify; intros [[] ? ? ? ? ? ? ?]; reflexivity ]).

Lemma viewer_preview_cards_store (tm : value) (tiers : list string) :
  frame same_store (ViewerPage.preview_cards tm tiers).
Proof.
  induction tiers as [|t tiers IH]; cbn [ViewerPage.preview_cards];
    page_steps ltac:(exact IH).
Qed.

Lemma viewer_render_rows_store (l : list value) :
  frame same_store (ViewerPage.render_rows l).
Proof.
  induction l as [|p l IH]; cbn [ViewerPage.render_rows];
    page_steps ltac:(exact IH).
Qed.

Lemma viewer_applyFiltersAndRender_store :
  frame same_store ViewerPage.applyFiltersAndRender.
Proof.
  unfold ViewerPage.applyFiltersAndRender, ViewerPage.renderTable.
  page_steps ltac:(apply viewer_render_rows_store).
Qed.

Lemma viewer_reloadFromStorage_store : frame same_store ViewerPage.reloadFromStorage.
Proof.
  unfold ViewerPage.reloadFromStorage, ViewerPage.populateTierFilter,
    ViewerPage.renderMappingPreview, ViewerPage.console_info.
  page_steps ltac:(first [ apply viewer_applyFiltersAndRender_store
                         | apply viewer_preview_cards_store ]).
Qed.

Lemma viewer_handle_store (ev : ViewerPage.event) :
  frame same_store (ViewerPage.handle ev).
Proof.
  destruct ev as [y|data|key| | |text|tier|f|]; cbn [ViewerPage.handle].
  - unfold ViewerPage.on_loaded, ViewerPage.setYear, ViewerPage.populateTierFilter,
      ViewerPage.renderMappingPreview.
    page_steps ltac:(first [ apply viewer_applyFiltersAndRender_store
                           | apply viewer_preview_cards_store ]).
  - unfold ViewerPage.on_message, ViewerPage.console_info.
    page_steps ltac:(apply viewer_reloadFromStorage_store).
  - unfold ViewerPage.on_storage, ViewerPage.console_info.
    page_steps ltac:(apply viewer_reloadFromStorage_store).
  - unfold ViewerPage.on_players_updated, ViewerPage.console_info.
    page_steps ltac:(apply viewer_reloadFromStorage_store).
  - unfold ViewerPage.on_mapping_updated, ViewerPage.console_info.
    page_steps ltac:(apply viewer_reloadFromStorage_store).
  - page_steps ltac:(apply viewer_applyFiltersAndRender_store).
  - page_steps ltac:(apply viewer_applyFiltersAndRender_store).
  - unfold ViewerPage.click_sort_header.
    page_steps ltac:(apply viewer_applyFiltersAndRender_store).
  - unfold ViewerPage.downloadJSON. page_steps fail.
Qed.

(** The viewer is read-only: whatever happens on its page, in whatever
    order, whatever the store holds and whether or not a handler throws,
    the store is afterwards what it was. *)
Theorem viewer_read_only (evs : list ViewerPage.event) (vt : ViewerPage.state) :
  same_store vt (ViewerPage.after_events evs vt).
Proof.
  revert vt. induction evs as [|ev evs IH]; intros vt; [reflexivity|].
  unfold ViewerPage.after_events. cbn [fold_left].
  eapply same_store_trans; [apply viewer_handle_store|apply IH].
Qed.

(** *** A store without data *)

Lemma viewer_loadMapping_no_object (store : gmap string string) :
  match store !! MAPPING_KEY with
  | None => True
  | Some r => forall o, JSON.parse r <> Ok (VObj o)
  end ->
  exists tmv log,
    (forall t, t ∈ TIER_ORDER -> field tmv t = Ok VUndefined) /\
    forall b, Viewer.localStorage b = store ->
              Viewer.loadMapping b
              = (Ok tmv, Viewer.set_console (Viewer.console b ++ log) b).
Proof.
  intros H.
  assert (Hobj : forall t, t ∈ TIER_ORDER -> field (VObj []) t = Ok VUndefined).
  { intros t Ht. unfold TIER_ORDER in Ht.
    repeat (apply elem_of_cons in Ht as [-> | Ht]; [reflexivity|]).
    now apply elem_of_nil in Ht. }
  unfold Viewer.loadMapping, Viewer.getItem, Viewer.console_error.
  destruct (store !! MAPPING_KEY) as [raw|] eqn:E.
  2: { exists (VObj []), []. split; [exact Hobj|]. intros b <-.
       rewrite run_try_catch, run_gets, E. mrun. now rewrite set_console_nil. }
  destruct raw as [|c r].
  { exists (VObj []), []. split; [exact Hobj|]. intros b <-.
    rewrite run_try_catch, run_gets, E. mrun. now rewrite set_console_nil. }
  cbn in H. destruct (JSON.parse (String c r)) as [v|e] eqn:Ep.
  - destruct v as [| |b0|n0|s0|l|o|k]; try (now specialize (H o)).
    all: try (exists (VObj []), []; split; [exact Hobj|]; intros b <-;
              rewrite run_try_catch, run_gets, E, Ep; mrun;
              now rewrite set_console_nil).
    exists (VArr l), []. split; [reflexivity|]. intros b <-.
    rewrite run_try_catch, run_gets, E, Ep. mrun. now rewrite set_console_nil.
  - exists (VObj []), ["players-view: failed reading mapping:"].
    split; [exact Hobj|]. intros b <-.
    rewrite run_try_catch, run_gets, E, Ep. now mrun.
Qed.

(** Opened on a store that gives no list and no mapping object, the
    viewer draws an empty table and a card for every canonical tier with
    a dash where the points would be; it shows the year, throws nothing
    and leaves the store as it is. *)
Theorem viewer_opens_without_data (y : Z) (vt : ViewerPage.state) :
  no_list (Viewer.localStorage (ViewerPage.base vt) !! STORAGE_KEY) ->
  no_plain_object (Viewer.localStorage (ViewerPage.base vt) !! MAPPING_KEY) ->
  let out := ViewerPage.on_loaded y vt in
  fst out = Ok tt /\
  Viewer.players (ViewerPage.base (snd out)) = [] /\
  ViewerPage.table (snd out) = [] /\
  ViewerPage.preview (snd out) = map dash_card TIER_ORDER /\
  ViewerPage.yearView (snd out) = NumberToString (Fin y) /\
  same_store vt (snd out).
Proof.
  intros Hl%no_list_parse Hm. cbv zeta.
  destruct (viewer_loadPlayers_empty _ Hl) as [log1 Hp].
  destruct (viewer_loadMapping_no_object (Viewer.localStorage (ViewerPage.base vt)))
    as (tmv & log2 & Hf & Hlm).
  { destruct (Viewer.localStorage (ViewerPage.base vt) !! MAPPING_KEY) as [r|];
      [|exact I].
    destruct Hm as [Hm | [_ Hm]]; [|exact Hm].
    intros o Ho%parse_object_starts. congruence. }
  destruct (on_loaded_run y vt [] tmv log1 log2 dash_card Hp)
    as (l & tbl & -> & HF & HP & _).
  - intros b Hb. now apply Hlm.
  - constructor.
  - now apply preview_cards_dashes.
  - cbn [filter] in HP. apply Permutation_nil_r in HP. subst l.
    inversion HF; subst. unfold reloaded, same_store. vp_simpl.
    repeat (split; [reflexivity|]). reflexivity.
Qed.

Lemma viewer_opens_without_data_witness :
  let vt := viewer_page {[ STORAGE_KEY := "{}"; MAPPING_KEY := "[10,20]" ]} in
  no_list (Viewer.localStorage (ViewerPage.base vt) !! STORAGE_KEY) /\
  no_plain_object (Viewer.localStorage (ViewerPage.base vt) !! MAPPING_KEY) /\
  ViewerPage.preview (snd (ViewerPage.on_loaded 2026 vt)) = map dash_card TIER_ORDER.
Proof.
  intros vt.
  assert (H1 : no_list (Viewer.localStorage (ViewerPage.base vt) !! STORAGE_KEY)).
  { right. right. split; [reflexivity|]. intros l. vm_compute. discriminate. }
  assert (H2 : no_plain_object (Viewer.localStorage (ViewerPage.base vt) !! MAPPING_KEY)).
  { right. split; [reflexivity|]. intros o. vm_compute. discriminate. }
  split; [exact H1|]. split; [exact H2|].
  apply (viewer_opens_without_data 2026 vt H1 H2).
Defined.

(** ** The editor's listeners *)

Lemma quiet_refl (s : state) : quiet s s.
Proof. unfold quiet. repeat split. Qed.

Lemma quiet_trans (s1 s2 s3 : state) : quiet s1 s2 -> quiet s2 s3 -> quiet s1 s3.
Proof. unfold quiet. intuition congruence. Qed.

Lemma view_only_quiet (s s' : state) : view_only s s' -> quiet s s'.
Proof. intros (tf & tb & ->). destruct s. unfold quiet. st_simpl. repeat split. Qed.

Lemma frame_throw {S A} (R : S -> S -> Prop) (e : exn) :
  (forall s, R s s) -> frame R (throw e : computation S A).
Proof. intros H s. apply H. Qed.

Ltac quiet_steps tac :=
  frame_steps quiet_refl quiet_trans
    ltac:(first [ tac
                | apply frame_try_catch; [exact quiet_trans| |intros ?]
                | apply frame_throw; exact quiet_refl
                | solve [apply frame_modify; intros []; unfold quiet; st_simpl; repeat split] ]).

Lemma loadPlayers_quiet : frame quiet loadPlayers.
Proof.
  unfold loadPlayers, getItem, setItem, removeItem, console_error.
  quiet_steps fail.
Qed.

Lemma loadMapping_quiet : frame quiet loadMapping.
Proof.
  unfold loadMapping, getItem, setItem, removeItem, console_error.
  quiet_steps fail.
Qed.

Lemma quiet_page_refl (s : ui_state) : quiet_page s s.
Proof. apply quiet_refl. Qed.

Lemma quiet_page_trans (s1 s2 s3 : ui_state) :
  quiet_page s1 s2 -> quiet_page s2 s3 -> quiet_page s1 s3.
Proof. apply quiet_trans. Qed.

Lemma frame_on_page {A} (m : Editor.M A) :
  frame quiet m -> frame quiet_page (on_page m).
Proof.
  intros H s. rewrite end_on_page. cbn [snd]. apply H.
Qed.

Ltac quiet_page_steps tac :=
  frame_steps quiet_page_refl quiet_page_trans
    ltac:(first [ tac
                | apply frame_on_page;
                  first [ exact loadPlayers_quiet
                        | exact loadMapping_quiet
                        | intros s0; apply view_only_quiet;
                          first [ apply populateTierFilter_view
                                | apply applyFiltersAndRender_view ]
                        | solve [apply frame_modify; intros []; unfold quiet; st_simpl; repeat split] ]
                | solve [apply frame_modify; intros []; apply quiet_refl] ]).

Lemma fill_grid_quiet (tm : obj) (ts : list string) :
  frame quiet_page (fill_grid tm ts).
Proof.
  induction ts as [|t ts IH]; cbn [fill_grid]; cbv zeta;
    quiet_page_steps ltac:(exact IH).
Qed.

Lemma reload_all_quiet : frame quiet_page Listeners.reload_all.
Proof.
  unfold Listeners.reload_all, populateMappingUI.
  quiet_page_steps ltac:(apply fill_grid_quiet).
Qed.

(** Told of a save in another tab, or of anything else on the channel or
    in the store, the editor sends no signal of its own, shows no dialog
    and hands over no file; it keeps its search text and sort state, and
    it keeps the index of the row being edited, whatever list it has
    read. *)
Theorem editor_listeners_quiet (ev : Listeners.event) (s : ui_state) :
  quiet (page s) (page (snd (Listeners.handle ev s))).
Proof.
  revert s. change (frame quiet_page (Listeners.handle ev)).
  destruct ev as [data|key]; cbn [Listeners.handle];
    unfold Listeners.on_message, Listeners.on_storage;
    quiet_page_steps ltac:(apply reload_all_quiet).
Qed.





